(** * go-gdachain: light-client topic, metered streams, receipts, node start-up

    A shallow embedding of the parts of the repository that the properties
    of the second half of this file are about:

    - [Les.lesTopic], the discovery topic of the light protocol;
    - [GdaMetrics] and [LesMetrics], the two [meteredMsgReadWriter]
      wrappers and the meters they mark;
    - [Types], the consensus encoding of a [Receipt];
    - [Gda.New], the guards at the head of the full-node constructor;
    - [Retrieve], the retrieval state machine of the specification;
    - [Storage], receipts for storage and receipt lists;
    - [GdaService], the full service after [New]: extra data, the
      gdaerbase, mining and [Start];
    - [LesBackend], the constructor and [Start] of the light service;
    - [ApiBackend], the API backends of both services;
    - [Mobile], the bootnodes and [NewNode] of the mobile package;
    - [Session], runs of calls on a message stream.

    Go values are modelled as the code has them: unsigned integers as [N]
    or [Z], byte slices as [list byte], strings as [string], a panic or an
    [error] result as a constructor of its own. *)

From Stdlib Require Import ZArith NArith Lia Ascii String List.
From Stdlib Require Import Strings.Byte.
From stdpp Require Import base tactics option list gmap strings.

Import ListNotations.
Open Scope string_scope.

(** ** Outcomes of Go calls *)

(** A Go call either returns or panics. *)
Inductive outcome (A : Type) : Type :=
| Returns (a : A)
| Panics.
Arguments Returns {A} a.
Arguments Panics {A}.

(** A Go [(T, error)] result. *)
Inductive result (E A : Type) : Type :=
| Ok (a : A)
| Err (e : E).
Arguments Ok {E A} a.
Arguments Err {E A} e.

(** ** package common *)
Module Common.

(** [common.HashLength] *)
Definition HashLength : nat := 32.

(** [type Hash [HashLength]byte]: a byte array of fixed length. *)
Record Hash : Type := mkHash {
  hash_bytes : list byte;
  hash_len : length hash_bytes = HashLength
}.

(** [h.Bytes()] *)
Definition Bytes (h : Hash) : list byte := hash_bytes h.

(** Go's [hextable] of encoding/hex. *)
Definition hextable : string := "0123456789abcdef".

Definition hexdigit (n : N) : ascii :=
  match String.get (N.to_nat n) hextable with
  | Some c => c
  | None => "0"%char
  end.

(** Modelled from the spec: [common.Bytes2Hex] is not among the sources;
    it is the hex encoding of a byte slice, [hex.EncodeToString]: for each
    byte [v] the digits [hextable[v>>4]] and [hextable[v&0x0f]]. *)
Fixpoint Bytes2Hex (d : list byte) : string :=
  match d with
  | [] => ""
  | v :: rest =>
      String (hexdigit (N.shiftr (Byte.to_N v) 4))
        (String (hexdigit (N.land (Byte.to_N v) 15)) (Bytes2Hex rest))
  end.

(** The inverse of [hexdigit] on the sixteen digits. *)
Definition unhexdigit (c : ascii) : option N :=
  let n := N_of_ascii c in
  if (48 <=? n)%N && (n <=? 57)%N then Some (n - 48)%N
  else if (97 <=? n)%N && (n <=? 102)%N then Some (n - 87)%N
  else None.

Fixpoint Hex2Bytes (s : string) : option (list byte) :=
  match s with
  | EmptyString => Some []
  | String hi (String lo rest) =>
      match unhexdigit hi, unhexdigit lo, Hex2Bytes rest with
      | Some h, Some l, Some bs =>
          match Byte.of_N (h * 16 + l) with
          | Some b => Some (b :: bs)
          | None => None
          end
      | _, _, _ => None
      end
  | String _ EmptyString => None
  end.

End Common.

(** ** package les: the discovery topic *)
Module Les.
Import Common.

(** [discv5.Topic] is a string type. *)
Definition Topic : Type := string.

Section Topic.
(** The protocol version constants of les/protocol.go, which is not
    among the sources. *)
Variables lpv1 lpv2 : N.

(** [lesTopic]: the [switch] compares [protocolVersion] with the cases
    in order; the default case panics. *)
Definition lesTopic (genesisHash : Hash) (protocolVersion : N)
  : outcome Topic :=
  let name :=
    if N.eqb protocolVersion lpv1 then Returns "LES"
    else if N.eqb protocolVersion lpv2 then Returns "LES2"
    else Panics in
  match name with
  | Returns name =>
      Returns (name ++ "@" ++ Bytes2Hex (take 8 (Bytes genesisHash)))
  | Panics => Panics
  end.

(** The versions the [switch] has a case for. *)
Definition supported (v : N) : Prop := v = lpv1 \/ v = lpv2.
End Topic.

End Les.

(** ** package p2p: messages and message streams *)
Module P2P.

(** [p2p.Msg]: [Code uint64], [Size uint32] and the payload. *)
Record Msg : Type := mkMsg {
  Code : N;
  Size : N;
  Payload : list byte
}.

(** A Go [error] value; [None] is [nil]. *)
Definition error : Type := string.

(** [p2p.MsgReadWriter]: the interface of a message stream, over the
    state [S] of the stream behind it. *)
Class MsgReadWriter (S : Type) : Type := {
  ReadMsg : S -> (Msg * option error) * S;
  WriteMsg : Msg -> S -> option error * S
}.

End P2P.

(** ** package metrics: the sink *)
Module Metrics.

(** The metrics sink is outside the sources: it is kept as the sequence
    of [Mark] calls it received, each with the registered name of the
    meter and the marked amount, oldest first. *)
Definition Sink : Type := list (string * Z).

(** [meter.Mark(n)] on the meter registered as [name]. *)
Definition Mark (name : string) (n : Z) (s : Sink) : Sink :=
  (s ++ [(name, n)])%list.

(** What a meter has counted: the sum of the amounts marked on it. *)
Fixpoint count (name : string) (s : Sink) : Z :=
  match s with
  | [] => 0
  | (m, n) :: rest =>
      ((if String.eqb m name then n else 0) + count name rest)%Z
  end.

End Metrics.

(** ** package gda: the metered message stream of the full protocol *)
Module GdaMetrics.
Import P2P Metrics.

(** The constants of gda/protocol.go, which is not among the sources:
    the protocol version [gda63] and the message codes. *)
Record Protocol : Type := mkProtocol {
  gda63 : Z;
  NewBlockHashesMsg : N;
  TxMsg : N;
  BlockHeadersMsg : N;
  BlockBodiesMsg : N;
  NewBlockMsg : N;
  NodeDataMsg : N;
  ReceiptsMsg : N
}.

Definition propTxnInPacketsMeter := "gda/prop/txns/in/packets".
Definition propTxnInTrafficMeter := "gda/prop/txns/in/traffic".
Definition propTxnOutPacketsMeter := "gda/prop/txns/out/packets".
Definition propTxnOutTrafficMeter := "gda/prop/txns/out/traffic".
Definition propHashInPacketsMeter := "gda/prop/hashes/in/packets".
Definition propHashInTrafficMeter := "gda/prop/hashes/in/traffic".
Definition propHashOutPacketsMeter := "gda/prop/hashes/out/packets".
Definition propHashOutTrafficMeter := "gda/prop/hashes/out/traffic".
Definition propBlockInPacketsMeter := "gda/prop/blocks/in/packets".
Definition propBlockInTrafficMeter := "gda/prop/blocks/in/traffic".
Definition propBlockOutPacketsMeter := "gda/prop/blocks/out/packets".
Definition propBlockOutTrafficMeter := "gda/prop/blocks/out/traffic".
Definition reqHeaderInPacketsMeter := "gda/req/headers/in/packets".
Definition reqHeaderInTrafficMeter := "gda/req/headers/in/traffic".
Definition reqHeaderOutPacketsMeter := "gda/req/headers/out/packets".
Definition reqHeaderOutTrafficMeter := "gda/req/headers/out/traffic".
Definition reqBodyInPacketsMeter := "gda/req/bodies/in/packets".
Definition reqBodyInTrafficMeter := "gda/req/bodies/in/traffic".
Definition reqBodyOutPacketsMeter := "gda/req/bodies/out/packets".
Definition reqBodyOutTrafficMeter := "gda/req/bodies/out/traffic".
Definition reqStateInPacketsMeter := "gda/req/states/in/packets".
Definition reqStateInTrafficMeter := "gda/req/states/in/traffic".
Definition reqStateOutPacketsMeter := "gda/req/states/out/packets".
Definition reqStateOutTrafficMeter := "gda/req/states/out/traffic".
Definition reqReceiptInPacketsMeter := "gda/req/receipts/in/packets".
Definition reqReceiptInTrafficMeter := "gda/req/receipts/in/traffic".
Definition reqReceiptOutPacketsMeter := "gda/req/receipts/out/packets".
Definition reqReceiptOutTrafficMeter := "gda/req/receipts/out/traffic".
Definition miscInPacketsMeter := "gda/misc/in/packets".
Definition miscInTrafficMeter := "gda/misc/in/traffic".
Definition miscOutPacketsMeter := "gda/misc/out/packets".
Definition miscOutTrafficMeter := "gda/misc/out/traffic".

(** [meteredMsgReadWriter]: the wrapped stream and the protocol
    version. *)
Record meteredMsgReadWriter (S : Type) : Type := mkMetered {
  MsgReadWriter_ : S;
  version : Z
}.
Arguments mkMetered {S} _ _.
Arguments MsgReadWriter_ {S} _.
Arguments version {S} _.

(** [newMeteredMsgWriter]: the stream itself when metrics are disabled,
    else the wrapper, whose [version] is the zero value. *)
Definition newMeteredMsgWriter {S : Type} (Enabled : bool) (rw : S)
  : S + meteredMsgReadWriter S :=
  if negb Enabled then inl rw else inr (mkMetered rw 0%Z).

(** [Init] *)
Definition Init {S : Type} (v : Z) (rw : meteredMsgReadWriter S)
  : meteredMsgReadWriter S :=
  mkMetered (MsgReadWriter_ rw) v.

Section Wrapper.
Context {S : Type} `{!MsgReadWriter S}.
Variable p : Protocol.

(** The [switch] of [ReadMsg]: the first case that holds picks the
    meters; without one the misc meters stay. *)
Definition inMeters (v : Z) (code : N) : string * string :=
  if N.eqb code (BlockHeadersMsg p)
  then (reqHeaderInPacketsMeter, reqHeaderInTrafficMeter)
  else if N.eqb code (BlockBodiesMsg p)
  then (reqBodyInPacketsMeter, reqBodyInTrafficMeter)
  else if Z.leb (gda63 p) v && N.eqb code (NodeDataMsg p)
  then (reqStateInPacketsMeter, reqStateInTrafficMeter)
  else if Z.leb (gda63 p) v && N.eqb code (ReceiptsMsg p)
  then (reqReceiptInPacketsMeter, reqReceiptInTrafficMeter)
  else if N.eqb code (NewBlockHashesMsg p)
  then (propHashInPacketsMeter, propHashInTrafficMeter)
  else if N.eqb code (NewBlockMsg p)
  then (propBlockInPacketsMeter, propBlockInTrafficMeter)
  else if N.eqb code (TxMsg p)
  then (propTxnInPacketsMeter, propTxnInTrafficMeter)
  else (miscInPacketsMeter, miscInTrafficMeter).

(** The [switch] of [WriteMsg]. *)
Definition outMeters (v : Z) (code : N) : string * string :=
  if N.eqb code (BlockHeadersMsg p)
  then (reqHeaderOutPacketsMeter, reqHeaderOutTrafficMeter)
  else if N.eqb code (BlockBodiesMsg p)
  then (reqBodyOutPacketsMeter, reqBodyOutTrafficMeter)
  else if Z.leb (gda63 p) v && N.eqb code (NodeDataMsg p)
  then (reqStateOutPacketsMeter, reqStateOutTrafficMeter)
  else if Z.leb (gda63 p) v && N.eqb code (ReceiptsMsg p)
  then (reqReceiptOutPacketsMeter, reqReceiptOutTrafficMeter)
  else if N.eqb code (NewBlockHashesMsg p)
  then (propHashOutPacketsMeter, propHashOutTrafficMeter)
  else if N.eqb code (NewBlockMsg p)
  then (propBlockOutPacketsMeter, propBlockOutTrafficMeter)
  else if N.eqb code (TxMsg p)
  then (propTxnOutPacketsMeter, propTxnOutTrafficMeter)
  else (miscOutPacketsMeter, miscOutTrafficMeter).

(** [(rw *meteredMsgReadWriter) ReadMsg]: the state is the wrapper
    and the sink. *)
Definition meteredReadMsg (st : meteredMsgReadWriter S * Sink)
  : (Msg * option error) * (meteredMsgReadWriter S * Sink) :=
  let '(rw, sink) := st in
  let '((msg, err), inner) := ReadMsg (MsgReadWriter_ rw) in
  let rw' := mkMetered inner (version rw) in
  match err with
  | Some e => ((msg, Some e), (rw', sink))
  | None =>
      let '(packets, traffic) := inMeters (version rw) (Code msg) in
      let sink := Mark packets 1 sink in
      let sink := Mark traffic (Z.of_N (Size msg)) sink in
      ((msg, None), (rw', sink))
  end.

(** [(rw *meteredMsgReadWriter) WriteMsg] *)
Definition meteredWriteMsg (msg : Msg)
    (st : meteredMsgReadWriter S * Sink)
  : option error * (meteredMsgReadWriter S * Sink) :=
  let '(rw, sink) := st in
  let '(packets, traffic) := outMeters (version rw) (Code msg) in
  let sink := Mark packets 1 sink in
  let sink := Mark traffic (Z.of_N (Size msg)) sink in
  let '(err, inner) := WriteMsg msg (MsgReadWriter_ rw) in
  (err, (mkMetered inner (version rw), sink)).

(** The wrapper is a message stream itself. *)
#[export] Instance metered_MsgReadWriter
  : MsgReadWriter (meteredMsgReadWriter S * Sink) :=
  {| ReadMsg := meteredReadMsg; WriteMsg := meteredWriteMsg |}.
End Wrapper.

End GdaMetrics.

(** ** package les: the metered message stream of the light protocol *)
Module LesMetrics.
Import P2P Metrics.

Definition miscInPacketsMeter := "les/misc/in/packets".
Definition miscInTrafficMeter := "les/misc/in/traffic".
Definition miscOutPacketsMeter := "les/misc/out/packets".
Definition miscOutTrafficMeter := "les/misc/out/traffic".

Record meteredMsgReadWriter (S : Type) : Type := mkMetered {
  MsgReadWriter_ : S;
  version : Z
}.
Arguments mkMetered {S} _ _.
Arguments MsgReadWriter_ {S} _.
Arguments version {S} _.

Definition newMeteredMsgWriter {S : Type} (Enabled : bool) (rw : S)
  : S + meteredMsgReadWriter S :=
  if negb Enabled then inl rw else inr (mkMetered rw 0%Z).

Definition Init {S : Type} (v : Z) (rw : meteredMsgReadWriter S)
  : meteredMsgReadWriter S :=
  mkMetered (MsgReadWriter_ rw) v.

Section Wrapper.
Context {S : Type} `{!MsgReadWriter S}.

(** [ReadMsg]: every message read without error is marked on the misc
    meters. *)
Definition meteredReadMsg (st : meteredMsgReadWriter S * Sink)
  : (Msg * option error) * (meteredMsgReadWriter S * Sink) :=
  let '(rw, sink) := st in
  let '((msg, err), inner) := ReadMsg (MsgReadWriter_ rw) in
  let rw' := mkMetered inner (version rw) in
  match err with
  | Some e => ((msg, Some e), (rw', sink))
  | None =>
      let '(packets, traffic) := (miscInPacketsMeter, miscInTrafficMeter) in
      let sink := Mark packets 1 sink in
      let sink := Mark traffic (Z.of_N (Size msg)) sink in
      ((msg, None), (rw', sink))
  end.

(** [WriteMsg] *)
Definition meteredWriteMsg (msg : Msg)
    (st : meteredMsgReadWriter S * Sink)
  : option error * (meteredMsgReadWriter S * Sink) :=
  let '(rw, sink) := st in
  let '(packets, traffic) := (miscOutPacketsMeter, miscOutTrafficMeter) in
  let sink := Mark packets 1 sink in
  let sink := Mark traffic (Z.of_N (Size msg)) sink in
  let '(err, inner) := WriteMsg msg (MsgReadWriter_ rw) in
  (err, (mkMetered inner (version rw), sink)).

#[export] Instance metered_MsgReadWriter
  : MsgReadWriter (meteredMsgReadWriter S * Sink) :=
  {| ReadMsg := meteredReadMsg; WriteMsg := meteredWriteMsg |}.
End Wrapper.

End LesMetrics.

(** ** package bytes *)
Module Bytes.

(** [bytes.Equal]: same length and same bytes; a nil slice equals an
    empty one. *)
Fixpoint Equal (a b : list byte) : bool :=
  match a, b with
  | [], [] => true
  | x :: a, y :: b => Byte.eqb x y && Equal a b
  | _, _ => false
  end.

End Bytes.

(** ** package types: receipts *)
Module Types.
Import Common.

Definition receipgdaatusFailedRLP : list byte := [].
Definition receipgdaatusSuccessfulRLP : list byte := [x01].

(** [ReceipgdaatusFailed] and [ReceipgdaatusSuccessful], of type [uint]. *)
Definition ReceipgdaatusFailed : N := 0.
Definition ReceipgdaatusSuccessful : N := 1.

(** A Go [error] value. *)
Inductive error : Type :=
| InvalidReceiptStatus (posgdaateOrStatus : list byte)
| RlpError (msg : string).

Section Receipt.
(** [Bloom], [Log] and [common.Address] are declared in files that are
    not among the sources; [Receipt] only stores and copies them. *)
Variables Bloom Log Address : Type.

(** [Receipt]: the consensus fields, then the implementation fields. *)
Record Receipt : Type := mkReceipt {
  Posgdaate : list byte;
  Status : N;
  CumulativeGasUsed : N;
  Bloom_ : Bloom;
  Logs : list Log;
  TxHash : Hash;
  ContractAddress : Address;
  GasUsed : N
}.

(** [receiptRLP], the consensus encoding of a receipt. *)
Record receiptRLP : Type := mkReceiptRLP {
  PosgdaateOrStatus : list byte;
  rlpCumulativeGasUsed : N;
  rlpBloom : Bloom;
  rlpLogs : list Log
}.

(** [NewReceipt]: [zero] is the zero value of [Receipt]. *)
Definition NewReceipt (zero : Receipt) (root : list byte) (failed : bool)
    (cumulativeGasUsed : N) : Receipt :=
  mkReceipt root
    (if failed then ReceipgdaatusFailed else ReceipgdaatusSuccessful)
    cumulativeGasUsed (Bloom_ zero) (Logs zero) (TxHash zero)
    (ContractAddress zero) (GasUsed zero).

(** [statusEncoding] *)
Definition statusEncoding (r : Receipt) : list byte :=
  if Nat.eqb (length (Posgdaate r)) 0 then
    if N.eqb (Status r) ReceipgdaatusFailed
    then receipgdaatusFailedRLP
    else receipgdaatusSuccessfulRLP
  else Posgdaate r.

(** [segdaatus]: the first case of the [switch] that holds assigns one
    field of the receiver; the default case is the error. *)
Definition segdaatus (r : Receipt) (posgdaateOrStatus : list byte)
  : result error Receipt :=
  if Bytes.Equal posgdaateOrStatus receipgdaatusSuccessfulRLP then
    Ok (mkReceipt (Posgdaate r) ReceipgdaatusSuccessful
          (CumulativeGasUsed r) (Bloom_ r) (Logs r) (TxHash r)
          (ContractAddress r) (GasUsed r))
  else if Bytes.Equal posgdaateOrStatus receipgdaatusFailedRLP then
    Ok (mkReceipt (Posgdaate r) ReceipgdaatusFailed
          (CumulativeGasUsed r) (Bloom_ r) (Logs r) (TxHash r)
          (ContractAddress r) (GasUsed r))
  else if Nat.eqb (length posgdaateOrStatus) HashLength then
    Ok (mkReceipt posgdaateOrStatus (Status r)
          (CumulativeGasUsed r) (Bloom_ r) (Logs r) (TxHash r)
          (ContractAddress r) (GasUsed r))
  else Err (InvalidReceiptStatus posgdaateOrStatus).

(** The struct [EncodeRLP] hands to [rlp.Encode]. *)
Definition consensus (r : Receipt) : receiptRLP :=
  mkReceiptRLP (statusEncoding r) (CumulativeGasUsed r) (Bloom_ r)
    (Logs r).

(** Package rlp is not among the sources: [rlp_Encode] is [rlp.Encode]
    of a [receiptRLP] into a writer, giving the bytes written, and
    [rlp_Decode] is [Stream.Decode] into a [receiptRLP] from a stream
    over the given bytes. *)
Variable rlp_Encode : receiptRLP -> result error (list byte).
Variable rlp_Decode : list byte -> result error receiptRLP.

(** [(r *Receipt) EncodeRLP] *)
Definition EncodeRLP (r : Receipt) : result error (list byte) :=
  rlp_Encode (consensus r).

(** [(r *Receipt) DecodeRLP]: [r] is the receiver before the call, the
    result the receiver after it. *)
Definition DecodeRLP (r : Receipt) (s : list byte)
  : result error Receipt :=
  match rlp_Decode s with
  | Err e => Err e
  | Ok dec =>
      match segdaatus r (PosgdaateOrStatus dec) with
      | Err e => Err e
      | Ok r =>
          Ok (mkReceipt (Posgdaate r) (Status r)
                (rlpCumulativeGasUsed dec) (rlpBloom dec) (rlpLogs dec)
                (TxHash r) (ContractAddress r) (GasUsed r))
      end
  end.
End Receipt.

Arguments mkReceipt {Bloom Log Address}.
Arguments Posgdaate {Bloom Log Address}.
Arguments Status {Bloom Log Address}.
Arguments CumulativeGasUsed {Bloom Log Address}.
Arguments Bloom_ {Bloom Log Address}.
Arguments Logs {Bloom Log Address}.
Arguments TxHash {Bloom Log Address}.
Arguments ContractAddress {Bloom Log Address}.
Arguments GasUsed {Bloom Log Address}.
Arguments mkReceiptRLP {Bloom Log}.
Arguments PosgdaateOrStatus {Bloom Log}.
Arguments rlpCumulativeGasUsed {Bloom Log}.
Arguments rlpBloom {Bloom Log}.
Arguments rlpLogs {Bloom Log}.
Arguments statusEncoding {Bloom Log Address}.
Arguments segdaatus {Bloom Log Address}.
Arguments consensus {Bloom Log Address}.
Arguments EncodeRLP {Bloom Log Address}.
Arguments DecodeRLP {Bloom Log Address}.

End Types.

(** ** package gda: the constructor of the full node *)
Module Gda.

(** The errors [New] returns: its own, and those its collaborators
    return. *)
Inductive error : Type :=
| ErrLightSync
    (* "can't run gda.gdachain in light sync mode, use les.Lightgdachain" *)
| ErrInvalidSyncMode (mode : Z)       (* "invalid sync mode %d" *)
| ErrVersionMismatch (bcVersion want : Z)
| ErrFrom (collaborator : string).

(** The result of [core.SetupGenesisBlock] besides the configuration. *)
Inductive genesisError : Type :=
| NoGenesisError
| ConfigCompatError (RewindTo : N)
| OtherGenesisError.

(** What [New] does to the world outside the service it builds, in the
    order of the calls. *)
Inductive effect : Type :=
| OpenDatabase (name : string)
| UpgradeDeduplicateData
| SetupGenesisBlock
| CreateConsensusEngine
| NewBloomIndexer
| WriteBlockChainVersion (v : Z)
| NewBlockChain
| SetHead (number : N)
| WriteChainConfig
| StartBloomIndexer
| NewTxPool
| NewProtocolManager
| NewMiner
| NewOracle.

(** The fields of [Config] that [New] branches on. *)
Record Config : Type := mkConfig {
  SyncMode : Z;
  SkipBcVersionCheck : bool;
  NetworkId : N
}.

(** What the collaborators answer. *)
Record World : Type := mkWorld {
  openDatabase : option error;       (* the error of [ctx.OpenDatabase] *)
  genesisErr : genesisError;
  blockChainVersion : Z;             (* [core.GetBlockChainVersion] *)
  newBlockChain : option error;
  newProtocolManager : option error
}.

(** The service, with the fields set from the configuration. *)
Record gdachain : Type := mkGdachain {
  config : Config;
  networkId : N
}.

Section New.
(** [downloader.LightSync] and [SyncMode.IsValid], of a file that is
    not among the sources, and [core.BlockChainVersion]. *)
Variable LightSync : Z.
Variable IsValid : Z -> bool.
Variable BlockChainVersion : Z.

(** [CreateDB] *)
Definition CreateDB (w : World) (name : string) (done : list effect)
  : option error * list effect :=
  (openDatabase w, (done ++ [OpenDatabase name])%list).

(** [New]: the pair returned is the service pointer, [None] for nil,
    and the error, [None] for nil; [done] are the effects so far. *)
Definition New (w : World) (config : Config) (done : list effect)
  : (option gdachain * option error) * list effect :=
  if Z.eqb (SyncMode config) LightSync then
    ((None, Some ErrLightSync), done)
  else if negb (IsValid (SyncMode config)) then
    ((None, Some (ErrInvalidSyncMode (SyncMode config))), done)
  else
    let '(err, done) := CreateDB w "chaindata" done in
    match err with
    | Some e => ((None, Some e), done)
    | None =>
        let done := (done ++ [UpgradeDeduplicateData; SetupGenesisBlock])%list in
        match genesisErr w with
        | OtherGenesisError => ((None, Some (ErrFrom "genesis")), done)
        | genesis =>
            let done := (done ++ [CreateConsensusEngine; NewBloomIndexer])%list in
            let gda := mkGdachain config (NetworkId config) in
            let check :=
              if negb (SkipBcVersionCheck config) then
                if negb (Z.eqb (blockChainVersion w) BlockChainVersion)
                   && negb (Z.eqb (blockChainVersion w) 0)
                then inl (ErrVersionMismatch (blockChainVersion w)
                            BlockChainVersion)
                else inr (done ++ [WriteBlockChainVersion BlockChainVersion])%list
              else inr done in
            match check with
            | inl e => ((None, Some e), done)
            | inr done =>
                let done := (done ++ [NewBlockChain])%list in
                match newBlockChain w with
                | Some e => ((None, Some e), done)
                | None =>
                    let done :=
                      match genesis with
                      | ConfigCompatError rewindTo =>
                          (done ++ [SetHead rewindTo; WriteChainConfig])%list
                      | _ => done
                      end in
                    let done :=
                      (done ++ [StartBloomIndexer; NewTxPool;
                                NewProtocolManager])%list in
                    match newProtocolManager w with
                    | Some e => ((None, Some e), done)
                    | None =>
                        ((Some gda, None),
                         (done ++ [NewMiner; NewOracle])%list)
                    end
                end
            end
        end
    end.
End New.

End Gda.

(** ** Message kinds, as the specification names them *)
Module Accounting.
Import P2P Metrics.

Inductive Kind : Type :=
| Headers | Bodies | States | Receipts | Hashes | Blocks | Transactions
| Misc.

Inductive Direction : Type := Inbound | Outbound.

Definition dirName (d : Direction) : string :=
  match d with Inbound => "in" | Outbound => "out" end.

Definition kindName (k : Kind) : string :=
  match k with
  | Headers => "req/headers"
  | Bodies => "req/bodies"
  | States => "req/states"
  | Receipts => "req/receipts"
  | Hashes => "prop/hashes"
  | Blocks => "prop/blocks"
  | Transactions => "prop/txns"
  | Misc => "misc"
  end.

(** The registered names of the packet meter and of the traffic meter of
    a kind and direction, under the prefix of the package. *)
Definition packetsMeter (pkg : string) (k : Kind) (d : Direction) : string :=
  pkg ++ "/" ++ kindName k ++ "/" ++ dirName d ++ "/packets".
Definition trafficMeter (pkg : string) (k : Kind) (d : Direction) : string :=
  pkg ++ "/" ++ kindName k ++ "/" ++ dirName d ++ "/traffic".

(** One packet and the byte size of [msg], marked on the meters of kind
    [k] and direction [d]. *)
Definition recorded (pkg : string) (k : Kind) (d : Direction) (msg : Msg)
    (before after : Sink) : Prop :=
  after = (before ++ [(packetsMeter pkg k d, 1%Z);
                      (trafficMeter pkg k d, Z.of_N (Size msg))])%list.

Section Kinds.
Variable p : GdaMetrics.Protocol.
Import GdaMetrics.

(** The message codes the full protocol has meters for. *)
Definition meteredCodes : list N :=
  [BlockHeadersMsg p; BlockBodiesMsg p; NodeDataMsg p; ReceiptsMsg p;
   NewBlockHashesMsg p; NewBlockMsg p; TxMsg p].

(** The kind of a message code, whatever the protocol version. *)
Inductive kindOfCode : N -> Kind -> Prop :=
| kHeaders : kindOfCode (BlockHeadersMsg p) Headers
| kBodies : kindOfCode (BlockBodiesMsg p) Bodies
| kStates : kindOfCode (NodeDataMsg p) States
| kReceipts : kindOfCode (ReceiptsMsg p) Receipts
| kHashes : kindOfCode (NewBlockHashesMsg p) Hashes
| kBlocks : kindOfCode (NewBlockMsg p) Blocks
| kTransactions : kindOfCode (TxMsg p) Transactions
| kMisc code : code ∉ meteredCodes -> kindOfCode code Misc.

(** The kind a stream of protocol version [v] accounts a code to:
    states and receipts have meters of their own from [gda63] on and
    are misc traffic below it. *)
Definition accountedKind (v : Z) (k : Kind) : Kind :=
  match k with
  | States | Receipts => if Z.leb (gda63 p) v then k else Misc
  | _ => k
  end.
End Kinds.

End Accounting.

(** ** package rlp, for the consensus encoding of a receipt *)
Module RLP.
Import Types.

(** Modelled from the spec: package rlp is outside the specification
    ("wire-level byte encoding of messages" is an external collaborator)
    and not among the sources. This is the recursive length prefix
    encoding as far as a [receiptRLP] needs it: byte strings, unsigned
    integers and lists, with the canonical-form checks of the decoder. *)
#[local] Unset Elimination Schemes.
Inductive item : Type :=
| Str (b : list byte)
| Lst (l : list item).
#[local] Set Elimination Schemes.

(** The big-endian bytes of [n], most significant first, none for 0. *)
Fixpoint be_pos (p : positive) (acc : list byte) (fuel : nat) : list byte :=
  match fuel with
  | O => acc
  | S fuel =>
      let n := Npos p in
      let b := default x00 (Byte.of_N (n mod 256)) in
      match (n / 256)%N with
      | N0 => b :: acc
      | Npos q => be_pos q (b :: acc) fuel
      end
  end.

Definition be_bytes (n : N) : list byte :=
  match n with
  | N0 => []
  | Npos p => be_pos p [] (S (N.to_nat (N.log2 n)))
  end.

Fixpoint be_value (bs : list byte) (acc : N) : N :=
  match bs with
  | [] => acc
  | b :: bs => be_value bs (acc * 256 + Byte.to_N b)
  end.

Definition byte_of (n : N) : byte := default x00 (Byte.of_N n).

Definition header (len : nat) (offset : N) : list byte :=
  if (len <? 56)%nat then [byte_of (offset + N.of_nat len)]
  else
    let bl := be_bytes (N.of_nat len) in
    byte_of (offset + 55 + N.of_nat (length bl)) :: bl.

Fixpoint encode (i : item) : list byte :=
  match i with
  | Str b =>
      match b with
      | [x] => if (Byte.to_N x <? 128)%N then [x]
               else (header 1 128 ++ b)%list
      | _ => (header (length b) 128 ++ b)%list
      end
  | Lst l =>
      let payload := concat (map encode l) in
      (header (length payload) 192 ++ payload)%list
  end.

(** Splits off a payload of [len] bytes. *)
Definition payload (len : nat) (bs : list byte)
  : option (list byte * list byte) :=
  if (len <=? length bs)%nat then Some (take len bs, drop len bs) else None.

(** Reads a length of [lenlen] bytes: no leading zero, and at least 56. *)
Definition long_length (lenlen : nat) (bs : list byte)
  : option (nat * list byte) :=
  match payload lenlen bs with
  | Some (b :: l, rest) =>
      let n := be_value (b :: l) 0 in
      if Byte.eqb b x00 || (n <? 56)%N then None
      else Some (N.to_nat n, rest)
  | _ => None
  end.

Fixpoint decode_seq (dec : list byte -> option (item * list byte))
    (fuel : nat) (bs : list byte) : option (list item) :=
  match bs, fuel with
  | [], _ => Some []
  | _, O => None
  | _, S fuel =>
      match dec bs with
      | Some (i, rest) => cons i <$> decode_seq dec fuel rest
      | None => None
      end
  end.

Fixpoint decode (fuel : nat) (bs : list byte) : option (item * list byte) :=
  match fuel, bs with
  | O, _ | _, [] => None
  | S fuel, b :: rest =>
      let n := Byte.to_N b in
      if (n <? 128)%N then Some (Str [b], rest)
      else if (n <? 184)%N then
        match payload (N.to_nat (n - 128)) rest with
        | Some ([x], rest') =>
            if (Byte.to_N x <? 128)%N then None else Some (Str [x], rest')
        | Some (s, rest') => Some (Str s, rest')
        | None => None
        end
      else if (n <? 192)%N then
        match long_length (N.to_nat (n - 183)) rest with
        | Some (len, rest') =>
            match payload len rest' with
            | Some (s, rest'') => Some (Str s, rest'')
            | None => None
            end
        | None => None
        end
      else
        let body :=
          if (n <? 248)%N then payload (N.to_nat (n - 192)) rest
          else match long_length (N.to_nat (n - 247)) rest with
               | Some (len, rest') => payload len rest'
               | None => None
               end in
        match body with
        | Some (s, rest') =>
            match decode_seq (decode fuel) (length s) s with
            | Some l => Some (Lst l, rest')
            | None => None
            end
        | None => None
        end
  end.

(** The nesting of an item, which is the fuel [decode] needs for it. *)
Fixpoint height (i : item) : nat :=
  match i with
  | Str _ => 1
  | Lst l => S (fold_right (fun x acc => Nat.max (height x) acc) 0%nat l)
  end.

(** Every length in the item fits the eight bytes a header has for it. *)
Fixpoint fits (i : item) : Prop :=
  match i with
  | Str b => (N.of_nat (length b) < 2 ^ 64)%N
  | Lst l =>
      (N.of_nat (length (concat (map encode l))) < 2 ^ 64)%N
      /\ fold_right (fun x acc => fits x /\ acc) True l
  end.

(** [Bloom] is an array of 256 bytes, [common.Address] one of 20. *)
Definition Bloom : Type := list byte.
Definition Address : Type := list byte.

(** The consensus fields of a [Log]. *)
Record Log : Type := mkLog {
  LogAddress : Address;
  Topics : list (list byte);
  Data : list byte
}.

Definition logItem (l : Log) : item :=
  Lst [Str (LogAddress l); Lst (map Str (Topics l)); Str (Data l)].

Definition receiptItem (x : receiptRLP Bloom Log) : item :=
  Lst [Str (PosgdaateOrStatus x); Str (be_bytes (rlpCumulativeGasUsed x));
       Str (rlpBloom x); Lst (map logItem (rlpLogs x))].

Definition fixedStr (len : nat) (i : item) : option (list byte) :=
  match i with
  | Str b => if (length b =? len)%nat then Some b else None
  | Lst _ => None
  end.

(** An integer of at most 8 bytes without a leading zero. *)
Definition uint64Of (i : item) : option N :=
  match i with
  | Str [] => Some 0%N
  | Str (b :: l) =>
      if Byte.eqb b x00 || (8 <? length (b :: l))%nat then None
      else Some (be_value (b :: l) 0)
  | Lst _ => None
  end.

Definition logOf (i : item) : option Log :=
  match i with
  | Lst [a; Lst ts; Str d] =>
      match fixedStr 20 a, mapM (fixedStr 32) ts with
      | Some a, Some ts => Some (mkLog a ts d)
      | _, _ => None
      end
  | _ => None
  end.

Definition receiptOf (i : item) : option (receiptRLP Bloom Log) :=
  match i with
  | Lst [Str s; g; b; Lst ls] =>
      match uint64Of g, fixedStr 256 b, mapM logOf ls with
      | Some g, Some b, Some ls => Some (mkReceiptRLP s g b ls)
      | _, _, _ => None
      end
  | _ => None
  end.

(** The arrays of a log and of a receipt have their lengths, the gas is a
    [uint64], and the encoding stays below 2^64 bytes. *)
Definition wfLog (l : Log) : Prop :=
  length (LogAddress l) = 20%nat
  /\ Forall (fun t => length t = 32%nat) (Topics l).

Definition wfReceipt (x : receiptRLP Bloom Log) : Prop :=
  length (rlpBloom x) = 256%nat
  /\ (rlpCumulativeGasUsed x < 2 ^ 64)%N
  /\ Forall wfLog (rlpLogs x)
  /\ fits (receiptItem x).

(** [rlp.Encode] of a [receiptRLP]. *)
Definition Encode (x : receiptRLP Bloom Log) : result error (list byte) :=
  Ok (encode (receiptItem x)).

(** [Stream.Decode] into a [receiptRLP], from a stream over [bs]. *)
Definition Decode (bs : list byte) : result error (receiptRLP Bloom Log) :=
  match decode (S (length bs)) bs with
  | Some (i, []) =>
      match receiptOf i with
      | Some x => Ok x
      | None => Err (RlpError "rlp: input does not fit a receipt")
      end
  | Some (_, _ :: _) => Err (RlpError "rlp: input contains more than one value")
  | None => Err (RlpError "rlp: malformed input")
  end.

End RLP.

(** ** The retrieval core of the specification *)

(** Bytes as keys of finite maps. *)
#[export] Instance byte_eq_dec : EqDecision byte := Byte.byte_eq_dec.
#[export] Instance byte_countable : Countable byte :=
  inj_countable Byte.to_N Byte.of_N Byte.of_to_N.

Module Retrieve.

(** Modelled from the spec: the Peer Set, the Request Distributor, the
    Retrieve Manager and the ODR facade (les/peer.go, les/distributor.go,
    les/retrieve.go and les/odr.go) are not among the sources. The
    definitions of this module follow sections 3, 4.1, 4.3 to 4.5 and 7 of
    the specification. *)
Definition PeerId : Type := N.
Definition Caller : Type := N.
Definition Root : Type := list byte.
Definition Reply : Type := list byte.
Definition Value : Type := list byte.

(** Modelled from the spec: a Peer (section 3): identity, protocol version,
    announced head difficulty, serving capability flag, outstanding-request
    count, and the quality measure selection maximizes. *)
Record Peer : Type := mkPeer {
  peerId : PeerId;
  peerVersion : N;
  headTd : N;
  serving : bool;
  outstanding : nat;
  quality : N
}.

(** Modelled from the spec: a Request (section 3): correlation id, type
    tag, opaque payload and validation context. *)
Record Request : Type := mkRequest {
  reqID : N;
  tag : string;
  payload : list byte;
  root : Root
}.

(** Modelled from the spec: identical asks have the same type, payload and
    root (section 4.4, Deduplication). *)
Definition Key : Type := string * list byte * Root.
Definition key (req : Request) : Key := (tag req, payload req, root req).

(** Modelled from the spec: the error taxonomy of section 7. *)
Inductive Error : Type :=
| NoEligiblePeer
| AttemptTimeout
| InvalidProof
| Cancelled
| RetriesExhausted.

(** Modelled from the spec: the states of section 4.4. [Validating] holds
    the reply, [None] being an explicit "don't have it"; [FailedRetryable]
    holds the peer that failed and why. *)
Inductive State : Type :=
| Pending
| Sent (p : PeerId)
| WaitingReply (p : PeerId)
| Validating (p : PeerId) (reply : option Reply)
| Done (v : Value)
| FailedRetryable (p : PeerId) (why : Error)
| FailedTerminal (e : Error).

(** Modelled from the spec: a Retrieval (section 3): the Request, the peers
    already tried, the current state, the remaining retry budget and the
    waiting callers. *)
Record Retrieval : Type := mkRetrieval {
  request : Request;
  excluded : gset PeerId;
  state : State;
  budget : nat;
  waiting : list Caller
}.

(** Modelled from the spec: what a Retrieval does to its surroundings: a
    dispatch to a peer, the arming of the attempt timer, the outcome
    reports to the Server Pool, and the release of an outcome to a
    caller. *)
Inductive Action : Type :=
| Dispatch (p : PeerId) (req : Request)
| ArmTimer (p : PeerId)
| ReportSuccess (p : PeerId)
| ReportFailure (p : PeerId)
| Deliver (c : Caller) (k : Key) (o : result Error Value).

(** Modelled from the spec: what happens to a Retrieval: the Distributor
    looks at the Peer Set, the timer is armed, a reply or the timeout
    arrives, the reply is verified, a failed attempt is followed up, the
    caller cancels. *)
Inductive Event : Type :=
| EvSelect (peers : list Peer)
| EvArm
| EvReply (from : PeerId) (reply : option Reply)
| EvTimeout
| EvVerify
| EvRetry (peers : list Peer)
| EvCancel.

Definition terminal (s : State) : bool :=
  match s with
  | Done _ | FailedTerminal _ => true
  | _ => false
  end.

(** The outcome a terminal state releases. *)
Definition outcomeOf (s : State) : option (result Error Value) :=
  match s with
  | Done v => Some (Ok v)
  | FailedTerminal e => Some (Err e)
  | _ => None
  end.

Definition setState (r : Retrieval) (s : State) : Retrieval :=
  mkRetrieval (request r) (excluded r) s (budget r) (waiting r).

Definition deliverAll (r : Retrieval) (o : result Error Value)
  : list Action :=
  map (fun c => Deliver c (key (request r)) o) (waiting r).

Section Core.
(** Modelled from the spec: the capability predicate of a request, the
    per-peer cap on outstanding requests, the retry budget, and the
    verification collaborator [Verify(proof, expectedRoot)], a black box
    (sections 1, 4.1 and 4.3). *)
Variable capable : Request -> Peer -> bool.
Variable maxOutstanding : nat.
Variable retryBudget : nat.
Variable Verify : Reply -> Root -> option Value.

(** A value that passes verification against a root: some reply verifies
    to it. *)
Definition verified (rt : Root) (v : Value) : Prop :=
  exists data : Reply, Verify data rt = Some v.

(** An outcome that may be released: an error, or a verified value. *)
Definition releasable (rt : Root) (o : result Error Value) : Prop :=
  match o with
  | Ok v => verified rt v
  | Err _ => True
  end.

(** Modelled from the spec: [canSend] (section 4.3): the peer advertises
    the capability, has headroom, and is not excluded for this
    Retrieval. *)
Definition canSend (r : Retrieval) (p : Peer) : bool :=
  capable (request r) p
  && (outstanding p <? maxOutstanding)%nat
  && bool_decide (peerId p ∉ excluded r).

Definition better (a b : Peer) : Peer :=
  if (quality a <? quality b)%N then b else a.

(** Modelled from the spec: [select] (section 4.1): the peer maximizing the
    quality measure among those the predicate accepts, or none. *)
Definition select (r : Retrieval) (peers : list Peer) : option Peer :=
  match List.filter (canSend r) peers with
  | [] => None
  | p :: ps => Some (fold_left better ps p)
  end.

(** Modelled from the spec: a non-excluded capable peer could still exist
    (section 4.4, Failed-retryable). *)
Definition couldRetry (r : Retrieval) (peers : list Peer) : bool :=
  existsb (fun p => capable (request r) p
                    && bool_decide (peerId p ∉ excluded r)) peers.

(** A failed attempt: the Server Pool hears of it and the peer joins the
    exclusion set. *)
Definition failAttempt (r : Retrieval) (p : PeerId) (why : Error)
  : Retrieval * list Action :=
  (mkRetrieval (request r) ({[p]} ∪ excluded r) (FailedRetryable p why)
     (budget r) (waiting r),
   [ReportFailure p]).

(** A terminal error goes to every waiting caller. *)
Definition failTerminal (r : Retrieval) (e : Error)
  : Retrieval * list Action :=
  (setState r (FailedTerminal e), deliverAll r (Err e)).

(** Modelled from the spec: the transitions of section 4.4. An event that
    does not apply in the current state changes nothing. *)
Definition step (r : Retrieval) (ev : Event) : Retrieval * list Action :=
  match state r, ev with
  | (Done _ | FailedTerminal _), _ => (r, [])
  | _, EvCancel => failTerminal r Cancelled
  | Pending, EvSelect peers =>
      match select r peers with
      | Some p => (setState r (Sent (peerId p)),
                   [Dispatch (peerId p) (request r)])
      | None => (r, [])
      end
  | Sent p, EvArm => (setState r (WaitingReply p), [ArmTimer p])
  | WaitingReply p, EvReply from reply =>
      if N.eqb from p then (setState r (Validating p reply), [])
      else (r, [])
  | WaitingReply p, EvTimeout => failAttempt r p AttemptTimeout
  | Validating p reply, EvVerify =>
      match reply with
      | Some data =>
          match Verify data (root (request r)) with
          | Some v =>
              (setState r (Done v),
               ReportSuccess p :: deliverAll r (Ok v))
          | None => failAttempt r p InvalidProof
          end
      | None => failAttempt r p InvalidProof
      end
  | FailedRetryable _ _, EvRetry peers =>
      match budget r with
      | S b =>
          if couldRetry r peers
          then (mkRetrieval (request r) (excluded r) Pending b (waiting r), [])
          else failTerminal r RetriesExhausted
      | O => failTerminal r RetriesExhausted
      end
  | _, _ => (r, [])
  end.

(** A run of one Retrieval: the final record and everything it did. *)
Fixpoint run (r : Retrieval) (evs : list Event) : Retrieval * list Action :=
  match evs with
  | [] => (r, [])
  | ev :: evs =>
      let '(r1, a1) := step r ev in
      let '(r2, a2) := run r1 evs in
      (r2, (a1 ++ a2)%list)
  end.

(** Modelled from the spec: the facade (sections 3, 4.4 and 4.5): the live
    Retrievals by key, the result cache, the keys Retrievals were created
    for, and everything done so far. *)
Record Manager : Type := mkManager {
  live : gmap Key Retrieval;
  cache : gmap Key Value;
  created : list Key;
  done : list Action
}.

Definition empty : Manager := mkManager ∅ ∅ [] [].

(** What reaches the facade. *)
Inductive Call : Type :=
| Ask (peers : list Peer) (req : Request) (c : Caller)
| Drive (k : Key) (ev : Event)
| Evict (k : Key).

(** Modelled from the spec: the start of a Retrieval for the first ask of
    a key. Without a connected peer that satisfies the capability predicate
    it is terminal at once, with [NoEligiblePeer] for the caller
    (sections 7 and 8); else it is [Pending], waiting for the
    Distributor. *)
Definition start (peers : list Peer) (req : Request) (c : Caller)
  : Retrieval * list Action :=
  if existsb (capable req) peers
  then (mkRetrieval req ∅ Pending retryBudget [c], [])
  else failTerminal (mkRetrieval req ∅ Pending retryBudget [c])
         NoEligiblePeer.

(** Modelled from the spec: an ask. A cached result is returned at once;
    an ask for the key of a live Retrieval attaches to it; else a
    Retrieval is created, and stays live unless it is terminal at once. *)
Definition ask (m : Manager) (peers : list Peer) (req : Request)
    (c : Caller) : Manager :=
  let k := key req in
  match cache m !! k with
  | Some v =>
      mkManager (live m) (cache m) (created m)
        (done m ++ [Deliver c k (Ok v)])%list
  | None =>
      match live m !! k with
      | Some r =>
          mkManager
            (<[k := mkRetrieval (request r) (excluded r) (state r)
                      (budget r) (waiting r ++ [c])%list]> (live m))
            (cache m) (created m) (done m)
      | None =>
          let '(r, acts) := start peers req c in
          mkManager
            (if terminal (state r) then live m else <[k := r]> (live m))
            (cache m) (created m ++ [k])%list (done m ++ acts)%list
      end
  end.

(** An event for the live Retrieval of a key: a Retrieval that reaches a
    terminal state is destroyed, and a verified result is cached. *)
Definition drive (m : Manager) (k : Key) (ev : Event) : Manager :=
  match live m !! k with
  | None => m
  | Some r =>
      let '(r', acts) := step r ev in
      let out := (done m ++ acts)%list in
      match state r' with
      | Done v =>
          mkManager (delete k (live m)) (<[k := v]> (cache m)) (created m) out
      | FailedTerminal _ =>
          mkManager (delete k (live m)) (cache m) (created m) out
      | _ => mkManager (<[k := r']> (live m)) (cache m) (created m) out
      end
  end.

Definition call (m : Manager) (c : Call) : Manager :=
  match c with
  | Ask peers req caller => ask m peers req caller
  | Drive k ev => drive m k ev
  | Evict k => mkManager (live m) (delete k (cache m)) (created m) (done m)
  end.

Definition calls (m : Manager) (cs : list Call) : Manager :=
  fold_left call cs m.

(** The Retrieval of [k] is live before the calls [cs], between any two
    of them, and after them. *)
Fixpoint liveThroughout (k : Key) (m : Manager) (cs : list Call) : bool :=
  match live m !! k with
  | None => false
  | Some _ =>
      match cs with
      | [] => true
      | c :: cs => liveThroughout k (call m c) cs
      end
  end.

(** The facade is in order: a live Retrieval sits under the key of its
    request, is not terminal and has no cached result beside it; cached
    and released values are verified against the root of their key. *)
Record wellFormed (m : Manager) : Prop := mkWellFormed {
  wf_key : forall k r, live m !! k = Some r -> key (request r) = k;
  wf_live : forall k r, live m !! k = Some r -> terminal (state r) = false;
  wf_fresh : forall k r, live m !! k = Some r -> cache m !! k = None;
  wf_cache : forall k v, cache m !! k = Some v -> verified (snd k) v;
  wf_done : forall c k o,
      In (Deliver c k o) (done m) -> releasable (snd k) o
}.

End Core.

(** The callers that ask for [k] in a sequence of calls. *)
Fixpoint askers (k : Key) (cs : list Call) : list Caller :=
  match cs with
  | [] => []
  | Ask _ req caller :: cs =>
      if decide (key req = k) then caller :: askers k cs else askers k cs
  | _ :: cs => askers k cs
  end.

(** How often a Retrieval was created for [k]. *)
Definition creations (k : Key) (ks : list Key) : nat :=
  length (List.filter (fun k' => bool_decide (k' = k)) ks).

(** The outcomes released for [k], with the caller of each. *)
Fixpoint deliveries (k : Key) (acts : list Action)
  : list (Caller * result Error Value) :=
  match acts with
  | [] => []
  | Deliver c k' o :: acts =>
      if decide (k' = k) then (c, o) :: deliveries k acts
      else deliveries k acts
  | _ :: acts => deliveries k acts
  end.

Definition isDispatch (a : Action) : bool :=
  match a with Dispatch _ _ => true | _ => false end.
Definition isArmTimer (a : Action) : bool :=
  match a with ArmTimer _ => true | _ => false end.

End Retrieve.

(** ** Values the properties are tried on *)
Module Fixtures.
Import P2P.

(** A message stream in memory: the messages still to be read and the
    messages written so far. Reading from an empty stream fails; writing
    a message larger than [limit] fails. *)
Record pipe : Type := mkPipe {
  inbox : list Msg;
  outbox : list Msg;
  limit : N
}.

#[export] Instance pipe_MsgReadWriter : MsgReadWriter pipe := {|
  ReadMsg s :=
    match inbox s with
    | [] => ((mkMsg 0 0 [], Some "EOF"), s)
    | m :: rest => ((m, None), mkPipe rest (outbox s) (limit s))
    end;
  WriteMsg m s :=
    if (limit s <? Size m)%N then (Some "message too large", s)
    else (None, mkPipe (inbox s) (outbox s ++ [m])%list (limit s))
|}.

(** The constants of the protocol as the upstream project has them:
    versions 62 and 63, and the message codes of version 63. *)
Definition gda62 : Z := 62.
Definition protocol : GdaMetrics.Protocol := {|
  GdaMetrics.gda63 := 63;
  GdaMetrics.NewBlockHashesMsg := 1;
  GdaMetrics.TxMsg := 2;
  GdaMetrics.BlockHeadersMsg := 4;
  GdaMetrics.BlockBodiesMsg := 6;
  GdaMetrics.NewBlockMsg := 7;
  GdaMetrics.NodeDataMsg := 14;
  GdaMetrics.ReceiptsMsg := 16
|}.

(** A genesis hash: the bytes 0, 1, ..., 31. *)
Definition genesis : Common.Hash :=
  Common.mkHash
    [x00; x01; x02; x03; x04; x05; x06; x07; x08; x09; x0a; x0b; x0c;
     x0d; x0e; x0f; x10; x11; x12; x13; x14; x15; x16; x17; x18; x19;
     x1a; x1b; x1c; x1d; x1e; x1f] eq_refl.

(** Receipts: one with a post-state root, as before the Byzantium fork,
    and one with a status only. *)
Definition bloom0 : RLP.Bloom := replicate 256 x00.
Definition address0 : RLP.Address := replicate 20 x00.
Definition zeroHash : Common.Hash :=
  Common.mkHash (replicate 32 x00) eq_refl.

Definition transferLog : RLP.Log :=
  RLP.mkLog (replicate 20 xaa) [Common.hash_bytes genesis] [x01; x02; x03].

(** The zero value [Receipt{}]. *)
Definition zeroReceipt : Types.Receipt RLP.Bloom RLP.Log RLP.Address :=
  Types.mkReceipt [] 0 0 bloom0 [] zeroHash address0 0.

Definition rootReceipt : Types.Receipt RLP.Bloom RLP.Log RLP.Address :=
  Types.mkReceipt (Common.hash_bytes genesis) Types.ReceipgdaatusSuccessful
    21000 bloom0 [transferLog] zeroHash address0 21000.

Definition statusReceipt : Types.Receipt RLP.Bloom RLP.Log RLP.Address :=
  Types.mkReceipt [] Types.ReceipgdaatusSuccessful 90000 bloom0
    [transferLog; transferLog] genesis address0 69000.

(** The sync modes as the upstream downloader declares them: full, fast
    and light sync are 0, 1 and 2, and exactly those are valid. *)
Definition LightSync : Z := 2.
Definition IsValid (mode : Z) : bool := (0 <=? mode)%Z && (mode <=? 2)%Z.

Definition healthy : Gda.World :=
  Gda.mkWorld None Gda.NoGenesisError 3 None None.

(** Peers and requests for the retrieval core: a capable peer needs the
    serving flag and protocol version 2 for a "CHT-proof" request,
    version 1 otherwise; verification accepts the reply that repeats the
    root and yields the payload [x2a]. *)
Definition capable (req : Retrieve.Request) (p : Retrieve.Peer) : bool :=
  Retrieve.serving p
  && ((if String.eqb (Retrieve.tag req) "CHT-proof" then 2 else 1)
      <=? Retrieve.peerVersion p)%N.

Definition Verify (data : Retrieve.Reply) (rt : Retrieve.Root)
  : option Retrieve.Value :=
  if Bytes.Equal data rt then Some [x2a] else None.

Definition alice : Retrieve.Peer := Retrieve.mkPeer 1%N 2 100 true 0 50.
Definition bob : Retrieve.Peer := Retrieve.mkPeer 2%N 2 100 true 0 70.
Definition carol : Retrieve.Peer := Retrieve.mkPeer 3%N 1 100 false 0 90.

Definition codeRequest (id : N) : Retrieve.Request :=
  Retrieve.mkRequest id "code" [x01; x02] [xaa; xbb].

End Fixtures.

(** ** Go slices filled by a range loop *)
Module Slices.

Section Range.
Context {A B : Type}.

(** [make([]B, n)]: [n] zero values. *)
Definition make (zero : B) (n : nat) : list B := replicate n zero.

(** [for i, x := range src { dst[i] = f(x) }], from index [i] on: an
    assignment beyond the length of [dst] panics. *)
Fixpoint rangeAssign (f : A -> B) (i : nat) (src : list A) (dst : list B)
  : outcome (list B) :=
  match src with
  | [] => Returns dst
  | x :: src =>
      if (i <? length dst)%nat
      then rangeAssign f (S i) src (<[i := f x]> dst)
      else Panics
  end.

(** [for i, x := range src { dst[i] = f(x) }] where evaluating [f(x)]
    may panic, as reading a field through a nil pointer does. *)
Fixpoint rangeAssignOrPanic (f : A -> outcome B) (i : nat) (src : list A)
    (dst : list B) : outcome (list B) :=
  match src with
  | [] => Returns dst
  | x :: src =>
      match f x with
      | Panics => Panics
      | Returns y =>
          if (i <? length dst)%nat
          then rangeAssignOrPanic f (S i) src (<[i := y]> dst)
          else Panics
      end
  end.
End Range.

End Slices.

(** ** package types: receipts for storage, and receipt lists *)
Module Storage.
Import Common Types Slices.

Section ForStorage.
(** [Bloom] and [common.Address] as in [Types]; a [*Log] and a
    [*LogForStorage] point to the same struct [L], [None] being nil. *)
Variables Bloom L Address : Type.

(** [receipgdaorageRLP], the storage encoding of a receipt; the source
    lists the field [ContractAddress] twice, and the literal in
    [EncodeRLP] sets it once. *)
Record receipgdaorageRLP : Type := mkStorageRLP {
  sPosgdaateOrStatus : list byte;
  sCumulativeGasUsed : N;
  sBloom : Bloom;
  sTxHash : Hash;
  sContractAddress : Address;
  sLogs : list (option L);
  sGasUsed : N
}.

(** [rlp.Encode] and [Stream.Decode] for a [receipgdaorageRLP]; package
    rlp is not among the sources. *)
Variable rlp_Encode : receipgdaorageRLP -> result error (list byte).
Variable rlp_Decode : list byte -> result error receipgdaorageRLP.

(** [(r *ReceiptForStorage) EncodeRLP]: the conversion of a [*Log] to a
    [*LogForStorage] keeps the pointer. *)
Definition EncodeRLP (r : Receipt Bloom (option L) Address)
  : outcome (result error (list byte)) :=
  match rangeAssign (fun log => log) 0 (Logs r)
          (make None (length (Logs r))) with
  | Panics => Panics
  | Returns logs =>
      Returns (rlp_Encode
                 (mkStorageRLP (statusEncoding r) (CumulativeGasUsed r)
                    (Bloom_ r) (TxHash r) (ContractAddress r) logs
                    (GasUsed r)))
  end.

(** [(r *ReceiptForStorage) DecodeRLP]: [r] is the receiver before the
    call. *)
Definition DecodeRLP (r : Receipt Bloom (option L) Address) (s : list byte)
  : outcome (result error (Receipt Bloom (option L) Address)) :=
  match rlp_Decode s with
  | Err e => Returns (Err e)
  | Ok dec =>
      match segdaatus r (sPosgdaateOrStatus dec) with
      | Err e => Returns (Err e)
      | Ok r =>
          match rangeAssign (fun log => log) 0 (sLogs dec)
                  (make None (length (sLogs dec))) with
          | Panics => Panics
          | Returns logs =>
              Returns (Ok (mkReceipt (Posgdaate r) (Status r)
                             (sCumulativeGasUsed dec) (sBloom dec) logs
                             (sTxHash dec) (sContractAddress dec)
                             (sGasUsed dec)))
          end
      end
  end.

(** The struct [EncodeRLP] hands to [rlp.Encode]. *)
Definition stored (r : Receipt Bloom (option L) Address)
  : receipgdaorageRLP :=
  mkStorageRLP (statusEncoding r) (CumulativeGasUsed r) (Bloom_ r)
    (TxHash r) (ContractAddress r) (Logs r) (GasUsed r).
End ForStorage.

Arguments mkStorageRLP {Bloom L Address}.
Arguments sPosgdaateOrStatus {Bloom L Address}.
Arguments sCumulativeGasUsed {Bloom L Address}.
Arguments sBloom {Bloom L Address}.
Arguments sTxHash {Bloom L Address}.
Arguments sContractAddress {Bloom L Address}.
Arguments sLogs {Bloom L Address}.
Arguments sGasUsed {Bloom L Address}.
Arguments EncodeRLP {Bloom L Address}.
Arguments DecodeRLP {Bloom L Address}.
Arguments stored {Bloom L Address}.

Section Receipts.
Variables Bloom Log Address : Type.
Variable rlp_Encode : receiptRLP Bloom Log -> result error (list byte).

(** [type Receipts []*Receipt] *)
Definition Receipts : Type := list (Receipt Bloom Log Address).

(** [Len] *)
Definition Len (r : Receipts) : Z := Z.of_nat (length r).

(** [GetRlp]: [r[i]] panics outside the list, and an encoding error is
    turned into a panic; [rlp.EncodeToBytes] of a receipt gives what its
    [EncodeRLP] writes. *)
Definition GetRlp (r : Receipts) (i : Z) : outcome (list byte) :=
  if (i <? 0)%Z || (Len r <=? i)%Z then Panics
  else
    match r !! Z.to_nat i with
    | None => Panics
    | Some receipt =>
        match Types.EncodeRLP rlp_Encode receipt with
        | Ok bytes => Returns bytes
        | Err _ => Panics
        end
    end.
End Receipts.

Arguments Len {Bloom Log Address}.
Arguments GetRlp {Bloom Log Address}.

End Storage.

(** ** The rlp model, for the storage encoding of a receipt *)
Module RLPStorage.
Import Common Types Storage RLP.

(** Modelled from the spec: the storage struct as an rlp item, in the
    order of its fields; a nil log pointer is the empty list. *)
Definition logPtrItem (l : option Log) : item :=
  match l with
  | Some l => logItem l
  | None => Lst []
  end.

Definition storageItem (x : receipgdaorageRLP Bloom Log Address) : item :=
  Lst [Str (sPosgdaateOrStatus x); Str (be_bytes (sCumulativeGasUsed x));
       Str (sBloom x); Str (hash_bytes (sTxHash x));
       Str (sContractAddress x); Lst (map logPtrItem (sLogs x));
       Str (be_bytes (sGasUsed x))].

Definition hashOf (i : item) : option Hash :=
  match i with
  | Str b =>
      match decide (length b = HashLength) with
      | left H => Some (mkHash b H)
      | right _ => None
      end
  | Lst _ => None
  end.

Definition storageOf (i : item)
  : option (receipgdaorageRLP Bloom Log Address) :=
  match i with
  | Lst [Str s; g; b; h; a; Lst ls; u] =>
      match uint64Of g, fixedStr 256 b, hashOf h, fixedStr 20 a,
            mapM logOf ls, uint64Of u with
      | Some g, Some b, Some h, Some a, Some ls, Some u =>
          Some (mkStorageRLP s g b h a (map Some ls) u)
      | _, _, _, _, _, _ => None
      end
  | _ => None
  end.

Definition Encode (x : receipgdaorageRLP Bloom Log Address)
  : result error (list byte) :=
  Ok (encode (storageItem x)).

Definition Decode (bs : list byte)
  : result error (receipgdaorageRLP Bloom Log Address) :=
  match decode (S (length bs)) bs with
  | Some (i, []) =>
      match storageOf i with
      | Some x => Ok x
      | None => Err (RlpError "rlp: input does not fit a stored receipt")
      end
  | Some (_, _ :: _) => Err (RlpError "rlp: input contains more than one value")
  | None => Err (RlpError "rlp: malformed input")
  end.

End RLPStorage.

(** ** More values the properties are tried on *)
Module Samples.
Import Fixtures.

(** A receipt as it is stored: with its transaction hash, the address of
    the contract it created and the gas it used. *)
Definition storedReceipt
  : Types.Receipt RLP.Bloom (option RLP.Log) RLP.Address :=
  Types.mkReceipt [] Types.ReceipgdaatusFailed 42000 bloom0
    [Some transferLog; Some transferLog] genesis (replicate 20 xbb) 21000.

(** A receiver that still holds the fields of an earlier receipt. *)
Definition usedReceiver
  : Types.Receipt RLP.Bloom (option RLP.Log) RLP.Address :=
  Types.mkReceipt [] Types.ReceipgdaatusSuccessful 7 bloom0 [None] zeroHash
    address0 9.

End Samples.


(** ** package gda: the service after [New] *)
Module GdaService.

(** A Go [error] value of this file. *)
Inductive error : Type :=
| ErrgdaerbaseUnspecified     (* "gdaerbase must be explicitly specified" *)
| ErrgdaerbaseMissing (err : error)          (* "gdaerbase missing: %v" *)
| ErrSignerMissing (err : option string)     (* "signer missing: %v" *)
| ErrInvalidPeerConfig (lightPeers maxPeers : Z).
    (* "invalid peer config: light peer count (%d) >= total peer count (%d)" *)

Section ExtraData.
(** [params.MaximumExtraDataSize], a [uint64], and the bytes of the
    default extra data: the rlp encoding of the version, the client
    name, the Go version and the operating system, none of which is
    among the sources. *)
Variable MaximumExtraDataSize : N.
Variable defaultExtraData : list byte.

(** [makeExtraData]; the nil slice is the empty list. *)
Definition makeExtraData (extra : list byte) : list byte :=
  let extra :=
    if Nat.eqb (length extra) 0 then defaultExtraData else extra in
  if (MaximumExtraDataSize <? N.of_nat (length extra))%N then []
  else extra.
End ExtraData.

Section Service.
(** [common.Address] is a byte array, compared with [!=]; [zero] is
    [common.Address{}]. [Wallet] is [accounts.Wallet]. *)
Context {Address : Type} `{EqDecision Address}.
Variable zero : Address.
Variable Wallet : Type.

(** What the account manager answers: the accounts of each wallet, in
    the order of [Wallets()] and of [Accounts()], and [Find]. *)
Record AccountManager : Type := mkAccountManager {
  Wallets : list (list Address);
  Find : Address -> option Wallet * option string
}.

(** The fields of [gdachain], of its protocol manager and of its miner
    that the functions below read or write. *)
Record gdachain : Type := mkGdachain {
  gdaerbase_ : Address;                    (* [s.gdaerbase] *)
  accountManager : AccountManager;
  isClique : bool;                 (* [s.engine] is a [*clique.Clique] *)
  authorized : list (Address * Wallet);    (* calls of [clique.Authorize] *)
  acceptTxs : N;                           (* [protocolManager.acceptTxs] *)
  minerCoinbase : list Address;            (* calls of [miner.Setgdaerbase] *)
  minerStarted : list Address;             (* calls of [miner.Start] *)
  LightServ : Z;                           (* [config.LightServ], an [int] *)
  LightPeers : Z;                          (* [config.LightPeers], an [int] *)
  hasLesServer : bool                      (* [s.lesServer != nil] *)
}.

Definition setgdaerbase (s : gdachain) (a : Address) : gdachain :=
  mkGdachain a (accountManager s) (isClique s) (authorized s) (acceptTxs s)
    (minerCoinbase s) (minerStarted s) (LightServ s) (LightPeers s)
    (hasLesServer s).

(** [(s *gdachain) gdaerbase()]: the address and the error returned, and
    the service afterwards. *)
Definition gdaerbase (s : gdachain)
  : (Address * option error) * gdachain :=
  if decide (gdaerbase_ s <> zero) then ((gdaerbase_ s, None), s)
  else
    match Wallets (accountManager s) with
    | accounts :: _ =>
        match accounts with
        | a :: _ => ((a, None), setgdaerbase s a)
        | [] => ((zero, Some ErrgdaerbaseUnspecified), s)
        end
    | [] => ((zero, Some ErrgdaerbaseUnspecified), s)
    end.

(** [Setgdaerbase] *)
Definition Setgdaerbase (s : gdachain) (a : Address) : gdachain :=
  let s := setgdaerbase s a in
  mkGdachain (gdaerbase_ s) (accountManager s) (isClique s) (authorized s)
    (acceptTxs s) (minerCoinbase s ++ [a])%list (minerStarted s)
    (LightServ s) (LightPeers s) (hasLesServer s).

(** [StartMining]: the error returned, [None] for nil, and the service
    afterwards; the miner is started in a goroutine of its own, which
    is recorded as the call. *)
Definition StartMining (s : gdachain) (local : bool)
  : option error * gdachain :=
  let '((eb, err), s) := gdaerbase s in
  match err with
  | Some err => (Some (ErrgdaerbaseMissing err), s)
  | None =>
      let signer :=
        if isClique s then
          match Find (accountManager s) eb with
          | (Some wallet, None) =>
              inr (mkGdachain (gdaerbase_ s) (accountManager s) (isClique s)
                     (authorized s ++ [(eb, wallet)])%list (acceptTxs s)
                     (minerCoinbase s) (minerStarted s) (LightServ s)
                     (LightPeers s) (hasLesServer s))
          | (_, err) => inl (ErrSignerMissing err)
          end
        else inr s in
      match signer with
      | inl e => (Some e, s)
      | inr s =>
          let s :=
            if local then
              mkGdachain (gdaerbase_ s) (accountManager s) (isClique s)
                (authorized s) 1 (minerCoinbase s) (minerStarted s)
                (LightServ s) (LightPeers s) (hasLesServer s)
            else s in
          (None,
           mkGdachain (gdaerbase_ s) (accountManager s) (isClique s)
             (authorized s) (acceptTxs s) (minerCoinbase s)
             (minerStarted s ++ [eb])%list (LightServ s) (LightPeers s)
             (hasLesServer s))
      end
  end.

(** What [Start] does besides returning, in the order of the calls. *)
Inductive startEffect : Type :=
| StartBloomHandlers
| NewPublicNetAPI
| StartProtocolManager (maxPeers : Z)
| StartLesServer.

(** Go's [int] is [intSize] bits wide, 32 or 64 by the target the
    service is built for: a difference outside its range wraps
    around. *)
Definition wrapInt (intSize : Z) (z : Z) : Z :=
  ((z + 2 ^ (intSize - 1)) mod 2 ^ intSize - 2 ^ (intSize - 1))%Z.

(** [Start]: [MaxPeers] is [srvr.MaxPeers], an [int]. *)
Definition Start (intSize : Z) (s : gdachain) (MaxPeers : Z)
  : option error * list startEffect :=
  let done := [StartBloomHandlers; NewPublicNetAPI] in
  let maxPeers := MaxPeers in
  let check :=
    if (0 <? LightServ s)%Z then
      if (MaxPeers <=? LightPeers s)%Z
      then inl (ErrInvalidPeerConfig (LightPeers s) MaxPeers)
      else inr (wrapInt intSize (maxPeers - LightPeers s))
    else inr maxPeers in
  match check with
  | inl e => (Some e, done)
  | inr maxPeers =>
      let done := (done ++ [StartProtocolManager maxPeers])%list in
      if hasLesServer s then (None, (done ++ [StartLesServer])%list)
      else (None, done)
  end.
End Service.

Arguments mkAccountManager {Address Wallet}.
Arguments Wallets {Address Wallet}.
Arguments Find {Address Wallet}.
Arguments mkGdachain {Address Wallet}.
Arguments gdaerbase_ {Address Wallet}.
Arguments accountManager {Address Wallet}.
Arguments isClique {Address Wallet}.
Arguments authorized {Address Wallet}.
Arguments acceptTxs {Address Wallet}.
Arguments minerCoinbase {Address Wallet}.
Arguments minerStarted {Address Wallet}.
Arguments LightServ {Address Wallet}.
Arguments LightPeers {Address Wallet}.
Arguments hasLesServer {Address Wallet}.
Arguments setgdaerbase {Address Wallet}.
Arguments Setgdaerbase {Address Wallet}.
Arguments Start {Address Wallet}.

End GdaService.

(** ** Services the properties are tried on *)
Module ServiceSamples.
Import GdaService.

(** An account manager with two wallets; the account 5 is known to the
    keystore, no other is. *)
Definition manager : @AccountManager N string :=
  mkAccountManager [[5; 6]; [7]]%N
    (fun a => if N.eqb a 5 then (Some "keystore", None)
              else (None, Some "unknown account")).

(** A clique service with no gdaerbase set, serving light clients. *)
Definition signer : @gdachain N string :=
  mkGdachain 0%N manager true [] 0 [] [] 1 10 true.

End ServiceSamples.

(** ** package les: the light client service *)
Module LesBackend.
Import Common Les.

(** What [New] does to the world outside the service it builds, in the
    order of the calls: [Shared] are the calls of functions that
    [gda.New] calls as well, under the names they have there; the
    others are the light client's own, among them its chain with its
    [SetHead], its pool and its protocol manager. *)
Inductive effect : Type :=
| Shared (e : Gda.effect)
| NewRequestDistributor
| NewChtIndexer
| NewBloomTrieIndexer
| NewLesTxRelay
| NewServerPool
| NewRetrieveManager
| NewLesOdr
| NewLightChain
| SetHead (number : N)
| NewTxPool
| NewProtocolManager.

(** What the collaborators answer: [ctx] for the database and the
    genesis block, which [New] asks of the same functions as [gda.New],
    and the errors of [light.NewLightChain] and of the protocol manager
    of package les. *)
Record World : Type := mkWorld {
  ctx : Gda.World;
  newLightChain : option Gda.error;
  newProtocolManager : option Gda.error
}.

(** The service, with the fields set from the configuration. *)
Record Lightgdachain : Type := mkLightgdachain {
  config : Gda.Config;
  networkId : N
}.

(** [New]: the pair returned is the service pointer, [None] for nil,
    and the error, [None] for nil; [done] are the effects so far. The
    fields of the composite literal are evaluated in their order. The
    database is made by [gda.CreateDB]. *)
Definition New (w : World) (config : Gda.Config) (done : list effect)
  : (option Lightgdachain * option Gda.error) * list effect :=
  let '(err, opened) := Gda.CreateDB (ctx w) "lightchaindata" [] in
  let done := (done ++ map Shared opened)%list in
  match err with
  | Some e => ((None, Some e), done)
  | None =>
      let done := (done ++ [Shared Gda.SetupGenesisBlock])%list in
      match Gda.genesisErr (ctx w) with
      | Gda.OtherGenesisError => ((None, Some (Gda.ErrFrom "genesis")), done)
      | genesis =>
          let done :=
            (done ++ [NewRequestDistributor;
                      Shared Gda.CreateConsensusEngine;
                      Shared Gda.NewBloomIndexer; NewChtIndexer;
                      NewBloomTrieIndexer])%list in
          let lgda := mkLightgdachain config (Gda.NetworkId config) in
          let done :=
            (done ++ [NewLesTxRelay; NewServerPool; NewRetrieveManager;
                      NewLesOdr; NewLightChain])%list in
          match newLightChain w with
          | Some e => ((None, Some e), done)
          | None =>
              let done := (done ++ [Shared Gda.StartBloomIndexer])%list in
              let done :=
                match genesis with
                | Gda.ConfigCompatError rewindTo =>
                    (done ++ [SetHead rewindTo;
                              Shared Gda.WriteChainConfig])%list
                | _ => done
                end in
              let done := (done ++ [NewTxPool; NewProtocolManager])%list in
              match newProtocolManager w with
              | Some e => ((None, Some e), done)
              | None =>
                  ((Some lgda, None), (done ++ [Shared Gda.NewOracle])%list)
              end
          end
      end
  end.

(** What [Start] does besides returning, in the order of the calls. *)
Inductive startEffect : Type :=
| StartBloomHandlers
| NewPublicNetAPI (networkId : N)
| StartServerPool (topic : Topic)
| StartProtocolManager (maxPeers : Z).

Section Start.
(** The constants [lpv1] and [lpv2] and the variable
    [AdvertiseProtocolVersions] of les/protocol.go, which is not among
    the sources. *)
Variables lpv1 lpv2 : N.
Variable AdvertiseProtocolVersions : list N.

(** [Start]: [genesisHash] is [s.blockchain.Genesis().Hash()] and
    [LightPeers] is [s.config.LightPeers]. Indexing the empty slice
    panics, as [lesTopic] may; the effects are those before the
    panic. *)
Definition Start (s : Lightgdachain) (genesisHash : Hash) (LightPeers : Z)
  : outcome (option Gda.error) * list startEffect :=
  let done := [StartBloomHandlers; NewPublicNetAPI (networkId s)] in
  match AdvertiseProtocolVersions with
  | [] => (Panics, done)
  | protocolVersion :: _ =>
      match lesTopic lpv1 lpv2 genesisHash protocolVersion with
      | Panics => (Panics, done)
      | Returns topic =>
          (Returns None,
           (done ++ [StartServerPool topic;
                     StartProtocolManager LightPeers])%list)
      end
  end.
End Start.

End LesBackend.

(** ** The API backends of the full and of the light service *)
Module ApiBackend.
Import Common Slices.

(** [uint64(blockNr)] of an [rpc.BlockNumber], an [int64]. *)
Definition uint64 (n : Z) : N := Z.to_N (n mod 2 ^ 64).

Section Backends.
(** [rpc.PendingBlockNumber] and [rpc.LatestBlockNumber], and the types
    of headers, blocks, state databases and errors: all declared in
    packages that are not among the sources. A nil pointer, and a nil
    error, is [None]. *)
Variables PendingBlockNumber LatestBlockNumber : Z.
Variables Header Block StateDB error : Type.

(** The method [Header] of a block pointer, which may panic, and the
    field [header.Root] of a header that is not nil. *)
Variable BlockHeader : option Block -> outcome (option Header).
Variable Root : Header -> Hash.

(** What the block chain and the miner of the full service answer. *)
Record FullNode : Type := mkFullNode {
  PendingBlock : option Block;                 (* [miner.PendingBlock()] *)
  Pending : option Block * option StateDB;     (* [miner.Pending()] *)
  CurrentBlock : option Block;
  GetHeaderByNumber : N -> option Header;
  GetBlockByNumber : N -> option Block;
  StateAt : Hash -> option StateDB * option error
}.

(** [(b *gdaApiBackend) HeaderByNumber] *)
Definition HeaderByNumber (b : FullNode) (blockNr : Z)
  : outcome (option Header * option error) :=
  if Z.eqb blockNr PendingBlockNumber then
    match BlockHeader (PendingBlock b) with
    | Panics => Panics
    | Returns header => Returns (header, None)
    end
  else if Z.eqb blockNr LatestBlockNumber then
    match BlockHeader (CurrentBlock b) with
    | Panics => Panics
    | Returns header => Returns (header, None)
    end
  else Returns (GetHeaderByNumber b (uint64 blockNr), None).

(** [(b *gdaApiBackend) BlockByNumber] *)
Definition BlockByNumber (b : FullNode) (blockNr : Z)
  : option Block * option error :=
  if Z.eqb blockNr PendingBlockNumber then (PendingBlock b, None)
  else if Z.eqb blockNr LatestBlockNumber then (CurrentBlock b, None)
  else (GetBlockByNumber b (uint64 blockNr), None).

(** [(b *gdaApiBackend) StateAndHeaderByNumber] *)
Definition StateAndHeaderByNumber (b : FullNode) (blockNr : Z)
  : outcome (option StateDB * option Header * option error) :=
  if Z.eqb blockNr PendingBlockNumber then
    let '(block, state) := Pending b in
    match BlockHeader block with
    | Panics => Panics
    | Returns header => Returns (state, header, None)
    end
  else
    match HeaderByNumber b blockNr with
    | Panics => Panics
    | Returns (header, err) =>
        match header, err with
        | Some header, None =>
            let '(stateDb, err) := StateAt b (Root header) in
            Returns (stateDb, Some header, err)
        | _, _ => Returns (None, None, err)
        end
    end.

(** [header.Hash()] and [light.NewState], of a header that is not
    nil. *)
Variable HeaderHash : Header -> Hash.
Variable NewState : Header -> option StateDB.

(** What the light chain and the light pool answer. *)
Record LightNode : Type := mkLightNode {
  CurrentHeader : option Header;
  GetHeaderByNumberOdr : N -> option Header * option error;
  GetBlockByHash : Hash -> option Block * option error
}.

(** [(b *LesApiBackend) HeaderByNumber] *)
Definition LesHeaderByNumber (b : LightNode) (blockNr : Z)
  : option Header * option error :=
  if Z.eqb blockNr LatestBlockNumber || Z.eqb blockNr PendingBlockNumber
  then (CurrentHeader b, None)
  else GetHeaderByNumberOdr b (uint64 blockNr).

(** [(b *LesApiBackend) GetBlock] *)
Definition LesGetBlock (b : LightNode) (blockHash : Hash)
  : option Block * option error :=
  GetBlockByHash b blockHash.

(** [(b *LesApiBackend) BlockByNumber] *)
Definition LesBlockByNumber (b : LightNode) (blockNr : Z)
  : option Block * option error :=
  let '(header, err) := LesHeaderByNumber b blockNr in
  match header, err with
  | Some header, None => LesGetBlock b (HeaderHash header)
  | _, _ => (None, err)
  end.

(** [(b *LesApiBackend) StateAndHeaderByNumber] *)
Definition LesStateAndHeaderByNumber (b : LightNode) (blockNr : Z)
  : option StateDB * option Header * option error :=
  let '(header, err) := LesHeaderByNumber b blockNr in
  match header, err with
  | Some header, None => (NewState header, Some header, None)
  | _, _ => (None, None, err)
  end.

End Backends.

Section Logs.
(** The receipts in the database: [core.GetBlockNumber] and
    [core.GetBlockReceipts], of a package that is not among the
    sources. [types.Receipts] is a slice of receipt pointers: a nil
    slice is [None], and so is a nil pointer in it. *)
Variables Bloom Log Address : Type.
Variable GetBlockNumber : Hash -> N.
Variable GetBlockReceipts
  : Hash -> N -> option (list (option (Types.Receipt Bloom Log Address))).

(** [(b *gdaApiBackend) GetReceipts]; the error is always nil. *)
Definition GetReceipts (blockHash : Hash)
  : option (list (option (Types.Receipt Bloom Log Address))) :=
  GetBlockReceipts blockHash (GetBlockNumber blockHash).

(** [receipt.Logs]: reading the field through a nil pointer panics. *)
Definition LogsOf (receipt : option (Types.Receipt Bloom Log Address))
  : outcome (list Log) :=
  match receipt with
  | Some receipt => Returns (Types.Logs receipt)
  | None => Panics
  end.

(** [(b *gdaApiBackend) GetLogs]; the error is always nil. *)
Definition GetLogs (blockHash : Hash) : outcome (option (list (list Log))) :=
  match GetBlockReceipts blockHash (GetBlockNumber blockHash) with
  | None => Returns None
  | Some receipts =>
      match rangeAssignOrPanic LogsOf 0 receipts
              (make [] (length receipts)) with
      | Panics => Panics
      | Returns logs => Returns (Some logs)
      end
  end.
End Logs.

Section Pool.
(** [common.Address], the key of the map [txPool.Pending] returns, and
    the transactions. *)
Context {Address : Type} `{Countable Address}.
Variable Transaction : Type.

(** The loop of [GetPoolTransactions]: a [range] over a map visits its
    entries in an order the language leaves open; [visit] is the order
    of one run. *)
Fixpoint appendBatches (visit : list (Address * list Transaction))
    (txs : list Transaction) : list Transaction :=
  match visit with
  | [] => txs
  | (_, batch) :: visit => appendBatches visit (txs ++ batch)%list
  end.

(** [(b *gdaApiBackend) GetPoolTransactions]: [pending] and [err] are
    what [txPool.Pending] returns. *)
Definition GetPoolTransactions {error : Type}
    (pending : gmap Address (list Transaction)) (err : option error)
    (visit : list (Address * list Transaction))
  : list Transaction * option error :=
  match err with
  | Some e => ([], Some e)
  | None => (appendBatches visit [], None)
  end.

(** The orders a run may visit the map in. *)
Definition visits (pending : gmap Address (list Transaction))
    (visit : list (Address * list Transaction)) : Prop :=
  visit ≡ₚ map_to_list pending.
End Pool.

End ApiBackend.

(** ** Backends the properties are tried on *)
Module ApiSamples.
Import Common ApiBackend Fixtures.

(** Headers and blocks are their numbers; a chain of ten blocks, whose
    states are all at hand. *)
Definition header_of (b : option N) : outcome (option N) :=
  match b with
  | Some n => Returns (Some n)
  | None => Panics
  end.

Definition full : FullNode N N string string :=
  mkFullNode N N string string (Some 10%N) (Some 10%N, Some "pending")
    (Some 9%N)
    (fun n => if (n <? 10)%N then Some n else None)
    (fun n => if (n <? 10)%N then Some n else None)
    (fun _ => (Some "state", None)).

Definition light : LightNode N N string :=
  mkLightNode N N string (Some 9%N)
    (fun n => if (n <? 10)%N then (Some n, None)
              else (None, Some "no such header"))
    (fun _ => (Some 9%N, None)).

(** Two accounts with pending transactions, which are numbers. *)
Definition pool : gmap N (list N) :=
  <[1%N := [10; 11]%N]> (<[2%N := [20]%N]> ∅).

End ApiSamples.

(** ** package ggda (mobile): bootnodes and the node of a mobile process *)
Module Mobile.
Import Common Slices.

Section Bootnodes.
(** [discv5.Node] and [discv5.ParseNode], of a package that is not
    among the sources; [MustParseNode] panics on the error of
    [ParseNode]. *)
Variable Node : Type.
Variable ParseNode : string -> option Node.

Definition MustParseNode (url : string) : outcome Node :=
  match ParseNode url with
  | Some n => Returns n
  | None => Panics
  end.

(** The loop of [FoundationBootnodes], from index [i] on: [nodes] are
    node pointers, nil being [None]. *)
Fixpoint parseInto (i : nat) (urls : list string)
    (nodes : list (option Node)) : outcome (list (option Node)) :=
  match urls with
  | [] => Returns nodes
  | url :: urls =>
      match MustParseNode url with
      | Panics => Panics
      | Returns n =>
          if (i <? length nodes)%nat
          then parseInto (S i) urls (<[i := Some n]> nodes)
          else Panics
      end
  end.

(** [FoundationBootnodes], over [params.DiscoveryV5Bootnodes]; the
    result is the field [nodes] of the [Enodes] returned. *)
Definition FoundationBootnodes (DiscoveryV5Bootnodes : list string)
  : outcome (list (option Node)) :=
  parseInto 0 DiscoveryV5Bootnodes
    (make None (length DiscoveryV5Bootnodes)).
End Bootnodes.

Section Genesis.
(** [json.Marshal] of the default genesis blocks of package core. *)
Variable marshalTestnet marshalRinkeby : option string.

(** [MainnetGenesis] *)
Definition MainnetGenesis : string := "".

(** [TestnetGenesis] *)
Definition TestnetGenesis : outcome string :=
  match marshalTestnet with
  | Some enc => Returns enc
  | None => Panics
  end.

(** [RinkebyGenesis] *)
Definition RinkebyGenesis : outcome string :=
  match marshalRinkeby with
  | Some enc => Returns enc
  | None => Panics
  end.
End Genesis.

(** The errors of [NewNode]. *)
Inductive error : Type :=
| ErrNode (err : string)                       (* the error of [node.New] *)
| ErrInvalidGenesis (err : string)             (* "invalid genesis spec: %v" *)
| ErrGdaInit (err : string)                    (* "gdaereum init: %v" *)
| ErrStatsInit (err : string)                  (* "negdaats init: %v" *)
| ErrWhisperInit (err : string).               (* "whisper init: %v" *)

Section Node.
Variable Node : Type.
(** [core.Genesis], with the assignment of [params.TestnetChainConfig]
    to its field [Config]. *)
Variable Genesis : Type.
Variable withTestnetConfig : Genesis -> Genesis.

(** [NodeConfig]; [BoogdarapNodes] is a pointer to an [Enodes], kept as
    its field [nodes], and nil is [None]. *)
Record NodeConfig : Type := mkNodeConfig {
  BoogdarapNodes : option (list (option Node));
  MaxPeers : Z;
  gdachainEnabled : bool;
  gdachainNetworkID : Z;
  gdachainGenesis : string;
  gdachainDatabaseCache : Z;
  gdachainNegdaats : string;
  WhisperEnabled : bool
}.

(** The fields of [gda.DefaultConfig] that [NewNode] sets. *)
Record GdaConf : Type := mkGdaConf {
  Genesis_ : option Genesis;
  SyncMode : Z;
  NetworkId : N;
  DatabaseCache : Z
}.

(** The fields of [node.Config], with those of its [p2p.Config]. *)
Record NodeConf : Type := mkNodeConf {
  DataDir : string;
  KeyStoreDir : string;
  NoDiscovery : bool;
  DiscoveryV5 : bool;
  BoogdarapNodesV5 : list (option Node);
  ListenAddr : string;
  P2PMaxPeers : Z
}.

(** What a registered constructor will build: the light service from
    its configuration, the stats service from its connection string,
    whisper. *)
Inductive service : Type :=
| LesService (gdaConf : GdaConf)
| StatsService (url : string)
| WhisperService.

(** [Node]: the stack and the constructors registered on it, in the
    order of registration. *)
Record Stack : Type := mkStack {
  nodeConf : NodeConf;
  services : list service
}.

(** The value of [FoundationBootnodes()] when the package is
    initialised, and what is outside the sources: the method [Size] of
    [Enodes], [filepath.Join], [node.New], [json.Unmarshal] into a
    [core.Genesis], [Register] of the stack with the services
    registered before, [downloader.LightSync], and the value of
    [TestnetGenesis()]. *)
Variable foundation : list (option Node).
Variable Size : list (option Node) -> Z.
Variable Join : string -> string -> string.
Variable nodeNew : NodeConf -> option string.
Variable Unmarshal : string -> result string Genesis.
Variable Register : list service -> service -> option string.
Variable LightSync : Z.
Variable TestnetGenesis : outcome string.

(** [defaultNodeConfig] *)
Definition defaultNodeConfig : NodeConfig :=
  mkNodeConfig (Some foundation) 25 true 1 "" 16 "" false.

(** [NewNodeConfig]: a copy of the defaults. *)
Definition NewNodeConfig : NodeConfig := defaultNodeConfig.

Definition setMaxPeers (c : NodeConfig) (n : Z) : NodeConfig :=
  mkNodeConfig (BoogdarapNodes c) n (gdachainEnabled c)
    (gdachainNetworkID c) (gdachainGenesis c) (gdachainDatabaseCache c)
    (gdachainNegdaats c) (WhisperEnabled c).

Definition setBoogdarapNodes (c : NodeConfig)
    (nodes : option (list (option Node))) : NodeConfig :=
  mkNodeConfig nodes (MaxPeers c) (gdachainEnabled c)
    (gdachainNetworkID c) (gdachainGenesis c) (gdachainDatabaseCache c)
    (gdachainNegdaats c) (WhisperEnabled c).

Definition setNetworkID (c : NodeConfig) (id : Z) : NodeConfig :=
  mkNodeConfig (BoogdarapNodes c) (MaxPeers c) (gdachainEnabled c) id
    (gdachainGenesis c) (gdachainDatabaseCache c) (gdachainNegdaats c)
    (WhisperEnabled c).

(** The head of [NewNode]: the defaults for what the configuration
    leaves out. *)
Definition withDefaults (config : option NodeConfig) : NodeConfig :=
  let config :=
    match config with
    | None => NewNodeConfig
    | Some config => config
    end in
  let config :=
    if Z.eqb (MaxPeers config) 0
    then setMaxPeers config (MaxPeers defaultNodeConfig)
    else config in
  match BoogdarapNodes config with
  | None => setBoogdarapNodes config (BoogdarapNodes defaultNodeConfig)
  | Some nodes =>
      if Z.eqb (Size nodes) 0
      then setBoogdarapNodes config (BoogdarapNodes defaultNodeConfig)
      else config
  end.

(** The genesis block of [NewNode]: the genesis to use, nil being
    [None], and the configuration afterwards, or the error of
    [json.Unmarshal]. *)
Definition parseGenesis (config : NodeConfig)
  : outcome (result string (option Genesis * NodeConfig)) :=
  if String.eqb (gdachainGenesis config) "" then Returns (Ok (None, config))
  else
    match Unmarshal (gdachainGenesis config) with
    | Err err => Returns (Err err)
    | Ok genesis =>
        match TestnetGenesis with
        | Panics => Panics
        | Returns testnet =>
            if String.eqb (gdachainGenesis config) testnet then
              Returns
                (Ok (Some (withTestnetConfig genesis),
                     if Z.eqb (gdachainNetworkID config) 1
                     then setNetworkID config 3
                     else config))
            else Returns (Ok (Some genesis, config))
        end
    end.

(** The tail of [NewNode]: the registrations, in their order. *)
Definition registerAll (genesis : option Genesis) (config : NodeConfig)
  : result error (list service) :=
  let gda :=
    if gdachainEnabled config then
      let gdaConf :=
        mkGdaConf genesis LightSync
          (ApiBackend.uint64 (gdachainNetworkID config))
          (gdachainDatabaseCache config) in
      match Register [] (LesService gdaConf) with
      | Some err => Err (ErrGdaInit err)
      | None =>
          let registered := [LesService gdaConf] in
          if negb (String.eqb (gdachainNegdaats config) "") then
            match Register registered
                    (StatsService (gdachainNegdaats config)) with
            | Some err => Err (ErrStatsInit err)
            | None =>
                Ok (registered
                    ++ [StatsService (gdachainNegdaats config)])%list
            end
          else Ok registered
      end
    else Ok [] in
  match gda with
  | Err e => Err e
  | Ok registered =>
      if WhisperEnabled config then
        match Register registered WhisperService with
        | Some err => Err (ErrWhisperInit err)
        | None => Ok (registered ++ [WhisperService])%list
        end
      else Ok registered
  end.

(** [NewNode]: the node and the error returned, nil being [None], and
    the configuration of the caller afterwards (for a nil [config], the
    copy of the defaults that was made). Reading the nodes of a nil
    [BoogdarapNodes] panics. *)
Definition NewNode (datadir : string) (config : option NodeConfig)
  : outcome ((option Stack * option error) * NodeConfig) :=
  let config := withDefaults config in
  match BoogdarapNodes config with
  | None => Panics
  | Some nodes =>
      let nodeConf :=
        mkNodeConf datadir (Join datadir "keystore") true true nodes ":0"
          (MaxPeers config) in
      match nodeNew nodeConf with
      | Some err => Returns ((None, Some (ErrNode err)), config)
      | None =>
          match parseGenesis config with
          | Panics => Panics
          | Returns (Err err) =>
              Returns ((None, Some (ErrInvalidGenesis err)), config)
          | Returns (Ok (genesis, config)) =>
              match registerAll genesis config with
              | Err e => Returns ((None, Some e), config)
              | Ok registered =>
                  Returns ((Some (mkStack nodeConf registered), None),
                           config)
              end
          end
      end
  end.
End Node.

End Mobile.

(** ** A mobile process the properties are tried on *)
Module MobileSamples.
Import Mobile.

(** Nodes are their URLs; the empty URL does not parse. *)
Definition parse (url : string) : option string :=
  if String.eqb url "" then None else Some url.

(** The genesis is its JSON text; the text [bad] does not parse. *)
Definition unmarshal (s : string) : result string string :=
  if String.eqb s "bad" then Err "unexpected end of JSON input" else Ok s.

Definition size (nodes : list (option string)) : Z :=
  Z.of_nat (length nodes).

Definition join (dir name : string) : string := dir ++ "/" ++ name.

(** A configuration for the test network that leaves the peer limit
    and the bootnodes to the defaults and asks for stats. *)
Definition testnetConfig : NodeConfig string :=
  mkNodeConfig string None 0 true 1 "testnet" 32 "phone:secret@host:3000"
    false.

Definition newNode (config : option (NodeConfig string))
  : outcome ((option (Stack string string) * option error)
             * NodeConfig string) :=
  NewNode string string (fun g => g ++ "+testnet") [Some "enode://a"] size
    join (fun _ => None) unmarshal (fun _ _ => None) Fixtures.LightSync
    (Returns "testnet") "/data" config.

End MobileSamples.

(** ** Runs of calls on a message stream *)
Module Session.
Import P2P.

(** The calls a peer makes on its stream, and what they return. *)
Inductive op : Type :=
| Read
| Write (msg : Msg).

Inductive reply : Type :=
| Got (msg : Msg) (err : option error)
| Sent (err : option error).

Section Run.
Context {S : Type} `{!MsgReadWriter S}.

Definition perform (o : op) (s : S) : reply * S :=
  match o with
  | Read => let '((msg, err), s) := ReadMsg s in (Got msg err, s)
  | Write msg => let '(err, s) := WriteMsg msg s in (Sent err, s)
  end.

(** The calls of [ops] one after the other: the replies, in order, and
    the stream afterwards. *)
Fixpoint session (ops : list op) (s : S) : list reply * S :=
  match ops with
  | [] => ([], s)
  | o :: ops =>
      let '(r, s) := perform o s in
      let '(rs, s) := session ops s in
      (r :: rs, s)
  end.
End Run.

(** A reply that the metered wrappers count: every write, and every
    read without error. *)
Definition metered (r : reply) : bool :=
  match r with
  | Got _ (Some _) => false
  | _ => true
  end.

(** The bytes read without error, and the bytes handed to write. *)
Fixpoint bytesRead (rs : list reply) : Z :=
  match rs with
  | [] => 0
  | Got msg None :: rs => (Z.of_N (Size msg) + bytesRead rs)%Z
  | _ :: rs => bytesRead rs
  end.

Fixpoint bytesWritten (ops : list op) : Z :=
  match ops with
  | [] => 0
  | Write msg :: ops => (Z.of_N (Size msg) + bytesWritten ops)%Z
  | Read :: ops => bytesWritten ops
  end.

Definition isRead (r : reply) : bool :=
  match r with
  | Got _ None => true
  | _ => false
  end.

Definition isWrite (o : op) : bool :=
  match o with
  | Write _ => true
  | Read => false
  end.

End Session.
(** * Properties *)

Module CommonFacts.
Import Common.

Lemma unhex_hex_byte (v : byte) :
  match unhexdigit (hexdigit (N.shiftr (Byte.to_N v) 4)),
        unhexdigit (hexdigit (N.land (Byte.to_N v) 15)) with
  | Some h, Some l => Byte.of_N (h * 16 + l) = Some v
  | _, _ => False
  end.
Proof. destruct v; vm_compute; reflexivity. Qed.

Lemma Hex2Bytes_Bytes2Hex (d : list byte) :
  Hex2Bytes (Bytes2Hex d) = Some d.
Proof.
  induction d as [|v d IH]; [reflexivity|].
  cbn [Bytes2Hex Hex2Bytes].
  pose proof (unhex_hex_byte v) as Hv.
  destruct (unhexdigit (hexdigit (N.shiftr (Byte.to_N v) 4))) as [h|]; [|contradiction].
  destruct (unhexdigit (hexdigit (N.land (Byte.to_N v) 15))) as [l|]; [|contradiction].
  rewrite IH, Hv. reflexivity.
Qed.

Lemma Bytes2Hex_inj (d1 d2 : list byte) :
  Bytes2Hex d1 = Bytes2Hex d2 -> d1 = d2.
Proof.
  intros H.
  assert (Some d1 = Some d2) as E
    by (rewrite <- !Hex2Bytes_Bytes2Hex; rewrite H; reflexivity).
  congruence.
Qed.

Lemma Bytes2Hex_length (d : list byte) :
  String.length (Bytes2Hex d) = 2 * length d.
Proof. induction d as [|v d IH]; cbn [Bytes2Hex String.length length]; lia. Qed.

End CommonFacts.

Module LesFacts.
Import Common Les CommonFacts.

Section Topic.
Variables lpv1 lpv2 : N.
(** Go rejects a [switch] with two equal constant cases. *)
Hypothesis lpv_distinct : lpv1 <> lpv2.

Lemma lesTopic_lpv1 (h : Hash) :
  lesTopic lpv1 lpv2 h lpv1
  = Returns ("LES" ++ "@" ++ Bytes2Hex (take 8 (Bytes h))).
Proof. unfold lesTopic. rewrite N.eqb_refl. reflexivity. Qed.

Lemma lesTopic_lpv2 (h : Hash) :
  lesTopic lpv1 lpv2 h lpv2
  = Returns ("LES2" ++ "@" ++ Bytes2Hex (take 8 (Bytes h))).
Proof.
  unfold lesTopic.
  destruct (N.eqb_spec lpv2 lpv1) as [E|_]; [congruence|].
  rewrite N.eqb_refl. reflexivity.
Qed.

Lemma lesTopic_unsupported (h : Hash) (v : N) :
  v <> lpv1 -> v <> lpv2 -> lesTopic lpv1 lpv2 h v = Panics.
Proof.
  intros H1 H2. unfold lesTopic.
  destruct (N.eqb_spec v lpv1); [contradiction|].
  destruct (N.eqb_spec v lpv2); [contradiction|].
  reflexivity.
Qed.

Lemma lesTopic_same (h1 h2 : Hash) (v1 v2 : N) :
  supported lpv1 lpv2 v1 -> supported lpv1 lpv2 v2 ->
  (lesTopic lpv1 lpv2 h1 v1 = lesTopic lpv1 lpv2 h2 v2
   <-> v1 = v2 /\ take 8 (Bytes h1) = take 8 (Bytes h2)).
Proof.
  intros S1 S2. split.
  - destruct S1 as [-> | ->], S2 as [-> | ->];
      rewrite ?lesTopic_lpv1, ?lesTopic_lpv2; intros E;
      injection E as E; try discriminate E.
    + split; [reflexivity|]. now apply Bytes2Hex_inj.
    + split; [reflexivity|]. now apply Bytes2Hex_inj.
  - intros [-> E]. unfold lesTopic. rewrite E. reflexivity.
Qed.

(** C3: for every genesis hash the topic of lpv1 is "LES", "@" and the
    hex encoding of the first 8 bytes of the hash, the topic of lpv2 is
    "LES2", "@" and the same hex prefix; two clients on supported
    versions compute the same topic exactly when they agree on the
    version and on the first 8 bytes of the genesis hash. *)
Theorem lesTopic_format_and_agreement :
  (forall h : Hash,
      lesTopic lpv1 lpv2 h lpv1
      = Returns ("LES" ++ "@" ++ Bytes2Hex (take 8 (Bytes h)))
      /\ lesTopic lpv1 lpv2 h lpv2
         = Returns ("LES2" ++ "@" ++ Bytes2Hex (take 8 (Bytes h)))
      /\ length (take 8 (Bytes h)) = 8)
  /\ (forall (h1 h2 : Hash) (v1 v2 : N),
         supported lpv1 lpv2 v1 -> supported lpv1 lpv2 v2 ->
         (lesTopic lpv1 lpv2 h1 v1 = lesTopic lpv1 lpv2 h2 v2
          <-> v1 = v2 /\ take 8 (Bytes h1) = take 8 (Bytes h2))).
Proof.
  split.
  - intros h. split; [apply lesTopic_lpv1|]. split; [apply lesTopic_lpv2|].
    rewrite length_take. unfold Bytes. rewrite (hash_len h).
    reflexivity.
  - apply lesTopic_same.
Qed.

(** C9: on every protocol version other than lpv1 and lpv2 the topic
    function panics, whatever the genesis hash; on lpv1 and lpv2 it
    returns. *)
Theorem lesTopic_panics_iff_unsupported (h : Hash) (v : N) :
  (v <> lpv1 /\ v <> lpv2 <-> lesTopic lpv1 lpv2 h v = Panics)
  /\ (supported lpv1 lpv2 v -> exists t, lesTopic lpv1 lpv2 h v = Returns t).
Proof.
  split; [split|].
  - intros [H1 H2]. now apply lesTopic_unsupported.
  - intros HP. split; intros ->.
    + rewrite lesTopic_lpv1 in HP. discriminate.
    + rewrite lesTopic_lpv2 in HP. discriminate.
  - intros [-> | ->]; eexists; [apply lesTopic_lpv1 | apply lesTopic_lpv2].
Qed.
End Topic.

End LesFacts.

Module LesWitnesses.
Import Common Les LesFacts.

Lemma lesTopic_format_and_agreement_witness :
  (1 <> 2)%N
  /\ lesTopic 1 2 Fixtures.genesis 1 = Returns "LES@0001020304050607"
  /\ lesTopic 1 2 Fixtures.genesis 2 = Returns "LES2@0001020304050607"
  /\ lesTopic 1 2 Fixtures.genesis 1 <> lesTopic 1 2 Fixtures.genesis 2.
Proof.
  assert (1 <> 2)%N as D by lia.
  destruct (lesTopic_format_and_agreement 1 2 D) as [F A].
  destruct (F Fixtures.genesis) as [H1 [H2 _]].
  split; [exact D|]. split; [exact H1|]. split; [exact H2|].
  intros E.
  apply (A Fixtures.genesis Fixtures.genesis 1%N 2%N) in E;
    [destruct E as [E _]; lia | left; reflexivity | right; reflexivity].
Defined.

Lemma lesTopic_panics_iff_unsupported_witness :
  (1 <> 2)%N /\ lesTopic 1 2 Fixtures.genesis 3 = Panics.
Proof.
  assert (1 <> 2)%N as D by lia.
  split; [exact D|].
  apply (proj1 (lesTopic_panics_iff_unsupported 1 2 D Fixtures.genesis 3)).
  split; lia.
Defined.

End LesWitnesses.

Module MeteredFacts.
Import P2P Metrics Accounting.

Lemma count_app (name : string) (s1 s2 : Sink) :
  count name (s1 ++ s2)%list = (count name s1 + count name s2)%Z.
Proof.
  induction s1 as [|[m n] s1 IH]; cbn [count app]; [lia|].
  rewrite IH. lia.
Qed.

Lemma count_Mark (name m : string) (n : Z) (s : Sink) :
  count name (Mark m n s)
  = (count name s + if String.eqb m name then n else 0)%Z.
Proof. unfold Mark. rewrite count_app. cbn [count]. lia. Qed.

Section Gda.
Import GdaMetrics.
Context {S : Type} `{!MsgReadWriter S}.
Variable p : Protocol.

Lemma meteredReadMsg_eq (rw : meteredMsgReadWriter S) (sink : Sink) :
  meteredReadMsg p (rw, sink)
  = let r := ReadMsg (MsgReadWriter_ rw) in
    (fst r,
     (mkMetered (snd r) (version rw),
      match snd (fst r) with
      | Some _ => sink
      | None =>
          let m := inMeters p (version rw) (Code (fst (fst r))) in
          Mark (snd m) (Z.of_N (Size (fst (fst r)))) (Mark (fst m) 1 sink)
      end)).
Proof.
  unfold meteredReadMsg.
  destruct (ReadMsg (MsgReadWriter_ rw)) as [[msg [e|]] inner];
    cbn [fst snd]; [reflexivity|].
  destruct (inMeters p (version rw) (Code msg)); reflexivity.
Qed.

Lemma meteredWriteMsg_eq (msg : Msg) (rw : meteredMsgReadWriter S)
    (sink : Sink) :
  meteredWriteMsg p msg (rw, sink)
  = let r := WriteMsg msg (MsgReadWriter_ rw) in
    let m := outMeters p (version rw) (Code msg) in
    (fst r,
     (mkMetered (snd r) (version rw),
      Mark (snd m) (Z.of_N (Size msg)) (Mark (fst m) 1 sink))).
Proof.
  unfold meteredWriteMsg.
  destruct (outMeters p (version rw) (Code msg)).
  destruct (WriteMsg msg (MsgReadWriter_ rw)); reflexivity.
Qed.
End Gda.

Section Les.
Import LesMetrics.
Context {S : Type} `{!MsgReadWriter S}.

Lemma les_meteredReadMsg_eq (rw : meteredMsgReadWriter S) (sink : Sink) :
  meteredReadMsg (rw, sink)
  = let r := ReadMsg (MsgReadWriter_ rw) in
    (fst r,
     (mkMetered (snd r) (version rw),
      match snd (fst r) with
      | Some _ => sink
      | None =>
          Mark miscInTrafficMeter (Z.of_N (Size (fst (fst r))))
            (Mark miscInPacketsMeter 1 sink)
      end)).
Proof.
  unfold meteredReadMsg.
  destruct (ReadMsg (MsgReadWriter_ rw)) as [[msg [e|]] inner];
    reflexivity.
Qed.

Lemma les_meteredWriteMsg_eq (msg : Msg) (rw : meteredMsgReadWriter S)
    (sink : Sink) :
  meteredWriteMsg msg (rw, sink)
  = let r := WriteMsg msg (MsgReadWriter_ rw) in
    (fst r,
     (mkMetered (snd r) (version rw),
      Mark miscOutTrafficMeter (Z.of_N (Size msg))
        (Mark miscOutPacketsMeter 1 sink))).
Proof.
  unfold meteredWriteMsg.
  destruct (WriteMsg msg (MsgReadWriter_ rw)); reflexivity.
Qed.
End Les.

(** C5: for every wrapped stream and every message, [ReadMsg] of either
    metered wrapper returns exactly the message and the error of the
    wrapped stream's [ReadMsg], and [WriteMsg] returns exactly the error
    of the wrapped stream's [WriteMsg] on the same message; the wrapped
    stream advances as it would on its own. *)
Theorem metered_stream_transparent
    {S : Type} `{!MsgReadWriter S} (p : GdaMetrics.Protocol)
    (inner : S) (v : Z) (sink : Sink) (msg : Msg) :
  let g := GdaMetrics.mkMetered inner v in
  let l := LesMetrics.mkMetered inner v in
  (fst (GdaMetrics.meteredReadMsg p (g, sink)) = fst (ReadMsg inner)
   /\ GdaMetrics.MsgReadWriter_ (fst (snd (GdaMetrics.meteredReadMsg p (g, sink))))
      = snd (ReadMsg inner))
  /\ (fst (GdaMetrics.meteredWriteMsg p msg (g, sink)) = fst (WriteMsg msg inner)
      /\ GdaMetrics.MsgReadWriter_
           (fst (snd (GdaMetrics.meteredWriteMsg p msg (g, sink))))
         = snd (WriteMsg msg inner))
  /\ (fst (LesMetrics.meteredReadMsg (l, sink)) = fst (ReadMsg inner)
      /\ LesMetrics.MsgReadWriter_ (fst (snd (LesMetrics.meteredReadMsg (l, sink))))
         = snd (ReadMsg inner))
  /\ (fst (LesMetrics.meteredWriteMsg msg (l, sink)) = fst (WriteMsg msg inner)
      /\ LesMetrics.MsgReadWriter_
           (fst (snd (LesMetrics.meteredWriteMsg msg (l, sink))))
         = snd (WriteMsg msg inner)).
Proof.
  intros g l. subst g l.
  rewrite meteredReadMsg_eq, meteredWriteMsg_eq,
    les_meteredReadMsg_eq, les_meteredWriteMsg_eq.
  cbn. repeat split.
Qed.

End MeteredFacts.

Module AccountingFacts.
Import P2P Metrics Accounting MeteredFacts.

Section Gda.
Import GdaMetrics.
Variable p : Protocol.
(** The message codes of the protocol are pairwise different. *)
Hypothesis codes_distinct : NoDup (meteredCodes p).

Ltac split_codes :=
  let H := fresh "H" in
  pose proof codes_distinct as H; unfold meteredCodes in H;
  repeat (apply NoDup_cons in H as [? H]);
  repeat match goal with
    | X : _ ∉ _ :: _ |- _ => apply not_elem_of_cons in X as [? ?]
    end.

Ltac run_switch :=
  repeat match goal with
    | |- context [N.eqb ?a ?b] =>
        destruct (N.eqb_spec a b); try congruence
    | |- context [Z.leb ?a ?b] => destruct (Z.leb a b)
    end;
  cbn [andb]; try reflexivity.

Lemma kindOfCode_total (code : N) : exists k, kindOfCode p code k.
Proof.
  destruct (decide (code ∈ meteredCodes p)) as [Hin|Hout].
  - unfold meteredCodes in Hin.
    repeat (apply elem_of_cons in Hin as [-> | Hin]; [eexists; constructor|]).
    apply elem_of_nil in Hin. contradiction.
  - exists Misc. now constructor.
Qed.

Lemma kindOfCode_functional (code : N) (k1 k2 : Kind) :
  kindOfCode p code k1 -> kindOfCode p code k2 -> k1 = k2.
Proof.
  split_codes.
  intros K1 K2; inversion K1; subst; inversion K2; subst;
    try reflexivity; try congruence;
    match goal with
    | X : _ ∉ meteredCodes p |- _ =>
        exfalso; apply X; unfold meteredCodes;
        repeat (apply elem_of_cons; first [left; reflexivity | right])
    end.
Qed.

Lemma inMeters_kind (v : Z) (code : N) (k : Kind) :
  kindOfCode p code k ->
  inMeters p v code
  = (packetsMeter "gda" (accountedKind p v k) Inbound,
     trafficMeter "gda" (accountedKind p v k) Inbound).
Proof.
  split_codes.
  intros K; inversion K; subst; unfold inMeters, accountedKind;
    try (match goal with
         | X : _ ∉ meteredCodes p |- _ =>
             unfold meteredCodes in X;
             repeat (apply not_elem_of_cons in X as [? X])
         end);
    run_switch.
Qed.

Lemma outMeters_kind (v : Z) (code : N) (k : Kind) :
  kindOfCode p code k ->
  outMeters p v code
  = (packetsMeter "gda" (accountedKind p v k) Outbound,
     trafficMeter "gda" (accountedKind p v k) Outbound).
Proof.
  split_codes.
  intros K; inversion K; subst; unfold outMeters, accountedKind;
    try (match goal with
         | X : _ ∉ meteredCodes p |- _ =>
             unfold meteredCodes in X;
             repeat (apply not_elem_of_cons in X as [? X])
         end);
    run_switch.
Qed.

Lemma accountedKind_from_gda63 (v : Z) (k : Kind) :
  (gda63 p <= v)%Z -> accountedKind p v k = k.
Proof.
  intros Hv. unfold accountedKind.
  destruct (Z.leb_spec (gda63 p) v); [|lia]. now destruct k.
Qed.

Lemma accountedKind_below_gda63 (v : Z) (k : Kind) :
  (v < gda63 p)%Z ->
  accountedKind p v k = match k with States | Receipts => Misc | _ => k end.
Proof.
  intros Hv. unfold accountedKind.
  destruct (Z.leb_spec (gda63 p) v); [lia|]. now destruct k.
Qed.

(** C4, as the code has it: every message read without error and every
    message written through a metered stream marks exactly one packet
    and the byte size of the message, on the inbound meters for a read
    and on the outbound meters for a write. The full-protocol wrapper
    picks the meters by the kind of the message, with state and receipt
    messages on their own meters from protocol version [gda63] on and on
    the misc meters below it; the light-protocol wrapper marks every
    message on its misc meters. A read that fails marks nothing. *)
Theorem metered_accounting {S : Type} `{!MsgReadWriter S}
    (inner : S) (v : Z) (sink : Sink) (msg : Msg) (k : Kind) :
  kindOfCode p (Code msg) k ->
  (recorded "gda" (accountedKind p v k) Outbound msg sink
     (snd (snd (meteredWriteMsg p msg (mkMetered inner v, sink))))
   /\ recorded "les" Misc Outbound msg sink
        (snd (snd (LesMetrics.meteredWriteMsg msg
                     (LesMetrics.mkMetered inner v, sink)))))
  /\ (forall inner' : S,
         ReadMsg inner = ((msg, None), inner') ->
         recorded "gda" (accountedKind p v k) Inbound msg sink
           (snd (snd (meteredReadMsg p (mkMetered inner v, sink))))
         /\ recorded "les" Misc Inbound msg sink
              (snd (snd (LesMetrics.meteredReadMsg
                           (LesMetrics.mkMetered inner v, sink)))))
  /\ (forall (m : Msg) (e : error) (inner' : S),
         ReadMsg inner = ((m, Some e), inner') ->
         snd (snd (meteredReadMsg p (mkMetered inner v, sink))) = sink
         /\ snd (snd (LesMetrics.meteredReadMsg
                        (LesMetrics.mkMetered inner v, sink))) = sink)
  /\ ((gda63 p <= v)%Z -> accountedKind p v k = k)
  /\ ((v < gda63 p)%Z ->
      accountedKind p v k
      = match k with States | Receipts => Misc | _ => k end).
Proof.
  intros K.
  rewrite meteredWriteMsg_eq, meteredReadMsg_eq,
    les_meteredWriteMsg_eq, les_meteredReadMsg_eq.
  cbn [fst snd version MsgReadWriter_ LesMetrics.version
       LesMetrics.MsgReadWriter_].
  rewrite (outMeters_kind v _ k K).
  split; [split|split; [|split; [|split]]].
  - unfold recorded, Mark. cbn [fst snd]. now rewrite <- app_assoc.
  - unfold recorded, Mark. now rewrite <- app_assoc.
  - intros inner' Hread. rewrite Hread. cbn [fst snd].
    rewrite (inMeters_kind v _ k K). unfold recorded, Mark. cbn [fst snd].
    split; now rewrite <- app_assoc.
  - intros m e inner' Hread. rewrite Hread. split; reflexivity.
  - apply accountedKind_from_gda63.
  - apply accountedKind_below_gda63.
Qed.
End Gda.

(** The meters of the two directions are different meters. *)
Lemma directions_separate (pkg : string) (k k' : Kind) :
  pkg = "gda" \/ pkg = "les" ->
  NoDup [packetsMeter pkg k Inbound; trafficMeter pkg k Inbound;
         packetsMeter pkg k' Outbound; trafficMeter pkg k' Outbound].
Proof.
  intros [-> | ->]; destruct k, k';
    apply (bool_decide_unpack _); vm_compute; reflexivity.
Qed.

(** In terms of what the meters have counted: the packet meter of the kind
    and direction is one up, its traffic meter is up by the size of the
    message, and every other meter is where it was. *)
Lemma recorded_counts (pkg : string) (k : Kind) (d : Direction) (msg : Msg)
    (before after : Sink) :
  pkg = "gda" \/ pkg = "les" ->
  recorded pkg k d msg before after ->
  count (packetsMeter pkg k d) after
  = (count (packetsMeter pkg k d) before + 1)%Z
  /\ count (trafficMeter pkg k d) after
     = (count (trafficMeter pkg k d) before + Z.of_N (Size msg))%Z
  /\ (forall name,
         name <> packetsMeter pkg k d -> name <> trafficMeter pkg k d ->
         count name after = count name before).
Proof.
  intros Hpkg ->. rewrite !count_app. cbn [count].
  assert (String.eqb (trafficMeter pkg k d) (packetsMeter pkg k d) = false
          /\ String.eqb (packetsMeter pkg k d) (trafficMeter pkg k d) = false)
    as [E1 E2]
    by (destruct Hpkg as [-> | ->]; destruct k, d; split; reflexivity).
  rewrite !String.eqb_refl, E1, E2.
  split; [lia|]. split; [lia|].
  intros name Hp Ht. rewrite count_app. cbn [count].
  apply not_eq_sym, String.eqb_neq in Hp, Ht. rewrite Hp, Ht. lia.
Qed.

End AccountingFacts.

Module AccountingExamples.
Import P2P Metrics Accounting Fixtures AccountingFacts.

Lemma protocol_codes_distinct : NoDup (meteredCodes protocol).
Proof. apply (bool_decide_unpack _). vm_compute. reflexivity. Qed.

(** A state message and a receipt message on a stream of protocol
    version 62 are marked on the misc meters, and the state and receipt
    meters stay untouched, although both messages occurred on the stream;
    the same on a stream whose version was never initialised, and on the
    light-protocol wrapper at any version: "state and receipt messages are
    accounted to their own meters whenever they occur" does not hold. *)
Lemma state_and_receipt_below_gda63_on_misc :
  let state := mkMsg 14 100 [] in
  let receipt := mkMsg 16 200 [] in
  let inner := mkPipe [state; receipt] [] 1000 in
  let rw := GdaMetrics.mkMetered inner gda62 in
  let w := GdaMetrics.meteredWriteMsg protocol state (rw, []) in
  let r1 := GdaMetrics.meteredReadMsg protocol (rw, []) in
  let r2 := GdaMetrics.meteredReadMsg protocol (snd r1) in
  kindOfCode protocol (Code state) States
  /\ kindOfCode protocol (Code receipt) Receipts
  /\ w = (None,
          (GdaMetrics.mkMetered (mkPipe [state; receipt] [state] 1000) gda62,
           [("gda/misc/out/packets", 1%Z); ("gda/misc/out/traffic", 100%Z)]))
  /\ ~ recorded "gda" States Outbound state [] (snd (snd w))
  /\ fst r1 = (state, None)
  /\ fst r2 = (receipt, None)
  /\ snd (snd r2)
     = [("gda/misc/in/packets", 1%Z); ("gda/misc/in/traffic", 100%Z);
        ("gda/misc/in/packets", 1%Z); ("gda/misc/in/traffic", 200%Z)]
  /\ count GdaMetrics.reqStateInPacketsMeter (snd (snd r2)) = 0%Z
  /\ count GdaMetrics.reqReceiptInPacketsMeter (snd (snd r2)) = 0%Z
  /\ count GdaMetrics.miscInPacketsMeter (snd (snd r2)) = 2%Z
  /\ (exists fresh,
         GdaMetrics.newMeteredMsgWriter true inner = inr fresh
         /\ snd (snd (GdaMetrics.meteredWriteMsg protocol receipt (fresh, [])))
            = [("gda/misc/out/packets", 1%Z);
               ("gda/misc/out/traffic", 200%Z)])
  /\ snd (snd (LesMetrics.meteredWriteMsg receipt
                 (LesMetrics.mkMetered inner 63, [])))
     = [("les/misc/out/packets", 1%Z); ("les/misc/out/traffic", 200%Z)].
Proof.
  cbv zeta.
  split; [apply (kStates protocol)|].
  split; [apply (kReceipts protocol)|].
  split; [reflexivity|].
  split; [intros R; vm_compute in R; discriminate R|].
  repeat split; try reflexivity.
  eexists. split; reflexivity.
Qed.

Lemma metered_accounting_witness :
  let state := mkMsg 14 100 [] in
  let inner := mkPipe [state] [] 1000 in
  NoDup (meteredCodes protocol)
  /\ kindOfCode protocol (Code state) States
  /\ snd (snd (GdaMetrics.meteredWriteMsg protocol state
                 (GdaMetrics.mkMetered inner 63, [])))
     = [("gda/req/states/out/packets", 1%Z);
        ("gda/req/states/out/traffic", 100%Z)]
  /\ snd (snd (GdaMetrics.meteredReadMsg protocol
                 (GdaMetrics.mkMetered inner 63, [])))
     = [("gda/req/states/in/packets", 1%Z);
        ("gda/req/states/in/traffic", 100%Z)]
  /\ snd (snd (LesMetrics.meteredWriteMsg state
                 (LesMetrics.mkMetered inner 63, [])))
     = [("les/misc/out/packets", 1%Z); ("les/misc/out/traffic", 100%Z)].
Proof.
  cbv zeta.
  pose proof (metered_accounting protocol protocol_codes_distinct
                (mkPipe [mkMsg 14 100 []] [] 1000) 63 []
                (mkMsg 14 100 []) States (kStates protocol))
    as [[Wg Wl] [R _]].
  destruct (R (mkPipe [] [] 1000) eq_refl) as [Rg _].
  split; [exact protocol_codes_distinct|].
  split; [apply (kStates protocol)|].
  split; [exact Wg|]. split; [exact Rg|]. exact Wl.
Defined.

End AccountingExamples.

Module ReceiptFacts.
Import Common Types.

Lemma Equal_spec (a b : list byte) : Bytes.Equal a b = true <-> a = b.
Proof.
  revert b; induction a as [|x a IH]; intros [|y b]; cbn [Bytes.Equal];
    try (split; [discriminate | discriminate]); [tauto|].
  rewrite andb_true_iff, IH. split.
  - intros [E ->]. apply Byte.byte_dec_bl in E. now subst.
  - intros [= -> ->]. split; [now apply Byte.byte_dec_lb | reflexivity].
Qed.

Lemma Equal_length (a b : list byte) :
  length a <> length b -> Bytes.Equal a b = false.
Proof.
  intros Hl. destruct (Bytes.Equal a b) eqn:E; [|reflexivity].
  apply Equal_spec in E. now subst.
Qed.

Section Receipt.
Variables Bloom Log Address : Type.
Variable rlp_Encode : receiptRLP Bloom Log -> result error (list byte).
Variable rlp_Decode : list byte -> result error (receiptRLP Bloom Log).

Local Abbreviation Receipt := (Types.Receipt Bloom Log Address).

(** [segdaatus] on what [statusEncoding] produced. *)
Lemma segdaatus_statusEncoding (r r0 : Receipt) :
  Posgdaate r = [] \/ length (Posgdaate r) = HashLength ->
  Status r = ReceipgdaatusFailed \/ Status r = ReceipgdaatusSuccessful ->
  segdaatus r0 (statusEncoding r)
  = Ok (if Nat.eqb (length (Posgdaate r)) 0
        then mkReceipt (Posgdaate r0) (Status r) (CumulativeGasUsed r0)
               (Bloom_ r0) (Logs r0) (TxHash r0) (ContractAddress r0)
               (GasUsed r0)
        else mkReceipt (Posgdaate r) (Status r0) (CumulativeGasUsed r0)
               (Bloom_ r0) (Logs r0) (TxHash r0) (ContractAddress r0)
               (GasUsed r0)).
Proof.
  intros [Hp | Hp] Hs; unfold statusEncoding, segdaatus.
  - rewrite Hp. cbn [length Nat.eqb].
    destruct Hs as [-> | ->]; reflexivity.
  - rewrite Hp. cbn [HashLength Nat.eqb].
    rewrite !Equal_length by (rewrite Hp; cbn; discriminate).
    rewrite Hp. reflexivity.
Qed.

(** [DecodeRLP] on bytes that rlp decodes to the consensus struct of
    [r]: the receipt the receiver [r0] becomes. *)
Lemma DecodeRLP_consensus (r r0 : Receipt) (w : list byte) :
  Posgdaate r = [] \/ length (Posgdaate r) = HashLength ->
  Status r = ReceipgdaatusFailed \/ Status r = ReceipgdaatusSuccessful ->
  rlp_Decode w = Ok (consensus r) ->
  DecodeRLP rlp_Decode r0 w
  = Ok (if Nat.eqb (length (Posgdaate r)) 0
        then mkReceipt (Posgdaate r0) (Status r) (CumulativeGasUsed r)
               (Bloom_ r) (Logs r) (TxHash r0) (ContractAddress r0)
               (GasUsed r0)
        else mkReceipt (Posgdaate r) (Status r0) (CumulativeGasUsed r)
               (Bloom_ r) (Logs r) (TxHash r0) (ContractAddress r0)
               (GasUsed r0)).
Proof.
  intros Hp Hs Hdec. unfold DecodeRLP. rewrite Hdec.
  cbn [PosgdaateOrStatus consensus].
  rewrite (segdaatus_statusEncoding r r0 Hp Hs).
  now destruct (Nat.eqb (length (Posgdaate r)) 0).
Qed.

(** C8: for every receipt whose post-state is empty or 32 bytes long
    and whose status is failed or successful, decoding the consensus
    encoding [EncodeRLP] produced succeeds, into any receiver [r0], and
    reproduces the cumulative gas used, the bloom, the logs and the
    status / post-state item: the status code of a receipt without
    post-state, the post-state of a receipt with one; a status code
    held beside a post-state is not encoded and stays the receiver's.
    The decoded receipt has the consensus encoding of the original
    when the receiver held no post-state, as a new receipt does, or
    the receipt has a post-state; a receiver that holds a post-state
    keeps it when a status code is decoded, and encodes that
    post-state afterwards. The implementation fields stay the
    receiver's. Of the rlp package no more is used than its law: it
    decodes the bytes it wrote of a struct [wf] to the same struct. *)
Theorem receipt_consensus_roundtrip
    (wf : receiptRLP Bloom Log -> Prop) (r r0 : Receipt) (w : list byte) :
  (forall x bytes,
      wf x -> rlp_Encode x = Ok bytes -> rlp_Decode bytes = Ok x) ->
  wf (consensus r) ->
  Posgdaate r = [] \/ length (Posgdaate r) = 32 ->
  Status r = ReceipgdaatusFailed \/ Status r = ReceipgdaatusSuccessful ->
  EncodeRLP rlp_Encode r = Ok w ->
  exists r' : Receipt,
    DecodeRLP rlp_Decode r0 w = Ok r'
    /\ CumulativeGasUsed r' = CumulativeGasUsed r
    /\ Bloom_ r' = Bloom_ r
    /\ Logs r' = Logs r
    /\ (Posgdaate r = [] ->
        Status r' = Status r /\ Posgdaate r' = Posgdaate r0)
    /\ (length (Posgdaate r) = 32 ->
        Posgdaate r' = Posgdaate r /\ Status r' = Status r0)
    /\ (Posgdaate r0 = [] \/ length (Posgdaate r) = 32 ->
        statusEncoding r' = statusEncoding r
        /\ consensus r' = consensus r)
    /\ (Posgdaate r = [] -> Posgdaate r0 <> [] ->
        statusEncoding r' = Posgdaate r0)
    /\ TxHash r' = TxHash r0
    /\ ContractAddress r' = ContractAddress r0
    /\ GasUsed r' = GasUsed r0.
Proof.
  intros Hlaw Hwf Hp Hs Henc.
  assert (rlp_Decode w = Ok (consensus r)) as Hdec
    by (apply Hlaw; [exact Hwf | exact Henc]).
  rewrite (DecodeRLP_consensus r r0 w Hp Hs Hdec).
  eexists; split; [reflexivity|].
  destruct Hp as [Hp | Hp]; rewrite Hp; cbn [length Nat.eqb];
    cbn [Posgdaate Status CumulativeGasUsed Bloom_ Logs TxHash
         ContractAddress GasUsed].
  - split; [reflexivity|]. split; [reflexivity|]. split; [reflexivity|].
    split; [intros _; split; reflexivity|].
    split; [discriminate|].
    split; [|split; [|repeat split; reflexivity]].
    + intros [H0 | H0]; [|discriminate H0].
      unfold consensus, statusEncoding.
      cbn [Posgdaate Status CumulativeGasUsed Bloom_ Logs].
      rewrite H0, Hp. split; reflexivity.
    + intros _ H0. unfold statusEncoding. cbn [Posgdaate Status].
      destruct (Posgdaate r0); [contradiction | reflexivity].
  - split; [reflexivity|]. split; [reflexivity|]. split; [reflexivity|].
    split; [intros E; rewrite E in Hp; discriminate Hp|].
    split; [intros _; split; reflexivity|].
    split; [|split; [|repeat split; reflexivity]].
    + intros _. unfold consensus, statusEncoding.
      cbn [Posgdaate Status CumulativeGasUsed Bloom_ Logs].
      rewrite Hp. split; reflexivity.
    + intros E. rewrite E in Hp. discriminate Hp.
Qed.
End Receipt.

End ReceiptFacts.

Module RLPFacts.
Import Types RLP.

Lemma to_N_byte_of (n : N) : (n < 256)%N -> Byte.to_N (byte_of n) = n.
Proof.
  intros Hn. unfold byte_of.
  destruct (Byte.of_N n) as [b|] eqn:E.
  - now apply Byte.to_of_N.
  - apply Byte.of_N_None_iff in E. lia.
Qed.

Lemma to_N_lt (b : byte) : (Byte.to_N b < 256)%N.
Proof. pose proof (Byte.to_N_bounded b). lia. Qed.

Lemma byte_of_to_N (b : byte) : byte_of (Byte.to_N b) = b.
Proof. unfold byte_of. now rewrite Byte.of_to_N. Qed.

Lemma eqb_x00 (b : byte) : Byte.eqb b x00 = false <-> Byte.to_N b <> 0%N.
Proof.
  split.
  - intros E H. apply Byte.eqb_false in E. apply E.
    rewrite <- (byte_of_to_N b), H. reflexivity.
  - intros H. destruct (Byte.eqb b x00) eqn:E; [|reflexivity].
    apply Byte.byte_dec_bl in E. subst b. now contradiction H.
Qed.

Lemma be_value_app (l1 l2 : list byte) (a : N) :
  be_value (l1 ++ l2) a = be_value l2 (be_value l1 a).
Proof. revert a; induction l1 as [|b l1 IH]; intros a; cbn; [reflexivity|apply IH]. Qed.

(** What [be_pos] computes: the base-256 digits of [p] in front of [acc],
    the first of them not zero, and no more of them than [p] needs. *)
Lemma be_pos_spec (fuel : nat) (p : positive) (acc : list byte) :
  (N.log2 (Npos p) < N.of_nat fuel * 8)%N ->
  exists b ds,
    be_pos p acc fuel = (b :: ds ++ acc)%list
    /\ be_value (b :: ds) 0 = Npos p
    /\ Byte.to_N b <> 0%N
    /\ (N.of_nat (length (b :: ds)) * 8 <= N.log2 (Npos p) + 8)%N.
Proof.
  revert p acc; induction fuel as [|fuel IH]; intros p acc Hlog; [lia|].
  cbn [be_pos]. fold (byte_of (N.pos p mod 256)).
  assert (0 < N.pos p)%N as Hpos by reflexivity.
  pose proof (N.div_mod' (Npos p) 256) as Hdm.
  pose proof (N.mod_lt (Npos p) 256 ltac:(lia)) as Hm.
  assert (N.log2 (N.pos p / 256) = N.log2 (N.pos p) - 8)%N as Hl.
  { change 256%N with (2 ^ 8)%N.
    rewrite <- N.shiftr_div_pow2. apply N.log2_shiftr. }
  remember (N.pos p mod 256)%N as m eqn:Em. clear Em.
  destruct (N.pos p / 256)%N as [|q] eqn:Hq.
  - exists (byte_of m), [].
    cbn [app be_value length]. rewrite to_N_byte_of by exact Hm.
    repeat split; lia.
  - assert (0 < N.pos q)%N as Hqpos by reflexivity.
    assert (8 <= N.log2 (N.pos p))%N as H8.
    { apply (N.log2_le_mono (2 ^ 8)%N). change (2 ^ 8)%N with 256%N. lia. }
    destruct (IH q (byte_of m :: acc))
      as (b & ds & E & Hv & Hb & Hlen); [lia|].
    exists b, (ds ++ [byte_of m])%list.
    split; [|split; [|split]].
    + rewrite E. now rewrite <- app_assoc.
    + rewrite app_comm_cons, be_value_app, Hv. cbn [be_value].
      rewrite to_N_byte_of by exact Hm. lia.
    + exact Hb.
    + cbn [length] in *. rewrite length_app. cbn [length]. lia.
Qed.

Lemma be_bytes_spec (n : N) :
  be_value (be_bytes n) 0 = n
  /\ (N.of_nat (length (be_bytes n)) * 8 <= N.log2 n + 8)%N
  /\ match be_bytes n with
     | [] => n = 0%N
     | b :: _ => Byte.to_N b <> 0%N
     end.
Proof.
  destruct n as [|p]; [cbn; repeat split; lia|].
  unfold be_bytes.
  destruct (be_pos_spec (S (N.to_nat (N.log2 (N.pos p)))) p [])
    as (b & ds & E & Hv & Hb & Hlen); [lia|].
  rewrite E, app_nil_r. repeat split; assumption.
Qed.

Lemma be_bytes_nonzero (n : N) : (0 < n)%N -> be_bytes n <> [].
Proof.
  intros Hn E. destruct (be_bytes_spec n) as (_ & _ & H).
  rewrite E in H. lia.
Qed.

(** A length below 2^64 takes at most eight bytes. *)
Lemma be_bytes_length (n : N) :
  (n < 2 ^ 64)%N -> (length (be_bytes n) <= 8)%nat.
Proof.
  intros Hn. destruct (be_bytes_spec n) as (_ & H & _).
  destruct (N.eq_dec n 0%N) as [-> | Hz]; [cbn; lia|].
  assert (N.log2 n < 64)%N by (apply N.log2_lt_pow2; lia). lia.
Qed.

Lemma payload_app (s rest : list byte) :
  payload (length s) (s ++ rest) = Some (s, rest).
Proof.
  unfold payload. rewrite length_app.
  destruct (Nat.leb_spec (length s) (length s + length rest)); [|lia].
  now rewrite take_app_length, drop_app_length.
Qed.

Lemma long_length_app (len : nat) (rest : list byte) :
  (56 <= len)%nat ->
  long_length (length (be_bytes (N.of_nat len)))
    (be_bytes (N.of_nat len) ++ rest)
  = Some (len, rest).
Proof.
  intros Hlen. unfold long_length. rewrite payload_app.
  destruct (be_bytes_spec (N.of_nat len)) as (Hv & _ & Hb).
  destruct (be_bytes (N.of_nat len)) as [|b l]; [lia|].
  rewrite Hv. apply eqb_x00 in Hb. rewrite Hb. cbn [orb].
  destruct (N.ltb_spec (N.of_nat len) 56); [lia|].
  now rewrite Nat2N.id.
Qed.

Lemma header_nonempty (len : nat) (offset : N) : header len offset <> [].
Proof. unfold header. now destruct (len <? 56)%nat. Qed.

Lemma encode_nonempty (i : item) : encode i <> [].
Proof.
  destruct i as [b | l]; cbn [encode].
  - destruct b as [|x [|y b]];
      try (destruct (Byte.to_N x <? 128)%N); try discriminate;
      intros E; apply app_eq_nil in E as [E _];
      now apply header_nonempty in E.
  - intros E. apply app_eq_nil in E as [E _]. now apply header_nonempty in E.
Qed.

(** The two shapes of a header, as [decode] meets them: one byte below
    the long range, or the long marker and the big-endian length. *)
Lemma header_cases (len : nat) (offset : N) :
  (N.of_nat len < 2 ^ 64)%N -> (offset + 63 < 256)%N ->
  ((len < 56)%nat
   /\ exists b, header len offset = [b]
                /\ Byte.to_N b = (offset + N.of_nat len)%N)
  \/ ((56 <= len)%nat
      /\ exists b, header len offset = b :: be_bytes (N.of_nat len)
                   /\ Byte.to_N b
                      = (offset + 55
                         + N.of_nat (length (be_bytes (N.of_nat len))))%N
                   /\ (1 <= length (be_bytes (N.of_nat len)) <= 8)%nat).
Proof.
  intros Hfit Hoff. unfold header.
  destruct (Nat.ltb_spec len 56) as [Hl | Hl].
  - left. split; [exact Hl|]. eexists. split; [reflexivity|].
    apply to_N_byte_of. lia.
  - right. split; [exact Hl|].
    pose proof (be_bytes_length _ Hfit) as H8.
    pose proof (be_bytes_nonzero (N.of_nat len) ltac:(lia)) as Hnz.
    destruct (be_bytes (N.of_nat len)) as [|b0 l0] eqn:E; [congruence|].
    eexists. split; [reflexivity|]. cbn [length] in *.
    split; [apply to_N_byte_of; lia | lia].
Qed.

Lemma decode_S (fuel : nat) (b : byte) (rest : list byte) :
  decode (S fuel) (b :: rest)
  = let n := Byte.to_N b in
    if (n <? 128)%N then Some (Str [b], rest)
    else if (n <? 184)%N then
      match payload (N.to_nat (n - 128)) rest with
      | Some ([x], rest') =>
          if (Byte.to_N x <? 128)%N then None else Some (Str [x], rest')
      | Some (s, rest') => Some (Str s, rest')
      | None => None
      end
    else if (n <? 192)%N then
      match long_length (N.to_nat (n - 183)) rest with
      | Some (len, rest') =>
          match payload len rest' with
          | Some (s, rest'') => Some (Str s, rest'')
          | None => None
          end
      | None => None
      end
    else
      let body :=
        if (n <? 248)%N then payload (N.to_nat (n - 192)) rest
        else match long_length (N.to_nat (n - 247)) rest with
             | Some (len, rest') => payload len rest'
             | None => None
             end in
      match body with
      | Some (s, rest') =>
          match decode_seq (decode fuel) (length s) s with
          | Some l => Some (Lst l, rest')
          | None => None
          end
      | None => None
      end.
Proof. reflexivity. Qed.

(** Decides the range tests of [decode] from what is known of the first
    byte. *)
Ltac ranges :=
  repeat match goal with
    | |- context [(?a <? ?b)%N] => destruct (N.ltb_spec a b); try lia
    end.

Lemma decode_Str (fuel : nat) (b rest : list byte) :
  (N.of_nat (length b) < 2 ^ 64)%N ->
  decode (S fuel) (encode (Str b) ++ rest) = Some (Str b, rest).
Proof.
  intros Hfit. cbn [encode].
  assert (decode (S fuel) ((header (length b) 128 ++ b) ++ rest)
          = Some (Str b, rest)
          \/ exists x, b = [x] /\ (Byte.to_N x < 128)%N) as [H | (x & -> & Hx)].
  { destruct (header_cases (length b) 128 Hfit ltac:(lia))
      as [(Hl & hb & -> & Hb) | (Hl & hb & -> & Hb & Hll)].
    - cbn [app]. rewrite decode_S. cbv zeta. rewrite Hb. ranges.
      replace (N.to_nat (128 + N.of_nat (length b) - 128)) with (length b)
        by lia.
      rewrite payload_app.
      destruct b as [|x [|y b]]; try (now left).
      destruct (N.ltb_spec (Byte.to_N x) 128); [right; eauto | now left].
    - left. cbn [app]. rewrite <- app_assoc, decode_S. cbv zeta.
      rewrite Hb. ranges.
      replace (N.to_nat (128 + 55
                         + N.of_nat (length (be_bytes (N.of_nat (length b))))
                         - 183))
        with (length (be_bytes (N.of_nat (length b)))) by lia.
      rewrite long_length_app by exact Hl. now rewrite payload_app. }
  - destruct b as [|x [|y b]]; try exact H.
    destruct (Byte.to_N x <? 128)%N eqn:E; [|exact H].
    cbn [app]. rewrite decode_S. cbv zeta. now rewrite E.
  - destruct (N.ltb_spec (Byte.to_N x) 128); [|lia].
    cbn [app]. rewrite decode_S. cbv zeta.
    destruct (N.ltb_spec (Byte.to_N x) 128); [reflexivity | lia].
Qed.

Lemma decode_Lst (fuel : nat) (l : list item) (rest : list byte) :
  (N.of_nat (length (concat (map encode l))) < 2 ^ 64)%N ->
  decode_seq (decode fuel) (length (concat (map encode l)))
    (concat (map encode l)) = Some l ->
  decode (S fuel) (encode (Lst l) ++ rest) = Some (Lst l, rest).
Proof.
  intros Hfit Hseq. cbn [encode].
  set (s := concat (map encode l)) in *.
  destruct (header_cases (length s) 192 Hfit ltac:(lia))
    as [(Hl & hb & -> & Hb) | (Hl & hb & -> & Hb & Hll)].
  - cbn [app]. rewrite decode_S. cbv zeta. rewrite Hb. ranges.
    replace (N.to_nat (192 + N.of_nat (length s) - 192)) with (length s)
      by lia.
    rewrite payload_app. now rewrite Hseq.
  - cbn [app]. rewrite <- app_assoc, decode_S. cbv zeta. rewrite Hb. ranges.
    replace (N.to_nat (192 + 55
                       + N.of_nat (length (be_bytes (N.of_nat (length s))))
                       - 247))
      with (length (be_bytes (N.of_nat (length s)))) by lia.
    rewrite long_length_app by exact Hl. rewrite payload_app.
    now rewrite Hseq.
Qed.

Lemma concat_encode_length (l : list item) :
  (length l <= length (concat (map encode l)))%nat.
Proof.
  induction l as [|x l IH]; [reflexivity|].
  cbn [map concat length]. rewrite length_app.
  pose proof (encode_nonempty x) as Hx.
  destruct (encode x); [congruence | cbn [length]; lia].
Qed.

Lemma decode_seq_encode (dec : list byte -> option (item * list byte))
    (l : list item) (n : nat) :
  (forall x (rest : list byte),
      In x l -> dec (encode x ++ rest)%list = Some (x, rest)) ->
  (length l <= n)%nat ->
  decode_seq dec n (concat (map encode l)) = Some l.
Proof.
  revert n; induction l as [|x l IH]; intros n Hdec Hn.
  - now destruct n.
  - destruct n as [|n]; [cbn [length] in Hn; lia|].
    cbn [map concat].
    pose proof (Hdec x (concat (map encode l)) (or_introl eq_refl)) as Hx.
    pose proof (encode_nonempty x) as Hne.
    destruct (encode x) as [|b e] eqn:E; [congruence|].
    cbn [app decode_seq]. cbn [app] in Hx. rewrite Hx.
    rewrite IH; [reflexivity | | cbn [length] in Hn; lia].
    intros y rest Hy. apply Hdec. now right.
Qed.

Lemma height_In (x : item) (l : list item) :
  In x l ->
  (height x <= fold_right (fun x acc => Nat.max (height x) acc) 0 l)%nat.
Proof.
  induction l as [|y l IH]; [intros []|].
  cbn [fold_right]. intros [-> | H]; [lia|]. apply IH in H. lia.
Qed.

Lemma fits_In (x : item) (l : list item) :
  In x l -> fold_right (fun x acc => fits x /\ acc) True l -> fits x.
Proof.
  induction l as [|y l IH]; [intros []|].
  cbn [fold_right]. intros [-> | H] [Hy Hl]; [exact Hy | now apply IH].
Qed.

(** Decoding what was encoded gives the item back and leaves what came
    after it, with fuel for the nesting of the item. *)
Lemma decode_encode (fuel : nat) (i : item) (rest : list byte) :
  (height i <= fuel)%nat -> fits i ->
  decode fuel (encode i ++ rest) = Some (i, rest).
Proof.
  revert i rest; induction fuel as [|fuel IH]; intros i rest Hh Hfit.
  - destruct i; cbn [height] in Hh; lia.
  - destruct i as [b | l].
    + now apply decode_Str.
    + destruct Hfit as [Hlen Hall]. cbn [height] in Hh.
      apply decode_Lst; [exact Hlen|].
      apply decode_seq_encode; [|apply concat_encode_length].
      intros x rest' Hx. apply IH.
      * pose proof (height_In x l Hx). lia.
      * now apply (fits_In x l).
Qed.

Lemma height_le_length (n : nat) (i : item) :
  (height i <= n)%nat -> (height i <= length (encode i))%nat.
Proof.
  revert i; induction n as [|n IH]; intros i Hn.
  - destruct i; cbn [height] in Hn; lia.
  - destruct i as [b | l].
    + pose proof (encode_nonempty (Str b)) as Hne. cbn [height].
      destruct (encode (Str b)); [congruence | cbn [length]; lia].
    + cbn [height encode] in *. rewrite length_app.
      pose proof (header_nonempty (length (concat (map encode l))) 192) as Hh.
      destruct (header (length (concat (map encode l))) 192) as [|hb hs];
        [congruence|].
      cbn [length].
      enough (fold_right (fun x acc => Nat.max (height x) acc) 0%nat l
              <= length (concat (map encode l)))%nat by lia.
      assert (forall x, In x l -> height x <= length (encode x))%nat as Hall.
      { intros x Hx. apply IH. pose proof (height_In x l Hx). lia. }
      clear -Hall. induction l as [|x l IHl]; [cbn; lia|].
      cbn [fold_right map concat]. rewrite length_app.
      pose proof (Hall x (or_introl eq_refl)).
      assert (fold_right (fun x acc => Nat.max (height x) acc) 0%nat l
              <= length (concat (map encode l)))%nat
        by (apply IHl; intros y Hy; apply Hall; now right).
      lia.
Qed.

Lemma uint64Of_be_bytes (g : N) :
  (g < 2 ^ 64)%N -> uint64Of (Str (be_bytes g)) = Some g.
Proof.
  intros Hg. unfold uint64Of.
  pose proof (be_bytes_length g Hg) as Hlen.
  destruct (be_bytes_spec g) as (Hv & _ & Hb).
  destruct (be_bytes g) as [|b l]; [now subst|].
  apply eqb_x00 in Hb. rewrite Hb. cbn [orb].
  destruct (Nat.ltb_spec 8 (length (b :: l))); [lia|]. now rewrite Hv.
Qed.

Lemma fixedStr_Str (len : nat) (b : list byte) :
  length b = len -> fixedStr len (Str b) = Some b.
Proof. intros <-. unfold fixedStr. now rewrite Nat.eqb_refl. Qed.

Lemma mapM_fixedStr (len : nat) (ts : list (list byte)) :
  Forall (fun t => length t = len) ts ->
  mapM (fixedStr len) (map Str ts) = Some ts.
Proof.
  induction 1 as [|t ts Ht _ IH]; [reflexivity|].
  cbn [map mapM]. rewrite (fixedStr_Str len t Ht). cbn. now rewrite IH.
Qed.

Lemma logOf_logItem (l : Log) : wfLog l -> logOf (logItem l) = Some l.
Proof.
  intros [Ha Ht]. destruct l as [a ts d]. cbn [logItem logOf LogAddress
    Topics Data] in *.
  now rewrite (fixedStr_Str 20 a Ha), (mapM_fixedStr 32 ts Ht).
Qed.

Lemma mapM_logOf (ls : list Log) :
  Forall wfLog ls -> mapM logOf (map logItem ls) = Some ls.
Proof.
  induction 1 as [|l ls Hl _ IH]; [reflexivity|].
  cbn [map mapM]. rewrite (logOf_logItem l Hl). cbn. now rewrite IH.
Qed.

Lemma receiptOf_receiptItem (x : receiptRLP Bloom Log) :
  wfReceipt x -> receiptOf (receiptItem x) = Some x.
Proof.
  intros (Hb & Hg & Hl & _). destruct x as [s g b ls].
  cbn [receiptItem receiptOf PosgdaateOrStatus rlpCumulativeGasUsed rlpBloom
       rlpLogs] in *.
  now rewrite (uint64Of_be_bytes g Hg), (fixedStr_Str 256 b Hb),
    (mapM_logOf ls Hl).
Qed.

(** The rlp model returns the struct it encoded, for every receipt whose
    arrays have their lengths. *)
Lemma Decode_Encode (x : receiptRLP Bloom Log) :
  wfReceipt x ->
  exists w, Encode x = Ok w /\ Decode w = Ok x.
Proof.
  intros W. exists (encode (receiptItem x)). split; [reflexivity|].
  unfold Decode.
  pose proof (decode_encode (S (length (encode (receiptItem x))))
                (receiptItem x) []) as H.
  rewrite app_nil_r in H. rewrite H.
  - now rewrite (receiptOf_receiptItem x W).
  - pose proof (height_le_length _ (receiptItem x) (Nat.le_refl _)). lia.
  - apply W.
Qed.

End RLPFacts.

Module ReceiptRLPFacts.
Import Common Types ReceiptFacts RLPFacts.

(** With the rlp model in place of the package: the round trip of the
    consensus encoding for every receipt of the two shapes, whatever the
    receiver held. *)
Lemma rlp_receipt_roundtrip
    (r r0 : Receipt RLP.Bloom RLP.Log RLP.Address) :
  Posgdaate r = [] \/ length (Posgdaate r) = 32 ->
  Status r = ReceipgdaatusFailed \/ Status r = ReceipgdaatusSuccessful ->
  RLP.wfReceipt (consensus r) ->
  exists w r',
    EncodeRLP RLP.Encode r = Ok w
    /\ DecodeRLP RLP.Decode r0 w = Ok r'
    /\ CumulativeGasUsed r' = CumulativeGasUsed r
    /\ Bloom_ r' = Bloom_ r
    /\ Logs r' = Logs r
    /\ (Posgdaate r = [] -> Status r' = Status r)
    /\ (length (Posgdaate r) = 32 -> Posgdaate r' = Posgdaate r).
Proof.
  intros Hp Hs W.
  destruct (Decode_Encode (consensus r) W) as (w & He & Hd).
  exists w. eexists. split; [exact He|].
  split; [apply (DecodeRLP_consensus _ _ _ RLP.Decode r r0 w Hp Hs Hd)|].
  destruct Hp as [Hp | Hp]; rewrite Hp; cbn [length Nat.eqb];
    cbn [Posgdaate Status CumulativeGasUsed Bloom_ Logs];
    (split; [reflexivity|]); (split; [reflexivity|]);
    (split; [reflexivity|]); split; intros E; try reflexivity.
  - discriminate E.
  - rewrite E in Hp. discriminate Hp.
Qed.

End ReceiptRLPFacts.

Module ReceiptExamples.
Import Common Types Fixtures ReceiptFacts.

(** The rlp model returns the struct it encoded, for both receipts. *)
Example rlp_roundtrip_rootReceipt :
  match EncodeRLP RLP.Encode rootReceipt with
  | Ok w => RLP.Decode w = Ok (consensus rootReceipt) /\ length w = 361
  | Err _ => False
  end.
Proof. vm_compute. split; reflexivity. Qed.

Example rlp_roundtrip_statusReceipt :
  match EncodeRLP RLP.Encode statusReceipt with
  | Ok w => RLP.Decode w = Ok (consensus statusReceipt)
  | Err _ => False
  end.
Proof. vm_compute. reflexivity. Qed.

(** Input that is not the encoding of a receipt is refused. *)
Example rlp_refuses_malformed :
  DecodeRLP RLP.Decode zeroReceipt [xc1; x80]
  = Err (RlpError "rlp: input does not fit a receipt")
  /\ DecodeRLP RLP.Decode zeroReceipt [x81; x01]
     = Err (RlpError "rlp: malformed input").
Proof. vm_compute. split; reflexivity. Qed.

(** A status item that is neither a status code nor 32 bytes long is
    refused by [segdaatus]. *)
Example segdaatus_refuses_other_lengths :
  segdaatus zeroReceipt [x02] = Err (InvalidReceiptStatus [x02]).
Proof. reflexivity. Qed.

(** A receipt with a post-state root keeps the root through the round
    trip; its status code is not part of the encoding and is the
    receiver's afterwards. *)
Example rootReceipt_roundtrip :
  match EncodeRLP RLP.Encode rootReceipt with
  | Ok w =>
      DecodeRLP RLP.Decode zeroReceipt w
      = Ok (mkReceipt (hash_bytes genesis) 0 21000 bloom0 [transferLog]
              zeroHash address0 0)
  | Err _ => False
  end.
Proof. vm_compute. reflexivity. Qed.

(** Outside the two shapes of the post-state the round trip is lost: a
    post-state of five bytes is refused by [segdaatus], and a status code
    other than the two constants comes back as successful. *)
Example short_root_refused :
  match EncodeRLP RLP.Encode
          (mkReceipt [x01; x02; x03; x04; x05] 1 0 bloom0 [] zeroHash
             address0 0) with
  | Ok w =>
      DecodeRLP RLP.Decode zeroReceipt w
      = Err (InvalidReceiptStatus [x01; x02; x03; x04; x05])
  | Err _ => False
  end.
Proof. vm_compute. reflexivity. Qed.

Example other_status_becomes_successful :
  match EncodeRLP RLP.Encode
          (mkReceipt [] 2 0 bloom0 [] zeroHash address0 0) with
  | Ok w =>
      DecodeRLP RLP.Decode zeroReceipt w
      = Ok (mkReceipt [] ReceipgdaatusSuccessful 0 bloom0 [] zeroHash
              address0 0)
  | Err _ => False
  end.
Proof. vm_compute. reflexivity. Qed.

(** Decoding into a receiver that holds a post-state: the status code
    of the receipt is read, the post-state of the receiver stays, and
    the decoded receipt no longer has the consensus encoding of the
    original. *)
Example used_receiver_keeps_post_state :
  (Posgdaate statusReceipt = []
   /\ Status statusReceipt = ReceipgdaatusSuccessful)
  /\ exists w r',
       EncodeRLP RLP.Encode statusReceipt = Ok w
       /\ DecodeRLP RLP.Decode rootReceipt w = Ok r'
       /\ Posgdaate r' = hash_bytes genesis
       /\ Posgdaate r' <> Posgdaate statusReceipt
       /\ statusEncoding r' <> statusEncoding statusReceipt
       /\ consensus r' <> consensus statusReceipt.
Proof.
  split; [split; reflexivity|].
  eexists _, _. split; [reflexivity|]. split; [vm_compute; reflexivity|].
  cbn [Posgdaate]. split; [reflexivity|].
  split; [discriminate|]. split; [discriminate|].
  intros E. apply (f_equal PosgdaateOrStatus) in E. discriminate E.
Qed.

(** The rlp model keeps the law of the package for the receipts whose
    arrays have their lengths. *)
Lemma RLP_law (x : receiptRLP RLP.Bloom RLP.Log) (bytes : list byte) :
  RLP.wfReceipt x -> RLP.Encode x = Ok bytes -> RLP.Decode bytes = Ok x.
Proof.
  intros W E. destruct (RLPFacts.Decode_Encode x W) as (w & He & Hd).
  rewrite E in He. now injection He as <-.
Qed.

Lemma statusReceipt_wf : RLP.wfReceipt (consensus statusReceipt).
Proof.
  split; [reflexivity|]. split; [reflexivity|]. split.
  - repeat constructor.
  - vm_compute. repeat split; reflexivity.
Qed.

Lemma receipt_consensus_roundtrip_witness :
  exists w r',
    EncodeRLP RLP.Encode statusReceipt = Ok w
    /\ DecodeRLP RLP.Decode zeroReceipt w = Ok r'
    /\ Status r' = ReceipgdaatusSuccessful
    /\ Posgdaate r' = []
    /\ CumulativeGasUsed r' = 90000%N
    /\ Logs r' = [transferLog; transferLog]
    /\ consensus r' = consensus statusReceipt.
Proof.
  assert (EncodeRLP RLP.Encode statusReceipt
          = Ok (RLP.encode (RLP.receiptItem (consensus statusReceipt))))
    as He by reflexivity.
  destruct (receipt_consensus_roundtrip RLP.Bloom RLP.Log RLP.Address
              RLP.Encode RLP.Decode RLP.wfReceipt statusReceipt zeroReceipt
              _ RLP_law statusReceipt_wf (or_introl eq_refl)
              (or_intror eq_refl) He)
    as (r' & Hr & Hg & _ & Hl & Hs & _ & Hc & _).
  exists (RLP.encode (RLP.receiptItem (consensus statusReceipt))), r'.
  split; [exact He|]. split; [exact Hr|].
  destruct (Hs eq_refl) as [Hs1 Hs2].
  destruct (Hc (or_introl eq_refl)) as [_ Hc2].
  split; [exact Hs1|]. split; [exact Hs2|]. split; [exact Hg|].
  split; [exact Hl|]. exact Hc2.
Defined.

End ReceiptExamples.

Module GdaFacts.
Import Gda.

Section New.
Variable LightSync : Z.
Variable IsValid : Z -> bool.
Variable BlockChainVersion : Z.

Lemma New_light (w : World) (config : Config) (done : list effect) :
  SyncMode config = LightSync ->
  New LightSync IsValid BlockChainVersion w config done
  = ((None, Some ErrLightSync), done).
Proof. intros E. unfold New. rewrite E, Z.eqb_refl. reflexivity. Qed.

Lemma New_invalid (w : World) (config : Config) (done : list effect) :
  IsValid (SyncMode config) = false ->
  exists e,
    New LightSync IsValid BlockChainVersion w config done
    = ((None, Some e), done).
Proof.
  intros E. unfold New.
  destruct (Z.eqb (SyncMode config) LightSync); [eauto|].
  rewrite E. cbn [negb]. eauto.
Qed.

Lemma New_opens_database (w : World) (config : Config)
    (done : list effect) :
  SyncMode config <> LightSync -> IsValid (SyncMode config) = true ->
  exists r more,
    New LightSync IsValid BlockChainVersion w config done
    = (r, (done ++ OpenDatabase "chaindata" :: more)%list).
Proof.
  intros Hl Hv. unfold New, CreateDB.
  destruct (Z.eqb_spec (SyncMode config) LightSync); [contradiction|].
  rewrite Hv. cbn [negb].
  destruct (openDatabase w).
  { eexists _, []. reflexivity. }
  destruct (genesisErr w);
    repeat match goal with
      | |- context [if ?b then _ else _] => destruct b
      | |- context [match ?o with Some _ => _ | None => _ end] =>
          destruct o
      end;
    rewrite <- ?app_assoc; cbn [app]; eexists _, _; reflexivity.
Qed.

(** C10: for every configuration whose sync mode is light sync, [New]
    returns an error and a nil service without any effect on the world
    (no database opened, no chain state created); a sync mode that is
    not valid is rejected with an error in the same way. On every
    other configuration opening the database is the first thing [New]
    does. *)
Theorem New_rejects_light_and_invalid_sync
    (w : World) (config : Config) (done : list effect) :
  (SyncMode config = LightSync ->
   New LightSync IsValid BlockChainVersion w config done
   = ((None, Some ErrLightSync), done))
  /\ (IsValid (SyncMode config) = false ->
      exists e,
        New LightSync IsValid BlockChainVersion w config done
        = ((None, Some e), done))
  /\ (SyncMode config <> LightSync -> IsValid (SyncMode config) = true ->
      exists r more,
        New LightSync IsValid BlockChainVersion w config done
        = (r, (done ++ OpenDatabase "chaindata" :: more)%list)).
Proof.
  split; [apply New_light|]. split; [apply New_invalid|].
  apply New_opens_database.
Qed.
End New.

End GdaFacts.

Module GdaExamples.
Import Gda GdaFacts Fixtures.

Example New_full_sync :
  New LightSync IsValid 3 healthy (mkConfig 0 false 1) []
  = ((Some (mkGdachain (mkConfig 0 false 1) 1), None),
     [OpenDatabase "chaindata"; UpgradeDeduplicateData; SetupGenesisBlock;
      CreateConsensusEngine; NewBloomIndexer; WriteBlockChainVersion 3;
      NewBlockChain; StartBloomIndexer; NewTxPool; NewProtocolManager;
      NewMiner; NewOracle]).
Proof. reflexivity. Qed.

Lemma New_rejects_light_and_invalid_sync_witness :
  New LightSync IsValid 3 healthy (mkConfig 2 false 1) []
  = ((None, Some ErrLightSync), [])
  /\ (exists e,
         New LightSync IsValid 3 healthy (mkConfig 7 false 1) []
         = ((None, Some e), [])).
Proof.
  split.
  - apply (proj1 (New_rejects_light_and_invalid_sync LightSync IsValid 3
                    healthy (mkConfig 2 false 1) [])).
    reflexivity.
  - apply (proj1 (proj2 (New_rejects_light_and_invalid_sync LightSync
                           IsValid 3 healthy (mkConfig 7 false 1) []))).
    reflexivity.
Defined.

End GdaExamples.

Module RetrieveFacts.
Import Retrieve.

Section Core.
Variable capable : Request -> Peer -> bool.
Variable maxOutstanding : nat.
Variable retryBudget : nat.
Variable Verify : Reply -> Root -> option Value.

Local Abbreviation canSend := (canSend capable maxOutstanding).
Local Abbreviation select := (select capable maxOutstanding).
Local Abbreviation step := (step capable maxOutstanding Verify).
Local Abbreviation run := (run capable maxOutstanding Verify).

(** Splits [step] into the cases of its definition. *)
Ltac step_cases r ev :=
  unfold Retrieve.step, failAttempt, failTerminal, setState;
  destruct (state r) eqn:?; destruct ev;
  repeat match goal with
    | |- context [Retrieve.select ?c ?m ?r ?ps] =>
        destruct (Retrieve.select c m r ps) eqn:?
    | |- context [N.eqb ?a ?b] => destruct (N.eqb_spec a b)
    | |- context [match ?o with Some _ => _ | None => _ end] =>
        destruct o eqn:?
    | |- context [match budget ?r with O => _ | S _ => _ end] =>
        destruct (budget r) eqn:?
    | |- context [couldRetry ?c ?r ?ps] => destruct (couldRetry c r ps) eqn:?
    end;
  cbn [fst snd request excluded state budget waiting];
  try match goal with H : state r = _ |- _ => rewrite ?H end.

Lemma In_deliverAll (r : Retrieval) (o o' : result Error Value)
    (c : Caller) (k : Key) :
  In (Deliver c k o) (deliverAll r o')
  <-> k = key (request r) /\ o = o' /\ In c (waiting r).
Proof.
  unfold deliverAll. rewrite in_map_iff. split.
  - intros (c' & [= -> -> ->] & HIn). auto.
  - intros (-> & -> & HIn). eauto.
Qed.

(** Splits a membership in the actions of a step. *)
Ltac in_actions H :=
  repeat match type of H with
    | In _ [] => destruct H
    | In _ (_ :: _) => destruct H as [H | H]; [try discriminate H|]
    | In (Deliver _ _ _) (deliverAll _ _) =>
        apply In_deliverAll in H as (? & ? & ?)
    | In _ (deliverAll _ _) =>
        unfold deliverAll in H; apply in_map_iff in H as (? & ? & ?);
        discriminate
    end.

Lemma fold_better_In (ps : list Peer) (p0 : Peer) :
  In (fold_left better ps p0) (p0 :: ps).
Proof.
  revert p0; induction ps as [|q ps IH]; intros p0; cbn [fold_left].
  - now left.
  - destruct (IH (better p0 q)) as [E | HIn].
    + unfold better in E at 1. destruct (quality p0 <? quality q)%N.
      * right. left. exact E.
      * left. exact E.
    + right. right. exact HIn.
Qed.

Lemma select_Some (r : Retrieval) (peers : list Peer) (p : Peer) :
  select r peers = Some p -> In p peers /\ canSend r p = true.
Proof.
  unfold Retrieve.select.
  destruct (List.filter (canSend r) peers) as [|p0 ps] eqn:F; [discriminate|].
  intros [= <-].
  apply filter_In. rewrite F. apply fold_better_In.
Qed.

Lemma select_not_excluded (r : Retrieval) (peers : list Peer) (p : Peer) :
  select r peers = Some p -> peerId p ∉ excluded r.
Proof.
  intros H. apply select_Some in H as [_ H]. unfold Retrieve.canSend in H.
  apply andb_true_iff in H as [_ H]. now apply bool_decide_eq_true in H.
Qed.

Lemma select_None (r : Retrieval) (peers : list Peer) :
  select r peers = None <-> forall p, In p peers -> canSend r p = false.
Proof.
  unfold Retrieve.select. split.
  - destruct (List.filter (canSend r) peers) as [|p0 ps] eqn:F; [|discriminate].
    intros _ p Hp. destruct (canSend r p) eqn:C; [|reflexivity].
    assert (In p (List.filter (canSend r) peers)) as HIn
      by (apply filter_In; split; assumption).
    rewrite F in HIn. destruct HIn.
  - intros H.
    destruct (List.filter (canSend r) peers) as [|p0 ps] eqn:F; [reflexivity|].
    assert (In p0 (List.filter (canSend r) peers)) as HIn
      by (rewrite F; now left).
    apply filter_In in HIn as [HIn C]. rewrite (H p0 HIn) in C. discriminate.
Qed.

Lemma step_request (r : Retrieval) (ev : Event) :
  request (fst (step r ev)) = request r.
Proof. step_cases r ev; reflexivity. Qed.

Lemma step_waiting (r : Retrieval) (ev : Event) :
  waiting (fst (step r ev)) = waiting r.
Proof. step_cases r ev; reflexivity. Qed.

Lemma step_excluded (r : Retrieval) (ev : Event) :
  excluded r ⊆ excluded (fst (step r ev)).
Proof. step_cases r ev; set_solver. Qed.

Lemma deliveries_app (k : Key) (a1 a2 : list Action) :
  deliveries k (a1 ++ a2) = (deliveries k a1 ++ deliveries k a2)%list.
Proof.
  induction a1 as [|a a1 IH]; [reflexivity|].
  destruct a; cbn [deliveries app]; try exact IH.
  destruct (decide (k0 = k)); [|exact IH]. cbn [app]. now rewrite IH.
Qed.

Lemma deliveries_deliverAll (r : Retrieval) (o : result Error Value) :
  deliveries (key (request r)) (deliverAll r o)
  = map (fun c => (c, o)) (waiting r).
Proof.
  unfold deliverAll.
  induction (waiting r) as [|c l IH]; [reflexivity|].
  cbn [map deliveries]. rewrite decide_True by reflexivity. now rewrite IH.
Qed.

Lemma deliveries_deliverAll_ne (r : Retrieval) (o : result Error Value)
    (k : Key) :
  key (request r) <> k -> deliveries k (deliverAll r o) = [].
Proof.
  intros Hk. unfold deliverAll.
  induction (waiting r) as [|c l IH]; [reflexivity|].
  cbn [map deliveries]. rewrite decide_False by exact Hk. exact IH.
Qed.

(** What [step] releases: only to waiting callers, only when it reaches a
    terminal state from a state that is not terminal, and only the outcome
    of that state, which is an error or a verified value. *)
Lemma step_deliver (r : Retrieval) (ev : Event) (c : Caller) (k : Key)
    (o : result Error Value) :
  In (Deliver c k o) (snd (step r ev)) ->
  k = key (request r)
  /\ In c (waiting r)
  /\ terminal (state r) = false
  /\ outcomeOf (state (fst (step r ev))) = Some o
  /\ releasable Verify (root (request r)) o.
Proof.
  step_cases r ev; cbn [terminal outcomeOf]; intros H; in_actions H;
    subst; repeat split; try assumption; try reflexivity.
  eexists; eassumption.
Qed.

(** A value is released only by the verification step, and it is what
    the verification collaborator made of the reply under validation. *)
Lemma step_deliver_value (r : Retrieval) (ev : Event) (c : Caller) (k : Key)
    (v : Value) :
  In (Deliver c k (Ok v)) (snd (step r ev)) ->
  exists p data,
    state r = Validating p (Some data) /\ ev = EvVerify
    /\ Verify data (root (request r)) = Some v.
Proof.
  step_cases r ev; intros H; in_actions H; try discriminate.
  match goal with E : Ok _ = Ok _ |- _ => injection E as -> end.
  eexists _, _. repeat split; eassumption.
Qed.

(** A step that leaves the Retrieval live releases nothing. *)
Lemma step_live_silent (r : Retrieval) (ev : Event) (k : Key) :
  terminal (state (fst (step r ev))) = false ->
  deliveries k (snd (step r ev)) = [].
Proof. step_cases r ev; cbn [terminal]; try discriminate; reflexivity. Qed.

(** A step that ends a Retrieval releases one outcome, to every waiting
    caller. *)
Lemma step_ends (r : Retrieval) (ev : Event) :
  terminal (state r) = false ->
  terminal (state (fst (step r ev))) = true ->
  exists o,
    outcomeOf (state (fst (step r ev))) = Some o
    /\ deliveries (key (request r)) (snd (step r ev))
       = map (fun c => (c, o)) (waiting r).
Proof.
  step_cases r ev; cbn [terminal outcomeOf]; try discriminate; intros _ _;
    eexists; (split; [reflexivity|]);
    try apply deliveries_deliverAll.
Qed.

Lemma step_ends_other (r : Retrieval) (ev : Event) (k : Key) :
  key (request r) <> k -> deliveries k (snd (step r ev)) = [].
Proof.
  intros Hk.
  step_cases r ev; try reflexivity;
    try (apply deliveries_deliverAll_ne; exact Hk).
Qed.

(** Only a peer that is not excluded is dispatched to. *)
Lemma step_dispatch (r : Retrieval) (ev : Event) (p : PeerId)
    (req : Request) :
  In (Dispatch p req) (snd (step r ev)) ->
  (p ∉ excluded r) /\ req = request r /\ state r = Pending
  /\ state (fst (step r ev)) = Sent p.
Proof.
  step_cases r ev; intros H; in_actions H.
  injection H as <- <-. repeat split; try reflexivity.
  eapply select_not_excluded; eassumption.
Qed.

(** A reported failure puts the peer into the exclusion set. *)
Lemma step_failure (r : Retrieval) (ev : Event) (p : PeerId) :
  In (ReportFailure p) (snd (step r ev)) ->
  p ∈ excluded (fst (step r ev)).
Proof.
  step_cases r ev; intros H; in_actions H; injection H as <-; set_solver.
Qed.

(** A step into [Done] carries a verified value. *)
Lemma step_done (r : Retrieval) (ev : Event) (v : Value) :
  terminal (state r) = false ->
  state (fst (step r ev)) = Done v ->
  verified Verify (root (request r)) v.
Proof.
  step_cases r ev; cbn [terminal]; try discriminate; intros _ [= <-].
  eexists; eassumption.
Qed.

Lemma run_cons (r : Retrieval) (ev : Event) (evs : list Event) :
  run r (ev :: evs)
  = (fst (run (fst (step r ev)) evs),
     (snd (step r ev) ++ snd (run (fst (step r ev)) evs))%list).
Proof.
  cbn [Retrieve.run]. destruct (step r ev) as [r1 a1].
  cbn [fst snd]. destruct (run r1 evs). reflexivity.
Qed.

Lemma run_app (r : Retrieval) (e1 e2 : list Event) :
  run r (e1 ++ e2)
  = (fst (run (fst (run r e1)) e2),
     (snd (run r e1) ++ snd (run (fst (run r e1)) e2))%list).
Proof.
  revert r; induction e1 as [|ev e1 IH]; intros r.
  - cbn [app Retrieve.run fst snd]. now destruct (run r e2).
  - rewrite <- app_comm_cons, !run_cons, IH. cbn [fst snd].
    now rewrite app_assoc.
Qed.

Lemma run_request (r : Retrieval) (evs : list Event) :
  request (fst (run r evs)) = request r.
Proof.
  revert r; induction evs as [|ev evs IH]; intros r; [reflexivity|].
  rewrite run_cons. cbn [fst]. now rewrite IH, step_request.
Qed.

Lemma run_excluded (r : Retrieval) (evs : list Event) :
  excluded r ⊆ excluded (fst (run r evs)).
Proof.
  revert r; induction evs as [|ev evs IH]; intros r; [reflexivity|].
  rewrite run_cons. cbn [fst].
  etransitivity; [apply step_excluded | apply IH].
Qed.

Lemma run_dispatch (r : Retrieval) (evs : list Event) (p : PeerId)
    (req : Request) :
  In (Dispatch p req) (snd (run r evs)) -> p ∉ excluded r.
Proof.
  revert r; induction evs as [|ev evs IH]; intros r; [intros []|].
  rewrite run_cons. cbn [snd]. rewrite in_app_iff. intros [H | H].
  - now apply step_dispatch in H.
  - apply IH in H. pose proof (step_excluded r ev). set_solver.
Qed.

Lemma run_failure (r : Retrieval) (evs : list Event) (p : PeerId) :
  In (ReportFailure p) (snd (run r evs)) -> p ∈ excluded (fst (run r evs)).
Proof.
  revert r; induction evs as [|ev evs IH]; intros r; [intros []|].
  rewrite run_cons. cbn [fst snd]. rewrite in_app_iff. intros [H | H].
  - apply step_failure in H.
    pose proof (run_excluded (fst (step r ev)) evs). set_solver.
  - now apply IH.
Qed.

Lemma run_deliver (r : Retrieval) (evs : list Event) (c : Caller) (k : Key)
    (o : result Error Value) :
  In (Deliver c k o) (snd (run r evs)) ->
  k = key (request r) /\ In c (waiting r)
  /\ releasable Verify (root (request r)) o.
Proof.
  revert r; induction evs as [|ev evs IH]; intros r; [intros []|].
  rewrite run_cons. cbn [snd]. rewrite in_app_iff. intros [H | H].
  - apply step_deliver in H. tauto.
  - apply IH in H. now rewrite step_request, step_waiting in H.
Qed.

Local Abbreviation start := (start capable retryBudget).
Local Abbreviation ask := (ask capable retryBudget).
Local Abbreviation drive := (drive capable maxOutstanding Verify).
Local Abbreviation call := (call capable maxOutstanding retryBudget Verify).
Local Abbreviation calls := (calls capable maxOutstanding retryBudget Verify).
Local Abbreviation wellFormed := (wellFormed Verify).

Lemma root_key (req : Request) : snd (key req) = root req.
Proof. reflexivity. Qed.

Lemma start_cases (peers : list Peer) (req : Request) (c : Caller) :
  (existsb (capable req) peers = true
   /\ start peers req c = (mkRetrieval req ∅ Pending retryBudget [c], []))
  \/ (existsb (capable req) peers = false
      /\ start peers req c
         = (mkRetrieval req ∅ (FailedTerminal NoEligiblePeer) retryBudget [c],
            [Deliver c (key req) (Err NoEligiblePeer)])).
Proof.
  unfold Retrieve.start.
  destruct (existsb (capable req) peers); [left | right]; split; reflexivity.
Qed.

Lemma wellFormed_empty : wellFormed Retrieve.empty.
Proof.
  split; cbn [live cache done Retrieve.empty]; intros *;
    rewrite ?lookup_empty; try discriminate.
  intros [].
Qed.

Lemma wellFormed_ask (m : Manager) (peers : list Peer) (req : Request)
    (c : Caller) :
  wellFormed m -> wellFormed (ask m peers req c).
Proof.
  intros [Wk Wl Wf Wc Wd]. unfold Retrieve.ask.
  destruct (cache m !! key req) as [v|] eqn:Hc.
  { split; cbn [live cache done]; try assumption.
    intros c' k o. rewrite in_app_iff. intros [H | [[= <- <- <-] | []]].
    - eapply Wd; eassumption.
    - eapply Wc; eassumption. }
  destruct (live m !! key req) as [r|] eqn:Hl.
  { split; cbn [live cache done]; try assumption; intros k r'.
    - destruct (decide (key req = k)) as [<- | Hk].
      + rewrite lookup_insert_eq. intros [= <-]. cbn [request].
        eapply Wk; eassumption.
      + rewrite lookup_insert_ne by exact Hk. apply Wk.
    - destruct (decide (key req = k)) as [<- | Hk].
      + rewrite lookup_insert_eq. intros [= <-]. cbn [state].
        eapply Wl; eassumption.
      + rewrite lookup_insert_ne by exact Hk. apply Wl.
    - destruct (decide (key req = k)) as [<- | Hk].
      + intros _. exact Hc.
      + rewrite lookup_insert_ne by exact Hk. apply Wf. }
  destruct (start_cases peers req c) as [[_ ->] | [_ ->]];
    cbn [state terminal]; split; cbn [live cache done]; try assumption.
  - intros k r'. destruct (decide (key req = k)) as [<- | Hk].
    + rewrite lookup_insert_eq. now intros [= <-].
    + rewrite lookup_insert_ne by exact Hk. apply Wk.
  - intros k r'. destruct (decide (key req = k)) as [<- | Hk].
    + rewrite lookup_insert_eq. now intros [= <-].
    + rewrite lookup_insert_ne by exact Hk. apply Wl.
  - intros k r'. destruct (decide (key req = k)) as [<- | Hk].
    + intros _. exact Hc.
    + rewrite lookup_insert_ne by exact Hk. apply Wf.
  - intros c' k o. rewrite app_nil_r. apply Wd.
  - intros c' k o. rewrite in_app_iff. intros [H | [[= <- <- <-] | []]].
    + eapply Wd; eassumption.
    + exact I.
Qed.

Lemma wellFormed_drive (m : Manager) (k : Key) (ev : Event) :
  wellFormed m -> wellFormed (drive m k ev).
Proof.
  intros [Wk Wl Wf Wc Wd]. unfold Retrieve.drive.
  destruct (live m !! k) as [r|] eqn:Hl; [|split; assumption].
  pose proof (Wk _ _ Hl) as Hkey. pose proof (Wl _ _ Hl) as Hlive.
  pose proof (step_request r ev) as Hreq.
  pose proof (step_done r ev) as Hdone.
  pose proof (fun c k o => step_deliver r ev c k o) as Hdel.
  destruct (step r ev) as [r' acts]. cbn [fst snd] in *.
  assert (forall c k0 o, In (Deliver c k0 o) (done m ++ acts) ->
                         releasable Verify (snd k0) o) as Wd'.
  { intros c k0 o. rewrite in_app_iff. intros [H | H].
    - eapply Wd; eassumption.
    - apply Hdel in H as (-> & _ & _ & _ & H). exact H. }
  destruct (state r') eqn:Hs;
    try (split; cbn [live cache done]; try assumption; intros k0 r0;
         (destruct (decide (k = k0)) as [<- | Hk];
          [rewrite lookup_insert_eq; intros [= <-]
          |rewrite lookup_insert_ne by exact Hk]);
         [congruence | apply Wk | now rewrite Hs | apply Wl
         | eapply Wf; eassumption | apply Wf]).
  - (* Done *)
    split; cbn [live cache done]; try assumption; intros k0.
    + intros r0. rewrite lookup_delete_Some. intros [_ H]. eapply Wk, H.
    + intros r0. rewrite lookup_delete_Some. intros [_ H]. eapply Wl, H.
    + intros r0. rewrite lookup_delete_Some. intros [Hk H].
      rewrite lookup_insert_ne by exact Hk. eapply Wf, H.
    + intros v0. destruct (decide (k = k0)) as [<- | Hk].
      * rewrite lookup_insert_eq. intros [= <-].
        rewrite <- Hkey, root_key. now apply Hdone.
      * rewrite lookup_insert_ne by exact Hk. apply Wc.
  - (* FailedTerminal *)
    split; cbn [live cache done]; try assumption; intros k0 r0;
      rewrite lookup_delete_Some; intros [_ H].
    + eapply Wk, H.
    + eapply Wl, H.
    + eapply Wf, H.
Qed.

Lemma wellFormed_call (m : Manager) (c : Call) :
  wellFormed m -> wellFormed (call m c).
Proof.
  destruct c as [peers req caller | k ev | k]; cbn [Retrieve.call].
  - apply wellFormed_ask.
  - apply wellFormed_drive.
  - intros [Wk Wl Wf Wc Wd]. split; cbn [live cache done]; try assumption.
    + intros k0 r H. destruct (decide (k = k0)) as [<- | Hk].
      * apply lookup_delete_eq.
      * rewrite lookup_delete_ne by exact Hk. eapply Wf, H.
    + intros k0 v. rewrite lookup_delete_Some. intros [_ H]. eapply Wc, H.
Qed.

Lemma calls_app (m : Manager) (c1 c2 : list Call) :
  calls m (c1 ++ c2) = calls (calls m c1) c2.
Proof. unfold Retrieve.calls. apply fold_left_app. Qed.

Lemma wellFormed_calls (m : Manager) (cs : list Call) :
  wellFormed m -> wellFormed (calls m cs).
Proof.
  revert m; induction cs as [|c cs IH]; intros m W; [exact W|].
  cbn [Retrieve.calls fold_left]. apply IH, wellFormed_call, W.
Qed.

Lemma creations_app (k k' : Key) (ks : list Key) :
  creations k (ks ++ [k'])
  = (creations k ks + if decide (k' = k) then 1 else 0)%nat.
Proof.
  unfold creations. rewrite List.filter_app, length_app. cbn [List.filter].
  destruct (decide (k' = k)) as [-> | Hk].
  - now rewrite bool_decide_eq_true_2.
  - now rewrite bool_decide_eq_false_2.
Qed.

(** One call during the life of the Retrieval of [k]: an ask for [k]
    attaches its caller; nothing else touches the waiting callers, and no
    Retrieval is created and nothing released for [k]. *)
Lemma live_call (m : Manager) (c : Call) (k : Key) (r r1 : Retrieval) :
  wellFormed m ->
  live m !! k = Some r ->
  live (call m c) !! k = Some r1 ->
  waiting r1 = (waiting r ++ askers k [c])%list
  /\ excluded r ⊆ excluded r1
  /\ creations k (created (call m c)) = creations k (created m)
  /\ deliveries k (done (call m c)) = deliveries k (done m).
Proof.
  intros W Hl. destruct c as [peers req caller | k0 ev | k0];
    cbn [Retrieve.call askers].
  - (* Ask *)
    unfold Retrieve.ask. destruct (decide (key req = k)) as [-> | Hk].
    + rewrite (wf_fresh _ _ W _ _ Hl), Hl. cbn [live created done].
      rewrite lookup_insert_eq. intros [= <-]. cbn [waiting excluded].
      repeat split; reflexivity.
    + destruct (cache m !! key req) as [v|].
      { cbn [live created done]. rewrite Hl. intros [= <-].
        rewrite deliveries_app. cbn [deliveries].
        rewrite decide_False by exact Hk.
        rewrite !app_nil_r. repeat split; reflexivity. }
      destruct (live m !! key req) as [r0|].
      { cbn [live created done]. rewrite lookup_insert_ne by exact Hk.
        rewrite Hl. intros [= <-]. rewrite app_nil_r.
        repeat split; reflexivity. }
      destruct (start_cases peers req caller) as [[_ ->] | [_ ->]];
        cbn [state terminal live created done].
      * rewrite lookup_insert_ne by exact Hk. rewrite Hl. intros [= <-].
        rewrite creations_app, decide_False by exact Hk.
        rewrite !app_nil_r, Nat.add_0_r. repeat split; reflexivity.
      * rewrite Hl. intros [= <-].
        rewrite creations_app, decide_False by exact Hk.
        rewrite deliveries_app. cbn [deliveries].
        rewrite decide_False by exact Hk.
        rewrite !app_nil_r, Nat.add_0_r. repeat split; reflexivity.
  - (* Drive *)
    unfold Retrieve.drive. destruct (decide (k0 = k)) as [-> | Hk].
    + rewrite Hl.
      pose proof (step_waiting r ev) as Hw.
      pose proof (step_excluded r ev) as He.
      pose proof (step_live_silent r ev k) as Hs.
      destruct (step r ev) as [r' acts]. cbn [fst snd] in *.
      destruct (state r') eqn:E; cbn [live created done];
        rewrite ?lookup_delete_eq, ?lookup_insert_eq; try discriminate;
        intros [= <-]; rewrite deliveries_app, Hs, Hw, !app_nil_r
          by reflexivity; repeat split; try reflexivity; exact He.
    + destruct (live m !! k0) as [r0|] eqn:Hl0.
      2:{ rewrite Hl. intros [= <-]. rewrite app_nil_r.
          repeat split; reflexivity. }
      pose proof (wf_key _ _ W _ _ Hl0) as Hkey.
      assert (key (request r0) <> k) as Hne by congruence.
      pose proof (step_ends_other r0 ev k Hne) as Hs.
      destruct (step r0 ev) as [r' acts]. cbn [fst snd] in *.
      destruct (state r'); cbn [live created done];
        rewrite ?lookup_delete_ne, ?lookup_insert_ne by exact Hk;
        rewrite Hl; intros [= <-];
        rewrite deliveries_app, Hs, !app_nil_r;
        repeat split; reflexivity.
  - (* Evict *)
    cbn [live created done]. rewrite Hl. intros [= <-].
    rewrite app_nil_r. repeat split; reflexivity.
Qed.

Local Abbreviation liveThroughout :=
  (liveThroughout capable maxOutstanding retryBudget Verify).

Lemma askers_cons (k : Key) (c : Call) (cs : list Call) :
  askers k (c :: cs) = (askers k [c] ++ askers k cs)%list.
Proof.
  destruct c as [peers req caller | k0 ev | k0]; cbn [askers app];
    try reflexivity.
  now destruct (decide (key req = k)).
Qed.

Lemma liveThroughout_live (k : Key) (m : Manager) (cs : list Call) :
  liveThroughout k m cs = true -> is_Some (live m !! k).
Proof.
  destruct cs; cbn [Retrieve.liveThroughout];
    destruct (live m !! k); try discriminate; eauto.
Qed.

(** The calls during the life of the Retrieval of [k]: the callers that
    ask for [k] are attached in the order of their asks, and no Retrieval
    is created and nothing released for [k]. *)
Lemma live_calls (k : Key) (cs : list Call) (m : Manager) (r : Retrieval) :
  wellFormed m ->
  live m !! k = Some r ->
  liveThroughout k m cs = true ->
  exists r',
    live (calls m cs) !! k = Some r'
    /\ waiting r' = (waiting r ++ askers k cs)%list
    /\ excluded r ⊆ excluded r'
    /\ creations k (created (calls m cs)) = creations k (created m)
    /\ deliveries k (done (calls m cs)) = deliveries k (done m).
Proof.
  revert m r; induction cs as [|c cs IH]; intros m r W Hl Hlive.
  - exists r. cbn [Retrieve.calls fold_left askers]. rewrite app_nil_r.
    repeat split; try reflexivity; exact Hl.
  - cbn [Retrieve.liveThroughout] in Hlive. rewrite Hl in Hlive.
    destruct (liveThroughout_live _ _ _ Hlive) as [r1 Hl1].
    destruct (live_call m c k r r1 W Hl Hl1) as (Hw1 & He1 & Hc1 & Hd1).
    destruct (IH (call m c) r1 (wellFormed_call m c W) Hl1 Hlive)
      as (r' & Hl' & Hw' & He' & Hc' & Hd').
    exists r'. change (calls m (c :: cs)) with (calls (call m c) cs).
    split; [exact Hl'|]. split.
    { rewrite Hw', Hw1, (askers_cons k c cs). now rewrite <- app_assoc. }
    split; [set_solver|]. split; congruence.
Qed.

(** A reply that does not verify: an explicit "don't have it", or data the
    verification collaborator refuses for the root of the request. *)
Lemma step_invalid (r : Retrieval) (p : PeerId) (reply : option Reply) :
  state r = Validating p reply ->
  (forall data, reply = Some data -> Verify data (root (request r)) = None) ->
  step r EvVerify
  = (mkRetrieval (request r) ({[p]} ∪ excluded r)
       (FailedRetryable p InvalidProof) (budget r) (waiting r),
     [ReportFailure p]).
Proof.
  intros Hs Hv. unfold Retrieve.step. rewrite Hs.
  destruct reply as [data|]; [|reflexivity].
  now rewrite (Hv data eq_refl).
Qed.

Lemma step_retry (r : Retrieval) (p : PeerId) (why : Error)
    (peers : list Peer) :
  state r = FailedRetryable p why ->
  (exists b, budget r = S b /\ couldRetry capable r peers = true
             /\ step r (EvRetry peers)
                = (mkRetrieval (request r) (excluded r) Pending b (waiting r),
                   []))
  \/ ((budget r = O \/ couldRetry capable r peers = false)
      /\ step r (EvRetry peers)
         = (setState r (FailedTerminal RetriesExhausted),
            deliverAll r (Err RetriesExhausted))).
Proof.
  intros Hs. unfold Retrieve.step. rewrite Hs.
  destruct (budget r) as [|b]; [right; split; [now left | reflexivity]|].
  destruct (couldRetry capable r peers) eqn:E.
  - left. exists b. repeat split; reflexivity.
  - right. split; [now right | reflexivity].
Qed.

(** C1: a reply that fails verification against the trusted root of the
    Request is never delivered to a waiting caller. At the facade, every
    value ever released to a caller, whatever calls arrive, is one that
    verifies against the root of its key; a Retrieval releases a value
    only in the verification step, and then the value the collaborator
    made of the reply under validation. In a Retrieval, a reply that
    does not verify leads to Failed-retryable and releases nothing; from
    there the Retrieval goes back to Pending, to be retried on a peer
    other than the one that failed, or ends with a terminal error for
    every waiting caller; whatever follows, the peer that failed is not
    dispatched to again and only errors and verified values are
    released. *)
Theorem unverified_reply_never_delivered :
  (forall (cs : list Call) (c : Caller) (k : Key) (v : Value),
      In (Deliver c k (Ok v)) (done (calls Retrieve.empty cs)) ->
      verified Verify (snd k) v)
  /\ (forall (r : Retrieval) (ev : Event) (c : Caller) (k : Key) (v : Value),
         In (Deliver c k (Ok v)) (snd (step r ev)) ->
         exists p data,
           state r = Validating p (Some data) /\ ev = EvVerify
           /\ Verify data (root (request r)) = Some v)
  /\ (forall (r : Retrieval) (p : PeerId) (reply : option Reply),
         state r = Validating p reply ->
         (forall data, reply = Some data ->
                       Verify data (root (request r)) = None) ->
         step r EvVerify
         = (mkRetrieval (request r) ({[p]} ∪ excluded r)
              (FailedRetryable p InvalidProof) (budget r) (waiting r),
            [ReportFailure p])
         /\ (forall (peers : list Peer),
                let r1 := fst (step r EvVerify) in
                let next := step r1 (EvRetry peers) in
                (state (fst next) = Pending /\ snd next = []
                 /\ p ∈ excluded (fst next))
                \/ (state (fst next) = FailedTerminal RetriesExhausted
                    /\ snd next = deliverAll r (Err RetriesExhausted)))
         /\ (forall (evs : list Event),
                let acts := snd (run r (EvVerify :: evs)) in
                (forall req, ~ In (Dispatch p req) acts)
                /\ (forall c k o, In (Deliver c k o) acts ->
                                  releasable Verify (root (request r)) o))).
Proof.
  split.
  - intros cs c k v H.
    apply (wf_done _ _ (wellFormed_calls _ cs wellFormed_empty) c k (Ok v) H).
  - split; [apply step_deliver_value|].
    intros r p reply Hs Hv.
    pose proof (step_invalid r p reply Hs Hv) as Hstep.
    split; [exact Hstep|]. split.
    + intros peers. cbv zeta. rewrite Hstep. cbn [fst].
      match goal with |- context [step ?r1 _] => set (r1' := r1) end.
      destruct (step_retry r1' p InvalidProof peers eq_refl)
        as [(b & _ & _ & ->) | [_ ->]]; cbn [fst snd state excluded].
      * left. repeat split. subst r1'. cbn [excluded]. set_solver.
      * right. split; reflexivity.
    + intros evs. cbv zeta. rewrite run_cons, Hstep. cbn [fst snd].
      split.
      * intros req [H | H]; [discriminate H|].
        apply run_dispatch in H. cbn [excluded] in H. set_solver.
      * intros c k o [H | H]; [discriminate H|].
        apply run_deliver in H as (_ & _ & H). exact H.
Qed.

(** C6: the exclusion set of a Retrieval only grows: no step and no run
    of steps removes a peer from it, nor does any call at the facade while
    the Retrieval is live; a timeout and a reply that does not verify add
    the attempted peer; a peer in the set is never dispatched to, so a
    peer whose attempt failed is never selected again for the same
    Retrieval. *)
Theorem exclusion_set_only_grows :
  (forall (r : Retrieval) (ev : Event),
      excluded r ⊆ excluded (fst (step r ev)))
  /\ (forall (r : Retrieval) (evs : list Event),
         excluded r ⊆ excluded (fst (run r evs)))
  /\ (forall (m : Manager) (c : Call) (k : Key) (r r1 : Retrieval),
         wellFormed m -> live m !! k = Some r ->
         live (call m c) !! k = Some r1 -> excluded r ⊆ excluded r1)
  /\ (forall (r : Retrieval) (p : PeerId),
         state r = WaitingReply p ->
         state (fst (step r EvTimeout)) = FailedRetryable p AttemptTimeout
         /\ p ∈ excluded (fst (step r EvTimeout)))
  /\ (forall (r : Retrieval) (p : PeerId) (reply : option Reply),
         state r = Validating p reply ->
         (forall data, reply = Some data ->
                       Verify data (root (request r)) = None) ->
         state (fst (step r EvVerify)) = FailedRetryable p InvalidProof
         /\ p ∈ excluded (fst (step r EvVerify)))
  /\ (forall (r : Retrieval) (peers : list Peer) (p : Peer),
         select r peers = Some p -> peerId p ∉ excluded r)
  /\ (forall (r : Retrieval) (evs : list Event) (p : PeerId) (req : Request),
         p ∈ excluded r -> ~ In (Dispatch p req) (snd (run r evs)))
  /\ (forall (r : Retrieval) (evs1 evs2 : list Event) (p : PeerId)
             (req : Request),
         In (ReportFailure p) (snd (run r evs1)) ->
         ~ In (Dispatch p req) (snd (run (fst (run r evs1)) evs2))).
Proof.
  split; [apply step_excluded|]. split; [apply run_excluded|].
  split; [intros m c k r r1 W Hl Hl1;
          now destruct (live_call m c k r r1 W Hl Hl1) as (_ & H & _)|].
  split.
  { intros r p Hs. unfold Retrieve.step. rewrite Hs. cbn.
    split; [reflexivity | set_solver]. }
  split.
  { intros r p reply Hs Hv. rewrite (step_invalid r p reply Hs Hv). cbn.
    split; [reflexivity | set_solver]. }
  split; [apply select_not_excluded|]. split.
  - intros r evs p req Hp H. now apply run_dispatch in H.
  - intros r evs1 evs2 p req Hf H.
    apply run_failure in Hf. now apply run_dispatch in H.
Qed.

(** C7: a request asked when no connected peer satisfies its capability
    predicate: the Retrieval started for it is terminal at once with
    [NoEligiblePeer], and all it does is hand that error to the caller: no
    dispatch, no timer. At the facade the ask leaves no live Retrieval
    behind and adds only this delivery. *)
Theorem no_eligible_peer_fails_at_once
    (peers : list Peer) (req : Request) (c : Caller) :
  (forall p, In p peers -> capable req p = false) ->
  start peers req c
  = (mkRetrieval req ∅ (FailedTerminal NoEligiblePeer) retryBudget [c],
     [Deliver c (key req) (Err NoEligiblePeer)])
  /\ (forall a, In a (snd (start peers req c)) ->
                isDispatch a = false /\ isArmTimer a = false)
  /\ (forall m : Manager,
         cache m !! key req = None -> live m !! key req = None ->
         done (ask m peers req c)
         = (done m ++ [Deliver c (key req) (Err NoEligiblePeer)])%list
         /\ live (ask m peers req c) = live m
         /\ cache (ask m peers req c) = cache m).
Proof.
  intros Hcap.
  assert (existsb (capable req) peers = false) as E.
  { destruct (existsb (capable req) peers) eqn:E; [|reflexivity].
    apply existsb_exists in E as (p & HIn & Hp).
    rewrite (Hcap p HIn) in Hp. discriminate. }
  destruct (start_cases peers req c) as [[E' _] | [_ Hstart]];
    [congruence|].
  split; [exact Hstart|]. split.
  - rewrite Hstart. intros a [<- | []]. split; reflexivity.
  - intros m Hc Hl. unfold Retrieve.ask. rewrite Hc, Hl, Hstart.
    cbn [state terminal live cache done]. repeat split; reflexivity.
Qed.

(** C2: asks with the same type, payload and root that arrive while the
    Retrieval of the first is live: exactly one Retrieval is created for
    the key, every one of the asks is attached to it, and when an event
    ends the Retrieval every attached caller is handed the same outcome,
    the same value or the same error. *)
Theorem identical_asks_share_one_retrieval
    (m : Manager) (peers : list Peer) (req : Request) (c0 : Caller)
    (cs : list Call) (ev : Event) :
  let k := key req in
  let m1 := ask m peers req c0 in
  let m2 := calls m1 cs in
  let m3 := drive m2 k ev in
  wellFormed m ->
  cache m !! k = None -> live m !! k = None ->
  liveThroughout k m1 cs = true ->
  live m3 !! k = None ->
  creations k (created m3) = S (creations k (created m))
  /\ (exists r, live m2 !! k = Some r
                /\ waiting r = c0 :: askers k cs)
  /\ (exists o, deliveries k (done m3)
                = (deliveries k (done m)
                   ++ map (fun c => (c, o)) (c0 :: askers k cs))%list).
Proof.
  intros k m1 m2 m3 W Hc Hl Hlive Hend.
  pose proof (wellFormed_ask m peers req c0 W) as W1. fold m1 in W1.
  destruct (liveThroughout_live _ _ _ Hlive) as [r1 Hl1].
  (* the first ask creates the Retrieval *)
  assert (r1 = mkRetrieval req ∅ Pending retryBudget [c0]
          /\ created m1 = (created m ++ [k])%list
          /\ done m1 = done m) as (-> & Hcr1 & Hd1).
  { revert Hl1. subst m1. unfold Retrieve.ask. fold k. rewrite Hc, Hl.
    destruct (start_cases peers req c0) as [[_ ->] | [_ ->]];
      cbn [state terminal live created done].
    - rewrite lookup_insert_eq. intros [= <-].
      now rewrite app_nil_r.
    - rewrite Hl. discriminate. }
  destruct (live_calls k cs m1 _ W1 Hl1 Hlive)
    as (r2 & Hl2 & Hw2 & _ & Hcr2 & Hd2).
  fold m2 in Hl2, Hcr2, Hd2. cbn [waiting app] in Hw2.
  pose proof (wellFormed_calls m1 cs W1) as W2. fold m2 in W2.
  pose proof (wf_live _ _ W2 _ _ Hl2) as Hnt.
  pose proof (wf_key _ _ W2 _ _ Hl2) as Hkey.
  (* the last event ends it *)
  assert (created m3 = created m2
          /\ done m3 = (done m2 ++ snd (step r2 ev))%list
          /\ terminal (state (fst (step r2 ev))) = true) as (Hcr3 & Hd3 & Ht).
  { revert Hend. subst m3. unfold Retrieve.drive. rewrite Hl2.
    destruct (step r2 ev) as [r' acts]. cbn [fst snd].
    destruct (state r'); cbn [live created done terminal];
      rewrite ?lookup_insert_eq; try discriminate; intros _;
      repeat split; reflexivity. }
  destruct (step_ends r2 ev Hnt Ht) as (o & _ & Ho).
  split.
  { rewrite Hcr3, Hcr2, Hcr1, creations_app, decide_True by reflexivity.
    lia. }
  split; [exists r2; split; assumption|].
  exists o. rewrite Hd3, deliveries_app, Hd2, Hd1. f_equal.
  rewrite Hkey in Ho. rewrite Ho, Hw2. reflexivity.
Qed.

End Core.

End RetrieveFacts.

Module RetrieveExamples.
Import Retrieve RetrieveFacts Fixtures.

Local Abbreviation k7 := (key (codeRequest 7)).
Local Abbreviation fresh :=
  (mkRetrieval (codeRequest 7) ∅ Pending 3 [100%N]).

(** Solves a membership in an explicit list. *)
Ltac pick := vm_compute; repeat (first [left; reflexivity | right]).

(** Three identical asks, an invalid reply from the first peer, a valid
    one from the second. *)
Example dedup_trace :
  done (calls capable 4 3 Verify Retrieve.empty
          [Ask [alice; bob; carol] (codeRequest 7) 100%N;
           Ask [] (codeRequest 8) 101%N;
           Drive k7 (EvSelect [alice; bob; carol]);
           Drive k7 EvArm;
           Drive k7 (EvReply 2%N (Some [x00]));
           Drive k7 EvVerify;
           Drive k7 (EvRetry [alice; bob]);
           Ask [] (codeRequest 9) 102%N;
           Drive k7 (EvSelect [alice; bob; carol]);
           Drive k7 EvArm;
           Drive k7 (EvReply 1%N (Some [xaa; xbb]));
           Drive k7 EvVerify])
  = [Dispatch 2%N (codeRequest 7); ArmTimer 2%N; ReportFailure 2%N;
     Dispatch 1%N (codeRequest 7); ArmTimer 1%N; ReportSuccess 1%N;
     Deliver 100%N k7 (Ok [x2a]); Deliver 101%N k7 (Ok [x2a]);
     Deliver 102%N k7 (Ok [x2a])].
Proof. vm_compute. reflexivity. Qed.

(** A single peer that answers with bytes that do not verify: the retry
    finds no other peer and the Retrieval ends with [RetriesExhausted]. *)
Example single_peer_invalid :
  snd (run capable 4 Verify fresh
         [EvSelect [alice]; EvArm; EvReply 1%N (Some [x00]); EvVerify;
          EvRetry [alice]])
  = [Dispatch 1%N (codeRequest 7); ArmTimer 1%N; ReportFailure 1%N;
     Deliver 100%N k7 (Err RetriesExhausted)].
Proof. vm_compute. reflexivity. Qed.

(** A saturated peer is not selected and the request stays queued. *)
Example saturated_peer_queues :
  run capable 4 Verify fresh
    [EvSelect [mkPeer 1%N 2 100 true 4 50]] = (fresh, []).
Proof. vm_compute. reflexivity. Qed.

(** Cancellation ends a waiting Retrieval with [Cancelled]; a reply that
    arrives afterwards releases nothing. *)
Example cancel_then_late_reply :
  snd (run capable 4 Verify fresh
         [EvSelect [alice]; EvArm; EvCancel;
          EvReply 1%N (Some [xaa; xbb]); EvVerify])
  = [Dispatch 1%N (codeRequest 7); ArmTimer 1%N;
     Deliver 100%N k7 (Err Cancelled)].
Proof. vm_compute. reflexivity. Qed.

Lemma unverified_reply_never_delivered_witness :
  let r := mkRetrieval (codeRequest 7) ∅ (Validating 2%N (Some [x00])) 3
             [100%N] in
  verified Verify (snd k7) [x2a]
  /\ step capable 4 Verify r EvVerify
     = (mkRetrieval (codeRequest 7) ({[2%N]} ∪ ∅)
          (FailedRetryable 2%N InvalidProof) 3 [100%N],
        [ReportFailure 2%N]).
Proof.
  cbv zeta.
  destruct (unverified_reply_never_delivered capable 4 3 Verify)
    as (D & _ & V).
  split.
  - apply (D [Ask [alice] (codeRequest 7) 100%N;
              Drive k7 (EvSelect [alice]); Drive k7 EvArm;
              Drive k7 (EvReply 1%N (Some [xaa; xbb])); Drive k7 EvVerify]
             100%N k7 [x2a]).
    pick.
  - apply (V (mkRetrieval (codeRequest 7) ∅ (Validating 2%N (Some [x00])) 3
                [100%N]) 2%N (Some [x00]) eq_refl).
    intros data [= <-]. reflexivity.
Defined.

Lemma exclusion_set_only_grows_witness :
  let evs1 := [EvSelect [alice; bob]; EvArm; EvTimeout] in
  let evs2 := [EvRetry [alice; bob]; EvSelect [alice; bob]] in
  In (ReportFailure 2%N) (snd (run capable 4 Verify fresh evs1))
  /\ ~ In (Dispatch 2%N (codeRequest 7))
         (snd (run capable 4 Verify
                 (fst (run capable 4 Verify fresh evs1)) evs2))
  /\ In (Dispatch 1%N (codeRequest 7))
       (snd (run capable 4 Verify
               (fst (run capable 4 Verify fresh evs1)) evs2)).
Proof.
  cbv zeta.
  assert (In (ReportFailure 2%N)
            (snd (run capable 4 Verify fresh
                    [EvSelect [alice; bob]; EvArm; EvTimeout]))) as F by pick.
  split; [exact F|]. split.
  - apply (proj2 (proj2 (proj2 (proj2 (proj2 (proj2 (proj2
             (exclusion_set_only_grows capable 4 3 Verify))))))) fresh
             [EvSelect [alice; bob]; EvArm; EvTimeout]
             [EvRetry [alice; bob]; EvSelect [alice; bob]] 2%N
             (codeRequest 7) F).
  - pick.
Defined.

Lemma no_eligible_peer_fails_at_once_witness :
  (forall p, In p [carol] -> capable (codeRequest 7) p = false)
  /\ start capable 3 [carol] (codeRequest 7) 100%N
     = (mkRetrieval (codeRequest 7) ∅ (FailedTerminal NoEligiblePeer) 3
          [100%N],
        [Deliver 100%N k7 (Err NoEligiblePeer)])
  /\ done (ask capable 3 Retrieve.empty [] (codeRequest 7) 100%N)
     = [Deliver 100%N k7 (Err NoEligiblePeer)].
Proof.
  assert (forall p, In p [carol] -> capable (codeRequest 7) p = false) as H
    by (intros p [<- | []]; reflexivity).
  split; [exact H|]. split.
  - apply (proj1 (no_eligible_peer_fails_at_once capable 3 [carol]
                    (codeRequest 7) 100%N H)).
  - assert (forall p, In p [] -> capable (codeRequest 7) p = false) as H0
      by (intros p []).
    apply (proj1 (proj2 (proj2 (no_eligible_peer_fails_at_once capable 3 []
                                  (codeRequest 7) 100%N H0))
                    Retrieve.empty (lookup_empty _) (lookup_empty _))).
Defined.

Lemma identical_asks_share_one_retrieval_witness :
  let cs := [Ask [] (codeRequest 8) 101%N;
             Drive k7 (EvSelect [alice; bob; carol]);
             Drive k7 EvArm;
             Ask [] (codeRequest 9) 102%N;
             Drive k7 (EvReply 2%N (Some [xaa; xbb]))] in
  let m1 := ask capable 3 Retrieve.empty [alice; bob; carol]
              (codeRequest 7) 100%N in
  let m3 := drive capable 4 Verify (calls capable 4 3 Verify m1 cs) k7
              EvVerify in
  liveThroughout capable 4 3 Verify k7 m1 cs = true
  /\ live m3 !! k7 = None
  /\ creations k7 (created m3) = 1
  /\ exists o, deliveries k7 (done m3)
               = [(100%N, o); (101%N, o); (102%N, o)].
Proof.
  cbv zeta.
  assert (liveThroughout capable 4 3 Verify k7
            (ask capable 3 Retrieve.empty [alice; bob; carol]
               (codeRequest 7) 100%N)
            [Ask [] (codeRequest 8) 101%N;
             Drive k7 (EvSelect [alice; bob; carol]);
             Drive k7 EvArm;
             Ask [] (codeRequest 9) 102%N;
             Drive k7 (EvReply 2%N (Some [xaa; xbb]))] = true) as L
    by (vm_compute; reflexivity).
  assert (live (drive capable 4 Verify
                  (calls capable 4 3 Verify
                     (ask capable 3 Retrieve.empty [alice; bob; carol]
                        (codeRequest 7) 100%N)
                     [Ask [] (codeRequest 8) 101%N;
                      Drive k7 (EvSelect [alice; bob; carol]);
                      Drive k7 EvArm;
                      Ask [] (codeRequest 9) 102%N;
                      Drive k7 (EvReply 2%N (Some [xaa; xbb]))]) k7
                  EvVerify) !! k7 = None) as E
    by (vm_compute; reflexivity).
  split; [exact L|]. split; [exact E|].
  destruct (identical_asks_share_one_retrieval capable 4 3 Verify
              Retrieve.empty [alice; bob; carol] (codeRequest 7) 100%N _
              EvVerify (wellFormed_empty Verify) (lookup_empty _)
              (lookup_empty _) L E) as (C & _ & o & D).
  split; [exact C|]. exists o. exact D.
Defined.

End RetrieveExamples.

Module SlicesFacts.
Import Slices.

Lemma rangeAssign_from {A B : Type} (f : A -> B) (zero : B)
    (done : list B) (src : list A) :
  rangeAssign f (length done) src (done ++ make zero (length src))%list
  = Returns (done ++ map f src)%list.
Proof.
  revert done; induction src as [|x src IH]; intros done.
  - cbn. now rewrite app_nil_r.
  - cbn [rangeAssign length make replicate map].
    rewrite length_app. cbn [length].
    destruct (Nat.ltb_spec (length done) (length done + S (length (replicate (length src) zero))));
      [|lia].
    replace (<[length done:=f x]> (done ++ zero :: replicate (length src) zero))%list
      with ((done ++ [f x]) ++ make zero (length src))%list.
    + replace (S (length done)) with (length (done ++ [f x]))
        by (rewrite length_app; cbn; lia).
      rewrite IH. now rewrite <- app_assoc.
    + rewrite <- app_assoc. cbn [app].
      rewrite (insert_app_r_alt done _ (length done)) by lia.
      now rewrite Nat.sub_diag.
Qed.

(** The loop over a slice made for it never panics and assigns every
    element in place. *)
Lemma rangeAssign_make {A B : Type} (f : A -> B) (zero : B) (src : list A) :
  rangeAssign f 0 src (make zero (length src)) = Returns (map f src).
Proof. apply (rangeAssign_from f zero [] src). Qed.

(** The loop whose elements may panic: over a slice made for it, it
    assigns every element in place when none panics. *)
Lemma rangeAssignOrPanic_from {A B : Type} (f : A -> outcome B) (zero : B)
    (done : list B) (src : list A) (ys : list B) :
  Forall2 (fun x y => f x = Returns y) src ys ->
  rangeAssignOrPanic f (length done) src
    (done ++ make zero (length src))%list
  = Returns (done ++ ys)%list.
Proof.
  intros Hall. revert done.
  induction Hall as [|x y src ys Hx _ IH]; intros done.
  - cbn. now rewrite app_nil_r.
  - cbn [rangeAssignOrPanic length make replicate]. rewrite Hx.
    rewrite length_app. cbn [length].
    destruct (Nat.ltb_spec (length done)
                (length done + S (length (replicate (length src) zero))));
      [|lia].
    replace (<[length done := y]>
               (done ++ zero :: replicate (length src) zero))%list
      with ((done ++ [y]) ++ make zero (length src))%list.
    + replace (S (length done)) with (length (done ++ [y]))
        by (rewrite length_app; cbn; lia).
      rewrite IH. now rewrite <- app_assoc.
    + rewrite <- app_assoc. cbn [app].
      rewrite (insert_app_r_alt done _ (length done)) by lia.
      now rewrite Nat.sub_diag.
Qed.

(** It panics as soon as one element does. *)
Lemma rangeAssignOrPanic_panics {A B : Type} (f : A -> outcome B) (i : nat)
    (src : list A) (dst : list B) :
  Exists (fun x => f x = Panics) src ->
  rangeAssignOrPanic f i src dst = Panics.
Proof.
  intros Hex. revert i dst.
  induction Hex as [x src Hx | x src _ IH]; intros i dst;
    cbn [rangeAssignOrPanic].
  - now rewrite Hx.
  - destruct (f x); [|reflexivity].
    destruct (i <? length dst)%nat; [apply IH | reflexivity].
Qed.

End SlicesFacts.

Module ReceiptShapes.
Import Common Types ReceiptFacts.

Section Receipt.
Variables Bloom Log Address : Type.
Variable rlp_Decode : list byte -> result error (receiptRLP Bloom Log).

Local Abbreviation Receipt := (Types.Receipt Bloom Log Address).

(** The cases of [segdaatus], by the value it is given. *)
Lemma segdaatus_cases (r : Receipt) (b : list byte) :
  (b = [x01]
   /\ segdaatus r b
      = Ok (mkReceipt (Posgdaate r) ReceipgdaatusSuccessful
              (CumulativeGasUsed r) (Bloom_ r) (Logs r) (TxHash r)
              (ContractAddress r) (GasUsed r)))
  \/ (b = []
      /\ segdaatus r b
         = Ok (mkReceipt (Posgdaate r) ReceipgdaatusFailed
                 (CumulativeGasUsed r) (Bloom_ r) (Logs r) (TxHash r)
                 (ContractAddress r) (GasUsed r)))
  \/ (length b = 32
      /\ segdaatus r b
         = Ok (mkReceipt b (Status r) (CumulativeGasUsed r) (Bloom_ r)
                 (Logs r) (TxHash r) (ContractAddress r) (GasUsed r)))
  \/ (b <> [x01] /\ b <> [] /\ length b <> 32
      /\ segdaatus r b = Err (InvalidReceiptStatus b)).
Proof.
  unfold segdaatus.
  destruct (Bytes.Equal b receipgdaatusSuccessfulRLP) eqn:E1.
  { apply Equal_spec in E1. left. now split. }
  destruct (Bytes.Equal b receipgdaatusFailedRLP) eqn:E2.
  { apply Equal_spec in E2. right. left. now split. }
  assert (b <> [x01]) as N1
    by (intros ->; now rewrite (proj2 (Equal_spec _ _) eq_refl) in E1).
  assert (b <> []) as N2
    by (intros ->; now rewrite (proj2 (Equal_spec _ _) eq_refl) in E2).
  destruct (Nat.eqb_spec (length b) HashLength) as [E3 | E3].
  - right. right. left. now split.
  - right. right. right. repeat split; assumption.
Qed.

(** What [statusEncoding] gives, by the post-state of the receipt. *)
Lemma statusEncoding_cases (r : Receipt) :
  (Posgdaate r = []
   /\ (statusEncoding r = [] \/ statusEncoding r = [x01]))
  \/ (Posgdaate r <> [] /\ statusEncoding r = Posgdaate r).
Proof.
  unfold statusEncoding. destruct (Posgdaate r) as [|x p] eqn:E.
  - left. split; [reflexivity|]. cbn.
    destruct (N.eqb (Status r) ReceipgdaatusFailed); [now left | now right].
  - right. split; [discriminate | reflexivity].
Qed.

(** X1: decoding the consensus encoding of a receipt fails, with the
    invalid-status error that names the post-state, exactly when the
    post-state is not empty, not 32 bytes long and not the single byte
    0x01; in every other case it succeeds, whatever the status code. A
    post-state that is the single byte 0x01 comes back as the successful
    status, with the post-state the receiver had. *)
Theorem decode_refuses_exactly_other_shapes
    (r r0 : Receipt) (w : list byte) :
  rlp_Decode w = Ok (consensus r) ->
  (DecodeRLP rlp_Decode r0 w = Err (InvalidReceiptStatus (Posgdaate r))
   <-> Posgdaate r <> [] /\ length (Posgdaate r) <> 32
       /\ Posgdaate r <> [x01])
  /\ ((exists r', DecodeRLP rlp_Decode r0 w = Ok r')
      <-> Posgdaate r = [] \/ length (Posgdaate r) = 32
          \/ Posgdaate r = [x01])
  /\ (Posgdaate r = [x01] ->
      DecodeRLP rlp_Decode r0 w
      = Ok (mkReceipt (Posgdaate r0) ReceipgdaatusSuccessful
              (CumulativeGasUsed r) (Bloom_ r) (Logs r) (TxHash r0)
              (ContractAddress r0) (GasUsed r0))).
Proof.
  intros Hdec. unfold DecodeRLP. rewrite Hdec.
  cbn [PosgdaateOrStatus consensus rlpCumulativeGasUsed rlpBloom rlpLogs].
  pose proof (statusEncoding_cases r) as Hshape.
  destruct (segdaatus_cases r0 (statusEncoding r))
    as [[Hb ->] | [[Hb ->] | [[Hb ->] | (N1 & N2 & N3 & ->)]]];
    cbn [Posgdaate Status CumulativeGasUsed Bloom_ Logs TxHash
         ContractAddress GasUsed].
  - (* the successful status *)
    assert (Posgdaate r = [] \/ Posgdaate r = [x01]) as Hp
      by (destruct Hshape as [[Hp _] | [_ He]]; [now left | right; congruence]).
    split; [split; [discriminate|]|split; [split; [|now eauto]|reflexivity]].
    + intros (H1 & _ & H3). destruct Hp; contradiction.
    + intros _. destruct Hp; auto.
  - (* the failed status *)
    assert (Posgdaate r = []) as Hp
      by (destruct Hshape as [[Hp _] | [Hp He]]; [exact Hp | congruence]).
    split; [split; [discriminate|]|split; [split; [|now eauto]|]].
    + intros (H1 & _). contradiction.
    + intros _. now left.
    + intros E. rewrite Hp in E. discriminate E.
  - (* a post-state root *)
    assert (statusEncoding r = Posgdaate r) as He.
    { destruct Hshape as [[_ [He | He]] | [_ He]]; [| |exact He];
        rewrite He in Hb; discriminate Hb. }
    rewrite He in Hb.
    split; [split; [discriminate|]|split; [split; [|now eauto]|]].
    + intros (_ & H2 & _). contradiction.
    + intros _. right. now left.
    + intros E. rewrite E in Hb. discriminate Hb.
  - (* anything else *)
    assert (statusEncoding r = Posgdaate r /\ Posgdaate r <> []) as [He Hp].
    { destruct Hshape as [[_ [He | He]] | [Hp He]];
        [contradiction | contradiction | now split]. }
    rewrite He in *.
    split; [split; [now intros _|reflexivity]|split; [split|]].
    + intros [r' H]. discriminate H.
    + intros [H | [H | H]]; contradiction.
    + intros E. contradiction.
Qed.

(** X2: encoding a receipt that was decoded writes the decoded struct
    again when the receiver had no post-state or the status item is 32
    bytes long. A receiver that still holds a post-state keeps it through
    the decoding of a status code, and the encoding then carries that
    post-state in place of the status that was decoded. *)
Theorem decoded_receipt_reencodes
    (rlp_Encode : receiptRLP Bloom Log -> result error (list byte))
    (r0 r' : Receipt) (w : list byte) (x : receiptRLP Bloom Log) :
  rlp_Decode w = Ok x ->
  DecodeRLP rlp_Decode r0 w = Ok r' ->
  (Posgdaate r0 = [] \/ length (PosgdaateOrStatus x) = 32 ->
   EncodeRLP rlp_Encode r' = rlp_Encode x)
  /\ (Posgdaate r0 <> [] -> length (PosgdaateOrStatus x) <> 32 ->
      EncodeRLP rlp_Encode r'
      = rlp_Encode (mkReceiptRLP (Posgdaate r0) (rlpCumulativeGasUsed x)
                      (rlpBloom x) (rlpLogs x))).
Proof.
  intros Hdec. unfold DecodeRLP, EncodeRLP. rewrite Hdec.
  destruct x as [b g bl ls].
  cbn [PosgdaateOrStatus rlpCumulativeGasUsed rlpBloom rlpLogs].
  destruct (segdaatus_cases r0 b)
    as [[Hb ->] | [[Hb ->] | [[Hb ->] | (N1 & N2 & N3 & ->)]]];
    [| | |discriminate];
    intros [= <-]; unfold consensus, statusEncoding;
    cbn [Posgdaate Status CumulativeGasUsed Bloom_ Logs];
    (split; [intros Hp | intros Hp Hl]).
  - destruct Hp as [Hp | Hp]; [|rewrite Hb in Hp; discriminate Hp].
    rewrite Hp, Hb. reflexivity.
  - destruct (Posgdaate r0); [contradiction | reflexivity].
  - destruct Hp as [Hp | Hp]; [|rewrite Hb in Hp; discriminate Hp].
    rewrite Hp, Hb. reflexivity.
  - destruct (Posgdaate r0); [contradiction | reflexivity].
  - rewrite Hb. reflexivity.
  - contradiction.
Qed.

(** X3: the [failed] flag given to [NewReceipt] reaches the consensus
    encoding only when no root is given: with a root, the receipt of a
    failed and of a successful transaction encode alike, and without
    one they never do. *)
Theorem NewReceipt_failed_flag_encoded_iff_no_root
    (zero : Receipt) (root : list byte) (cumulativeGasUsed : N) :
  consensus (NewReceipt Bloom Log Address zero root true cumulativeGasUsed)
  = consensus (NewReceipt Bloom Log Address zero root false
                 cumulativeGasUsed)
  <-> root <> [].
Proof.
  unfold consensus, statusEncoding, NewReceipt.
  cbn [Posgdaate Status CumulativeGasUsed Bloom_ Logs].
  destruct root as [|b root]; cbn [length Nat.eqb N.eqb ReceipgdaatusFailed
    ReceipgdaatusSuccessful]; split.
  - intros [= H]. 
  - intros H. contradiction.
  - discriminate.
  - reflexivity.
Qed.

End Receipt.

End ReceiptShapes.

Module ReceiptShapesExamples.
Import Common Types Fixtures ReceiptShapes.

Lemma decode_refuses_exactly_other_shapes_witness :
  let r := mkReceipt [x01; x02; x03; x04; x05] 1 0 bloom0 [] zeroHash
             address0 0 in
  let w := RLP.encode (RLP.receiptItem (consensus r)) in
  RLP.Decode w = Ok (consensus r)
  /\ DecodeRLP RLP.Decode zeroReceipt w
     = Err (InvalidReceiptStatus [x01; x02; x03; x04; x05]).
Proof.
  intros r w.
  assert (RLP.Decode w = Ok (consensus r)) as Hd by (vm_compute; reflexivity).
  split; [exact Hd|].
  apply (proj1 (decode_refuses_exactly_other_shapes RLP.Bloom RLP.Log
                  RLP.Address RLP.Decode r zeroReceipt w Hd)).
  split; [discriminate|]. split; discriminate.
Defined.

Lemma decoded_receipt_reencodes_witness :
  let w := RLP.encode (RLP.receiptItem (consensus statusReceipt)) in
  exists r',
    DecodeRLP RLP.Decode rootReceipt w = Ok r'
    /\ EncodeRLP RLP.Encode r'
       = RLP.Encode (mkReceiptRLP (Posgdaate rootReceipt)
                       (CumulativeGasUsed statusReceipt)
                       (Bloom_ statusReceipt) (Logs statusReceipt)).
Proof.
  intros w.
  assert (RLP.Decode w = Ok (consensus statusReceipt)) as Hd
    by (vm_compute; reflexivity).
  eexists. split; [vm_compute; reflexivity|].
  refine (proj2 (decoded_receipt_reencodes RLP.Bloom RLP.Log RLP.Address
                   RLP.Decode RLP.Encode rootReceipt _ w _ Hd _) _ _).
  - vm_compute. reflexivity.
  - discriminate.
  - discriminate.
Defined.

End ReceiptShapesExamples.

Module StorageFacts.
Import Common Types Slices Storage SlicesFacts ReceiptFacts ReceiptShapes.

Section ForStorage.
Variables Bloom L Address : Type.
Variable rlp_Encode
  : receipgdaorageRLP Bloom L Address -> result error (list byte).
Variable rlp_Decode
  : list byte -> result error (receipgdaorageRLP Bloom L Address).

Local Abbreviation Receipt := (Types.Receipt Bloom (option L) Address).

(** The loop of [EncodeRLP] fills every slot it made: the call never
    panics and encodes the fields of the receipt. *)
Lemma EncodeRLP_stored (r : Receipt) :
  Storage.EncodeRLP rlp_Encode r = Returns (rlp_Encode (stored r)).
Proof.
  unfold Storage.EncodeRLP, stored.
  rewrite rangeAssign_make, map_id. reflexivity.
Qed.

(** X4: writing a receipt for storage never panics and hands rlp the
    fields of the receipt; the bytes it wrote, read back into any
    receiver, give a receipt with all its fields: the cumulative gas,
    the bloom, the logs and the implementation fields (transaction
    hash, contract address, gas used) are those of the receipt
    written, whatever the receiver held. A receipt with a 32-byte
    post-state gets the post-state back and keeps the status of the
    receiver; one with no post-state gets its status code back and
    keeps the receiver's post-state. Reading back does not panic. Of
    the rlp package no more is used than its law: it decodes the bytes
    it wrote of a struct [wf] to the same struct. *)
Theorem storage_roundtrip
    (wf : receipgdaorageRLP Bloom L Address -> Prop) (r r0 : Receipt) :
  (forall x bytes,
      wf x -> rlp_Encode x = Ok bytes -> rlp_Decode bytes = Ok x) ->
  wf (stored r) ->
  Posgdaate r = [] \/ length (Posgdaate r) = 32 ->
  Status r = ReceipgdaatusFailed \/ Status r = ReceipgdaatusSuccessful ->
  Storage.EncodeRLP rlp_Encode r = Returns (rlp_Encode (stored r))
  /\ forall w,
       Storage.EncodeRLP rlp_Encode r = Returns (Ok w) ->
       Storage.DecodeRLP rlp_Decode r0 w
       = Returns
           (Ok (mkReceipt
                  (match Posgdaate r with
                   | [] => Posgdaate r0
                   | _ => Posgdaate r
                   end)
                  (match Posgdaate r with
                   | [] => Status r
                   | _ => Status r0
                   end)
                  (CumulativeGasUsed r) (Bloom_ r) (Logs r) (TxHash r)
                  (ContractAddress r) (GasUsed r))).
Proof.
  intros Hlaw Hwf Hp Hs. split; [apply EncodeRLP_stored|].
  intros w Henc. rewrite EncodeRLP_stored in Henc.
  injection Henc as Henc.
  assert (rlp_Decode w = Ok (stored r)) as Hd
    by (apply Hlaw; [exact Hwf | exact Henc]).
  unfold Storage.DecodeRLP. rewrite Hd.
  unfold stored.
  cbn [sPosgdaateOrStatus sCumulativeGasUsed sBloom sTxHash
       sContractAddress sLogs sGasUsed].
  rewrite rangeAssign_make, map_id.
  destruct Hp as [Hp | Hp].
  - unfold statusEncoding. rewrite Hp. cbn [length Nat.eqb].
    destruct Hs as [Hs | Hs]; rewrite Hs; reflexivity.
  - destruct (statusEncoding_cases _ _ _ r) as [[E _] | [N ->]];
      [rewrite E in Hp; discriminate Hp|].
    destruct (segdaatus_cases _ _ _ r0 (Posgdaate r))
      as [[Hb _] | [[Hb _] | [[_ ->] | (_ & _ & N3 & _)]]];
      [rewrite Hb in Hp; discriminate Hp | contradiction | | contradiction].
    cbn [Posgdaate Status]. destruct (Posgdaate r); [contradiction|].
    reflexivity.
Qed.

End ForStorage.

Section Receipts.
Variables Bloom Log Address : Type.
Variable rlp_Encode : receiptRLP Bloom Log -> result error (list byte).

Lemma GetRlp_outside (r : list (Receipt Bloom Log Address)) (i : Z) :
  (i < 0 \/ Len r <= i)%Z -> GetRlp rlp_Encode r i = Panics.
Proof.
  intros H. unfold GetRlp.
  destruct (Z.ltb_spec i 0); [reflexivity|].
  destruct (Z.leb_spec (Len r) i); [reflexivity | lia].
Qed.

(** X5: [GetRlp] depends on the consensus fields of the receipts only:
    two lists whose receipts agree pairwise on what [consensus] keeps
    give the same bytes, or panic alike, at every index, whatever their
    implementation fields hold. An index below zero or at or beyond the
    length panics, and inside the list the call returns exactly when
    the receipt can be encoded. *)
Theorem GetRlp_reads_consensus_fields_only
    (r s : list (Receipt Bloom Log Address)) (i : Z) :
  Forall2 (fun a b => consensus a = consensus b) r s ->
  GetRlp rlp_Encode r i = GetRlp rlp_Encode s i
  /\ ((i < 0 \/ Len r <= i)%Z -> GetRlp rlp_Encode r i = Panics)
  /\ (forall bytes,
        GetRlp rlp_Encode r i = Returns bytes
        <-> exists receipt,
              (0 <= i < Len r)%Z /\ r !! Z.to_nat i = Some receipt
              /\ rlp_Encode (consensus receipt) = Ok bytes).
Proof.
  intros H. split; [|split; [apply GetRlp_outside|]].
  - unfold GetRlp, Len, Receipts. rewrite (Forall2_length _ _ _ H).
    destruct ((i <? 0)%Z || (Z.of_nat (length s) <=? i)%Z); [reflexivity|].
    destruct (r !! Z.to_nat i) as [a|] eqn:Ea.
    + destruct (Forall2_lookup_l _ _ _ _ _ H Ea) as (b & Eb & Hab).
      rewrite Eb. unfold Types.EncodeRLP. rewrite Hab. reflexivity.
    + destruct (s !! Z.to_nat i) as [b|] eqn:Eb; [|reflexivity].
      destruct (Forall2_lookup_r _ _ _ _ _ H Eb) as (a & Ea' & _).
      rewrite Ea in Ea'. discriminate Ea'.
  - intros bytes. unfold GetRlp. split.
    + destruct (Z.ltb_spec i 0); cbn [orb]; [discriminate|].
      destruct (Z.leb_spec (Len r) i); [discriminate|]. unfold Receipts.
      destruct (r !! Z.to_nat i) as [a|] eqn:Ea; [|discriminate].
      unfold Types.EncodeRLP.
      destruct (rlp_Encode (consensus a)) eqn:Ee; [|discriminate].
      intros [= <-]. exists a. repeat split; try lia; assumption.
    + intros (a & [H1 H2] & Ea & Ee).
      destruct (Z.ltb_spec i 0); [lia|].
      destruct (Z.leb_spec (Len r) i); [lia|]. cbn [orb]. unfold Receipts.
      rewrite Ea. unfold Types.EncodeRLP. rewrite Ee. reflexivity.
Qed.

End Receipts.

End StorageFacts.

Module StorageExamples.
Import Common Types Storage Fixtures Samples StorageFacts.

Lemma storage_roundtrip_witness :
  let w := RLP.encode (RLPStorage.storageItem (stored storedReceipt)) in
  Storage.EncodeRLP RLPStorage.Encode storedReceipt = Returns (Ok w)
  /\ Storage.DecodeRLP RLPStorage.Decode usedReceiver w
     = Returns
         (Ok (mkReceipt [] ReceipgdaatusFailed 42000 bloom0
                [Some transferLog; Some transferLog] genesis
                (replicate 20 xbb) 21000)).
Proof.
  intros w.
  assert (forall x bytes,
             x = stored storedReceipt ->
             RLPStorage.Encode x = Ok bytes ->
             RLPStorage.Decode bytes = Ok x) as Hlaw.
  { intros x bytes -> E. unfold RLPStorage.Encode in E.
    injection E as <-. vm_compute. reflexivity. }
  destruct (storage_roundtrip RLP.Bloom RLP.Log RLP.Address
              RLPStorage.Encode RLPStorage.Decode
              (fun x => x = stored storedReceipt) storedReceipt
              usedReceiver Hlaw eq_refl (or_introl eq_refl)
              (or_introl eq_refl)) as [He Hd].
  split; [exact He|]. apply Hd. exact He.
Defined.

Lemma GetRlp_reads_consensus_fields_only_witness :
  GetRlp RLP.Encode [statusReceipt; rootReceipt] 1
  = GetRlp RLP.Encode
      [statusReceipt;
       mkReceipt (Posgdaate rootReceipt) 7 (CumulativeGasUsed rootReceipt)
         (Bloom_ rootReceipt) (Logs rootReceipt) genesis
         (replicate 20 xbb) 5] 1.
Proof.
  apply (GetRlp_reads_consensus_fields_only RLP.Bloom RLP.Log RLP.Address
           RLP.Encode).
  repeat constructor.
Defined.

End StorageExamples.


Module GdaNewFacts.
Import Gda.

Section New.
Variable LightSync : Z.
Variable IsValid : Z -> bool.
Variable BlockChainVersion : Z.

Local Abbreviation New := (Gda.New LightSync IsValid BlockChainVersion).

(** Every path through [New], by the answers it branches on. *)
Ltac New_paths w config :=
  unfold Gda.New, CreateDB;
  destruct (Z.eqb_spec (SyncMode config) LightSync);
  [|destruct (IsValid (SyncMode config)) eqn:?; cbn [negb];
    [destruct (openDatabase w) eqn:?;
     [|destruct (genesisErr w) eqn:?;
       destruct (SkipBcVersionCheck config) eqn:?; cbn [negb];
       destruct (Z.eqb_spec (blockChainVersion w) BlockChainVersion);
       destruct (Z.eqb_spec (blockChainVersion w) 0); cbn [negb andb];
       destruct (newBlockChain w) eqn:?;
       destruct (newProtocolManager w) eqn:?]|]];
  cbn [fst snd]; rewrite <- ?app_assoc; cbn [app].

(** [New] adds its effects to those done before, and neither its result
    nor what it adds depends on them. *)
Lemma New_frame (w : World) (config : Config) (done : list effect) :
  New w config done
  = (fst (New w config []), (done ++ snd (New w config []))%list).
Proof.
  New_paths w config; rewrite ?app_nil_r; reflexivity.
Qed.

(** X6: [New] returns either a service and no error, or no service and
    an error, never both and never neither. It returns the service, set
    up with the configuration and its network id, exactly when the sync
    mode is valid and not light sync, the database opens, the genesis
    block is set up with at most a compatibility error, the stored
    block chain version is the current one or zero (or the check is
    skipped), and the block chain and the protocol manager are built
    without error. *)
Theorem New_returns_service_iff_all_steps_succeed
    (w : World) (config : Config) (done : list effect) :
  (fst (New w config done)
   = (Some (mkGdachain config (NetworkId config)), None)
   \/ exists e, fst (New w config done) = (None, Some e))
  /\ (fst (New w config done)
      = (Some (mkGdachain config (NetworkId config)), None)
      <-> SyncMode config <> LightSync
          /\ IsValid (SyncMode config) = true
          /\ openDatabase w = None
          /\ genesisErr w <> OtherGenesisError
          /\ (SkipBcVersionCheck config = true
              \/ blockChainVersion w = BlockChainVersion
              \/ blockChainVersion w = 0%Z)
          /\ newBlockChain w = None
          /\ newProtocolManager w = None).
Proof.
  New_paths w config;
    (split;
     [first [left; reflexivity | right; eexists; reflexivity]
     |split; [intros [=] | intros (H1 & H2 & H3 & H4 & [H5 | [H5 | H5]]
                                    & H6 & H7)];
      repeat split; auto; try congruence]).
Qed.

(** X7: the block chain is opened only past the version check: on a
    database whose stored version is neither the current one nor zero
    [New], unless told to skip the check, fails with the mismatch error
    before it writes a version or opens the block chain. The version it
    writes is always the current one, and it writes none when the check
    is skipped. *)
Theorem New_checks_version_before_chain
    (w : World) (config : Config) (done : list effect) :
  exists more,
    snd (New w config done) = (done ++ more)%list
    /\ (In NewBlockChain more ->
        SkipBcVersionCheck config = true
        \/ blockChainVersion w = BlockChainVersion
        \/ blockChainVersion w = 0%Z)
    /\ (forall v, In (WriteBlockChainVersion v) more ->
        v = BlockChainVersion /\ SkipBcVersionCheck config = false
        /\ In NewBlockChain more)
    /\ (SyncMode config <> LightSync ->
        IsValid (SyncMode config) = true ->
        openDatabase w = None ->
        genesisErr w <> OtherGenesisError ->
        SkipBcVersionCheck config = false ->
        blockChainVersion w <> BlockChainVersion ->
        blockChainVersion w <> 0%Z ->
        fst (New w config done)
        = (None, Some (ErrVersionMismatch (blockChainVersion w)
                         BlockChainVersion))
        /\ more = [OpenDatabase "chaindata"; UpgradeDeduplicateData;
                   SetupGenesisBlock; CreateConsensusEngine;
                   NewBloomIndexer]).
Proof.
  New_paths w config;
    (eexists; split; [first [reflexivity | symmetry; apply app_nil_r]|]);
    (split; [cbn [In]; intros H; auto;
             repeat (destruct H as [H | H]; try discriminate H);
             try contradiction|]);
    (split; [cbn [In]; intros v H;
             repeat (destruct H as [H | H]; try discriminate H);
             try contradiction;
             try (injection H as <-; repeat split; auto 10)|]);
    intros; try contradiction; try congruence; split; reflexivity.
Qed.

(** X8: [New] rewinds the chain exactly when the genesis block was set
    up with a compatibility error and the block chain was then opened
    without error: it sets the head to the block the error names and
    writes the chain configuration, right after opening the block chain
    and before the bloom indexer is started; on every other path it
    does neither. *)
Theorem New_rewinds_exactly_on_compat_error
    (w : World) (config : Config) (done : list effect) :
  exists more,
    snd (New w config done) = (done ++ more)%list
    /\ (forall n,
          In (SetHead n) more
          <-> genesisErr w = ConfigCompatError n
              /\ In NewBlockChain more /\ newBlockChain w = None)
    /\ (In WriteChainConfig more <-> exists n, In (SetHead n) more)
    /\ (forall n, In (SetHead n) more ->
        exists pre post,
          more = (pre ++ NewBlockChain :: SetHead n :: WriteChainConfig
                      :: StartBloomIndexer :: post)%list).
Proof.
  New_paths w config;
    (eexists; split; [first [reflexivity | symmetry; apply app_nil_r]|]);
    (split; [intros k; cbn [In]; split;
             [intros H;
              repeat (destruct H as [H | H]; try discriminate H);
              try contradiction;
              try (injection H as <-; repeat split; auto 10)
             |intros (H1 & H2 & H3); try congruence;
              try (injection H1 as <-; auto 10);
              repeat (destruct H2 as [H2 | H2]; try discriminate H2);
              try contradiction]|]);
    (split; [cbn [In]; split;
             [intros H;
              repeat (destruct H as [H | H]; try discriminate H);
              try contradiction; eexists; auto 10
             |intros [k H];
              repeat (destruct H as [H | H]; try discriminate H);
              try contradiction; auto 10]|]);
    intros k H; cbn [In] in H;
    repeat (destruct H as [H | H]; try discriminate H);
    try contradiction; injection H as <-.
  all: try (eexists [_; _; _; _; _; _], _; reflexivity).
  all: try (eexists [_; _; _; _; _], _; reflexivity).
Qed.

End New.

End GdaNewFacts.

Module GdaNewExamples.
Import Gda GdaNewFacts Fixtures.

(** A database written by another version: [New] stops at the check. *)
Lemma New_checks_version_before_chain_witness :
  let w := mkWorld None NoGenesisError 2 None None in
  New LightSync IsValid 3 w (mkConfig 0 false 1) []
  = ((None, Some (ErrVersionMismatch 2 3)),
     [OpenDatabase "chaindata"; UpgradeDeduplicateData; SetupGenesisBlock;
      CreateConsensusEngine; NewBloomIndexer]).
Proof.
  intros w.
  destruct (New_checks_version_before_chain LightSync IsValid 3 w
              (mkConfig 0 false 1) []) as (more & Hm & _ & _ & H).
  destruct (H ltac:(cbn; discriminate) eq_refl eq_refl
              ltac:(cbn; discriminate) eq_refl ltac:(cbn; discriminate)
              ltac:(cbn; discriminate)) as [Hr He].
  rewrite He in Hm. cbn [app] in Hm.
  rewrite (surjective_pairing (New _ _ _ _ _ _)), Hr, Hm. reflexivity.
Defined.

(** A configuration upgrade that names block 100: the chain is rewound
    to it. *)
Lemma New_rewinds_exactly_on_compat_error_witness :
  let w := mkWorld None (ConfigCompatError 100) 3 None None in
  In (SetHead 100) (snd (New LightSync IsValid 3 w (mkConfig 0 false 1) [])).
Proof.
  intros w.
  destruct (New_rewinds_exactly_on_compat_error LightSync IsValid 3 w
              (mkConfig 0 false 1) []) as (more & Hm & H & _).
  rewrite Hm. cbn [app]. apply H.
  split; [reflexivity|]. 
  assert (more = snd (New LightSync IsValid 3 w (mkConfig 0 false 1) []))
    as -> by (rewrite Hm; reflexivity).
  split; [|reflexivity]. vm_compute. auto 10.
Defined.

End GdaNewExamples.

Module GdaServiceFacts.
Import GdaService.

Section ExtraData.
Variable MaximumExtraDataSize : N.
Variable defaultExtraData : list byte.

Local Abbreviation makeExtraData :=
  (GdaService.makeExtraData MaximumExtraDataSize defaultExtraData).

Ltac ltb_case :=
  match goal with
  | |- context [(?a <? ?b)%N] => destruct (N.ltb_spec a b)
  end.

(** X9: the extra data [makeExtraData] returns never exceeds the
    maximum size. Extra data that is given and fits is returned as it
    is; extra data that is too long is dropped for nil, neither cut to
    the limit nor replaced by the default; only when none is given does
    the default stand in, and it is dropped in the same way when it is
    too long. A second pass over the nil of a dropped value would
    therefore bring in the default. *)
Theorem makeExtraData_within_limit (extra : list byte) :
  (N.of_nat (length (makeExtraData extra)) <= MaximumExtraDataSize)%N
  /\ (extra <> [] ->
      (N.of_nat (length extra) <= MaximumExtraDataSize)%N ->
      makeExtraData extra = extra)
  /\ (extra <> [] ->
      (MaximumExtraDataSize < N.of_nat (length extra))%N ->
      makeExtraData extra = []
      /\ makeExtraData (makeExtraData extra) = makeExtraData defaultExtraData)
  /\ makeExtraData []
     = (if (MaximumExtraDataSize <? N.of_nat (length defaultExtraData))%N
        then [] else defaultExtraData).
Proof.
  unfold GdaService.makeExtraData.
  split; [|split; [|split]].
  - destruct (Nat.eqb (length extra) 0); ltb_case; cbn [length]; lia.
  - intros Hn Hl. destruct extra as [|b extra]; [contradiction|].
    cbn [length Nat.eqb] in *. ltb_case; [lia | reflexivity].
  - intros Hn Hl. destruct extra as [|b extra]; [contradiction|].
    cbn [length Nat.eqb] in *. ltb_case; [|lia].
    split; [reflexivity|]. cbn [length Nat.eqb].
    destruct defaultExtraData as [|d def]; [|reflexivity].
    cbn [length Nat.eqb]. ltb_case; reflexivity.
  - reflexivity.
Qed.

End ExtraData.

Section Service.
Context {Address : Type} `{EqDecision Address}.
Variable zero : Address.
Variable Wallet : Type.

Local Abbreviation gdachain := (@GdaService.gdachain Address Wallet).
Local Abbreviation gdaerbase := (GdaService.gdaerbase zero Wallet).
Local Abbreviation StartMining := (GdaService.StartMining zero Wallet).

(** The account [gdaerbase] falls back to: the first account of the
    first wallet. *)
Lemma gdaerbase_unset (s : gdachain) :
  gdaerbase_ s = zero ->
  gdaerbase s
  = match Wallets (accountManager s) with
    | (a :: _) :: _ => ((a, None), setgdaerbase s a)
    | _ => ((zero, Some ErrgdaerbaseUnspecified), s)
    end.
Proof.
  intros E. unfold GdaService.gdaerbase.
  destruct (decide (gdaerbase_ s <> zero)) as [N | _]; [contradiction|].
  destruct (Wallets (accountManager s)) as [|[|a accounts] wallets];
    reflexivity.
Qed.

Lemma gdaerbase_set (s : gdachain) :
  gdaerbase_ s <> zero -> gdaerbase s = ((gdaerbase_ s, None), s).
Proof.
  intros N. unfold GdaService.gdaerbase.
  destruct (decide (gdaerbase_ s <> zero)); [reflexivity | contradiction].
Qed.

(** X10: [gdaerbase] returns the configured address whenever one is
    set, without looking at the wallets. With none set it returns the
    first account of the first wallet and stores it; when that account
    is not the zero address, later calls return the same address
    whatever the wallets then hold. A first account that is the zero
    address is returned without error but counts as no address set:
    the next call looks at the wallets again. Only the first wallet is
    looked at. It fails, returning the zero address and leaving the
    service as it was, exactly when no address is set and there is no
    wallet or the first wallet has no account. *)
Theorem gdaerbase_configured_or_first_account (s : gdachain) :
  (gdaerbase_ s <> zero -> gdaerbase s = ((gdaerbase_ s, None), s))
  /\ (forall a accounts wallets,
        gdaerbase_ s = zero ->
        Wallets (accountManager s) = (a :: accounts) :: wallets ->
        gdaerbase s = ((a, None), setgdaerbase s a)
        /\ (a <> zero ->
            forall am,
              gdaerbase
                (mkGdachain a am (isClique s) (authorized s) (acceptTxs s)
                   (minerCoinbase s) (minerStarted s) (LightServ s)
                   (LightPeers s) (hasLesServer s))
              = ((a, None),
                 mkGdachain a am (isClique s) (authorized s) (acceptTxs s)
                   (minerCoinbase s) (minerStarted s) (LightServ s)
                   (LightPeers s) (hasLesServer s))))
  /\ (snd (fst (gdaerbase s)) <> None
      <-> gdaerbase_ s = zero
          /\ (Wallets (accountManager s) = []
              \/ exists wallets, Wallets (accountManager s) = [] :: wallets))
  /\ (snd (fst (gdaerbase s)) <> None ->
      gdaerbase s = ((zero, Some ErrgdaerbaseUnspecified), s))
  /\ (forall accounts wallets am,
        gdaerbase_ s = zero ->
        Wallets (accountManager s) = (zero :: accounts) :: wallets ->
        gdaerbase s = ((zero, None), setgdaerbase s zero)
        /\ fst (gdaerbase
                  (mkGdachain zero am (isClique s) (authorized s)
                     (acceptTxs s) (minerCoinbase s) (minerStarted s)
                     (LightServ s) (LightPeers s) (hasLesServer s)))
           = match Wallets am with
             | (first :: _) :: _ => (first, None)
             | _ => (zero, Some ErrgdaerbaseUnspecified)
             end).
Proof.
  split; [apply gdaerbase_set|]. split; [|split; [|split]].
  - intros a accounts wallets E Hw. rewrite (gdaerbase_unset s E), Hw.
    split; [reflexivity|]. intros N am. now rewrite gdaerbase_set.
  - destruct (decide (gdaerbase_ s = zero)) as [E | N].
    + rewrite (gdaerbase_unset s E).
      destruct (Wallets (accountManager s)) as [|[|a accounts] wallets];
        cbn [fst snd]; split.
      * intros _. split; [exact E | now left].
      * discriminate.
      * intros _. split; [exact E | right; now eexists].
      * discriminate.
      * intros Hn. now contradiction Hn.
      * intros [_ [Hw | [ws Hw]]]; discriminate Hw.
    + rewrite (gdaerbase_set s N). cbn [fst snd]. split.
      * intros Hn. now contradiction Hn.
      * intros [E _]. contradiction.
  - destruct (decide (gdaerbase_ s = zero)) as [E | N].
    + rewrite (gdaerbase_unset s E).
      destruct (Wallets (accountManager s)) as [|[|a accounts] wallets];
        cbn [fst snd]; intros Hn; try reflexivity. now contradiction Hn.
    + rewrite (gdaerbase_set s N). cbn [fst snd]. intros Hn.
      now contradiction Hn.
  - intros accounts wallets am E Hw. rewrite (gdaerbase_unset s E), Hw.
    split; [reflexivity|]. rewrite gdaerbase_unset by reflexivity.
    cbn [accountManager].
    destruct (Wallets am) as [|[|first others] rest]; reflexivity.
Qed.

(** X11: after [Setgdaerbase] with an address other than zero,
    [gdaerbase] returns that address, whatever was configured or found
    in the wallets before, and the miner was told the address. Setting
    the zero address is no address at all: the next [gdaerbase] turns
    to the wallets again. *)
Theorem Setgdaerbase_then_gdaerbase (s : gdachain) (a : Address) :
  minerCoinbase (Setgdaerbase s a) = (minerCoinbase s ++ [a])%list
  /\ (a <> zero ->
      gdaerbase (Setgdaerbase s a) = ((a, None), Setgdaerbase s a))
  /\ (a = zero ->
      fst (gdaerbase (Setgdaerbase s a))
      = match Wallets (accountManager s) with
        | (first :: _) :: _ => (first, None)
        | _ => (zero, Some ErrgdaerbaseUnspecified)
        end).
Proof.
  split; [reflexivity|]. split.
  - intros N. now rewrite gdaerbase_set.
  - intros ->. rewrite gdaerbase_unset by reflexivity.
    cbn [GdaService.Setgdaerbase accountManager setgdaerbase Wallets].
    destruct (Wallets (accountManager s)) as [|[|first accounts] wallets];
      reflexivity.
Qed.

(** X12: [StartMining] starts the miner, with the address [gdaerbase]
    gives, exactly when that address is found and, under the clique
    engine, the account manager finds its wallet without error; it then
    returns no error, has authorized the signer under clique, and has
    opened transaction acceptance when the mining is local only. When
    it returns an error the miner is not started, nothing is
    authorized and transaction acceptance is untouched. In both cases
    an address that [gdaerbase] took from the wallets stays stored. *)
Theorem StartMining_starts_miner_iff_signer_known
    (s : gdachain) (local : bool) :
  let eb := fst (fst (gdaerbase s)) in
  let s1 := snd (gdaerbase s) in
  let s' := snd (StartMining s local) in
  (fst (StartMining s local) = None
   <-> snd (fst (gdaerbase s)) = None
       /\ (isClique s = true ->
           exists wallet, Find (accountManager s) eb = (Some wallet, None)))
  /\ (fst (StartMining s local) = None ->
      minerStarted s' = (minerStarted s ++ [eb])%list
      /\ acceptTxs s' = (if local then 1%N else acceptTxs s)
      /\ (isClique s = true ->
          exists wallet,
            Find (accountManager s) eb = (Some wallet, None)
            /\ authorized s' = (authorized s ++ [(eb, wallet)])%list)
      /\ (isClique s = false -> authorized s' = authorized s))
  /\ (fst (StartMining s local) <> None ->
      minerStarted s' = minerStarted s
      /\ acceptTxs s' = acceptTxs s
      /\ authorized s' = authorized s)
  /\ gdaerbase_ s' = gdaerbase_ s1.
Proof.
  cbn zeta. unfold GdaService.StartMining.
  assert (isClique (snd (gdaerbase s)) = isClique s
          /\ accountManager (snd (gdaerbase s)) = accountManager s
          /\ minerStarted (snd (gdaerbase s)) = minerStarted s
          /\ acceptTxs (snd (gdaerbase s)) = acceptTxs s
          /\ authorized (snd (gdaerbase s)) = authorized s)
    as (Hc & Ha & Hm & Ht & Hz).
  { unfold GdaService.gdaerbase.
    destruct (decide (gdaerbase_ s <> zero)); [now repeat split|].
    destruct (Wallets (accountManager s)) as [|[|a accounts] wallets];
      now repeat split. }
  destruct (gdaerbase s) as [[eb [err|]] s1]; cbn [fst snd] in *.
  { split; [split; [discriminate | intros [H _]; discriminate H]|].
    split; [discriminate|]. split; [intros _; auto | reflexivity]. }
  rewrite Hc, Ha. destruct (isClique s) eqn:Ec.
  - destruct (Find (accountManager s) eb) as [[wallet|] [e|]] eqn:Ef;
      cbn [fst snd].
    2: { destruct local;
           cbn [fst snd minerStarted acceptTxs authorized gdaerbase_].
         all: split; [split; [intros _; split; [reflexivity|eauto]
                             |reflexivity]|].
         all: split; [intros _; split; [congruence|];
                      split; [congruence|];
                      split; [intros _; eexists; split;
                                       [reflexivity | congruence]
                             |discriminate]|].
         all: split; [intros H; now contradiction H | reflexivity]. }
    all: split; [split; [discriminate
                        |intros [_ H]; destruct (H eq_refl) as [w Hw];
                         discriminate Hw]|].
    all: split; [discriminate|].
    all: split; [intros _; auto | reflexivity].
  - destruct local;
      cbn [fst snd minerStarted acceptTxs authorized gdaerbase_].
    all: split; [split; [intros _; split; [reflexivity | discriminate]
                        |reflexivity]|].
    all: split; [intros _; split; [congruence|]; split; [congruence|];
                 split; [discriminate | intros _; congruence]|].
    all: split; [intros H; now contradiction H | reflexivity].
Qed.

(** X13: [Start] fails exactly when light serving is on and the
    light peer count is not below the peer limit of the server; the
    bloom handlers and the net API are set up before that check, but
    neither the protocol manager nor the light server is started.
    Otherwise the protocol manager is started once: with the server's
    limit when light serving is off, and with the limit less the light
    peers when it is on. That difference is at least one and at most
    the limit for a light peer count that is not negative. For a
    negative count it is above the server's limit as long as it fits
    an [int]; when it does not, the subtraction wraps around and the
    protocol manager is started with a negative limit. The light
    server is started, last, exactly when there is one and [Start]
    does not fail. [intSize] is the width of [int], 32 or 64 bits. *)
Theorem Start_peer_budget (intSize : Z) (s : gdachain) (MaxPeers : Z) :
  intSize = 32%Z \/ intSize = 64%Z ->
  (- 2 ^ (intSize - 1) <= MaxPeers < 2 ^ (intSize - 1))%Z ->
  (- 2 ^ (intSize - 1) <= LightPeers s < 2 ^ (intSize - 1))%Z ->
  (fst (Start intSize s MaxPeers) <> None
   <-> (0 < LightServ s)%Z /\ (MaxPeers <= LightPeers s)%Z)
  /\ (fst (Start intSize s MaxPeers) <> None ->
      Start intSize s MaxPeers
      = (Some (ErrInvalidPeerConfig (LightPeers s) MaxPeers),
         [StartBloomHandlers; NewPublicNetAPI]))
  /\ (fst (Start intSize s MaxPeers) = None ->
      exists n,
        snd (Start intSize s MaxPeers)
        = ([StartBloomHandlers; NewPublicNetAPI; StartProtocolManager n]
           ++ (if hasLesServer s then [StartLesServer] else []))%list
        /\ ((LightServ s <= 0)%Z -> n = MaxPeers)
        /\ ((0 < LightServ s)%Z -> (0 <= LightPeers s)%Z ->
            n = (MaxPeers - LightPeers s)%Z /\ (1 <= n <= MaxPeers)%Z)
        /\ ((0 < LightServ s)%Z -> (LightPeers s < 0)%Z ->
            ((MaxPeers - LightPeers s < 2 ^ (intSize - 1))%Z ->
             n = (MaxPeers - LightPeers s)%Z /\ (MaxPeers < n)%Z)
            /\ ((2 ^ (intSize - 1) <= MaxPeers - LightPeers s)%Z ->
                n = (MaxPeers - LightPeers s - 2 ^ intSize)%Z
                /\ (n < 0)%Z))).
Proof.
  intros Hw HM HL. unfold GdaService.Start.
  assert (forall z,
             (- 2 ^ (intSize - 1) <= z < 2 ^ (intSize - 1))%Z ->
             wrapInt intSize z = z) as Hfit.
  { intros z Hz. unfold wrapInt.
    destruct Hw as [-> | ->]; change (32 - 1)%Z with 31%Z in *;
      change (64 - 1)%Z with 63%Z in *; rewrite Z.mod_small; lia. }
  assert (forall z,
             (2 ^ (intSize - 1) <= z < 2 ^ intSize)%Z ->
             wrapInt intSize z = (z - 2 ^ intSize)%Z) as Hover.
  { intros z Hz. unfold wrapInt.
    destruct Hw as [-> | ->]; change (32 - 1)%Z with 31%Z in *;
      change (64 - 1)%Z with 63%Z in *.
    - rewrite <- (Z.mod_unique (z + 2 ^ 31) (2 ^ 32) 1 (z + 2 ^ 31 - 2 ^ 32));
        lia.
    - rewrite <- (Z.mod_unique (z + 2 ^ 63) (2 ^ 64) 1 (z + 2 ^ 63 - 2 ^ 64));
        lia. }
  assert (2 ^ intSize = 2 * 2 ^ (intSize - 1))%Z as Hpow
    by (destruct Hw as [-> | ->]; reflexivity).
  destruct (Z.ltb_spec 0 (LightServ s)) as [Hs | Hs].
  - destruct (Z.leb_spec MaxPeers (LightPeers s)) as [Hp | Hp].
    + cbn [fst snd].
      split; [split; [intros _; now split | discriminate]|].
      split; [reflexivity|]. intros H. discriminate H.
    + destruct (hasLesServer s); cbn [fst snd app].
      all: split; [split; [intros H; now contradiction H
                          |intros [_ H]; lia]|].
      all: split; [intros H; now contradiction H|].
      all: intros _; exists (wrapInt intSize (MaxPeers - LightPeers s)).
      all: split; [reflexivity|].
      all: split; [lia|].
      all: split; [intros _ H0; rewrite Hfit by lia; lia|].
      all: intros _ H0; split; intros H1;
        [rewrite Hfit by lia | rewrite Hover by lia]; lia.
  - destruct (hasLesServer s); cbn [fst snd app].
    all: split; [split; [intros H; now contradiction H
                        |intros [H _]; lia]|].
    all: split; [intros H; now contradiction H|].
    all: intros _; exists MaxPeers.
    all: split; [reflexivity|].
    all: split; [reflexivity|]; split; intros; lia.
Qed.

End Service.

End GdaServiceFacts.

Module GdaServiceExamples.
Import GdaService GdaServiceFacts ServiceSamples.

Lemma makeExtraData_within_limit_witness :
  makeExtraData 32 [x67; x67; x64; x61] (replicate 33 xff) = []
  /\ makeExtraData 32 [x67; x67; x64; x61]
       (makeExtraData 32 [x67; x67; x64; x61] (replicate 33 xff))
     = [x67; x67; x64; x61].
Proof.
  destruct (makeExtraData_within_limit 32 [x67; x67; x64; x61]
              (replicate 33 xff)) as (_ & _ & H & _).
  destruct H as [H1 H2]; [discriminate | reflexivity|].
  split; [exact H1|]. rewrite H2. reflexivity.
Defined.

Lemma gdaerbase_configured_or_first_account_witness :
  gdaerbase 0%N string signer = ((5%N, None), setgdaerbase signer 5%N)
  /\ gdaerbase 0%N string
       (mkGdachain 5%N (mkAccountManager [] (Find manager)) true [] 0 []
          [] 1 10 true)
     = ((5%N, None),
        mkGdachain 5%N (mkAccountManager [] (Find manager)) true [] 0 []
          [] 1 10 true)
  /\ fst (gdaerbase 0%N string
            (mkGdachain 0%N (mkAccountManager [[7%N]] (Find manager)) true
               [] 0 [] [] 1 10 true))
     = (7%N, None).
Proof.
  destruct (gdaerbase_configured_or_first_account 0%N string signer)
    as (_ & H & _).
  destruct (H 5%N [6%N] [[7%N]] eq_refl eq_refl) as [H1 H2].
  split; [exact H1|]. split.
  - apply (H2 ltac:(discriminate) (mkAccountManager [] (Find manager))).
  - destruct (gdaerbase_configured_or_first_account 0%N string
                (mkGdachain 0%N (mkAccountManager [[0%N]] (Find manager))
                   true [] 0 [] [] 1 10 true)) as (_ & _ & _ & _ & H0).
    destruct (H0 [] [] (mkAccountManager [[7%N]] (Find manager)) eq_refl
                 eq_refl) as [_ H3].
    exact H3.
Defined.

Lemma Setgdaerbase_then_gdaerbase_witness :
  gdaerbase 0%N string (Setgdaerbase signer 9%N)
  = ((9%N, None), Setgdaerbase signer 9%N).
Proof.
  apply (proj1 (proj2 (Setgdaerbase_then_gdaerbase 0%N string signer 9%N))).
  discriminate.
Defined.

Lemma StartMining_starts_miner_iff_signer_known_witness :
  fst (StartMining 0%N string signer true) = None
  /\ minerStarted (snd (StartMining 0%N string signer true)) = [5%N]
  /\ acceptTxs (snd (StartMining 0%N string signer true)) = 1%N.
Proof.
  destruct (StartMining_starts_miner_iff_signer_known 0%N string signer
              true) as (H1 & H2 & _).
  assert (fst (StartMining 0%N string signer true) = None) as Hn.
  { apply H1. split; [reflexivity|]. intros _. now exists "keystore". }
  destruct (H2 Hn) as (Hm & Ht & _).
  split; [exact Hn|]. split; [exact Hm | exact Ht].
Defined.

Lemma Start_peer_budget_witness :
  Start 64 signer 25
  = (None,
     [StartBloomHandlers; NewPublicNetAPI; StartProtocolManager 15;
      StartLesServer])
  /\ Start 64 signer 10
     = (Some (ErrInvalidPeerConfig 10 10),
        [StartBloomHandlers; NewPublicNetAPI])
  /\ Start 32
       (mkGdachain 0%N manager true [] 0 [] [] 1 (-1) true) 2147483647
     = (None,
        [StartBloomHandlers; NewPublicNetAPI;
         StartProtocolManager (-2147483648); StartLesServer]).
Proof.
  split; [|split].
  - destruct (Start_peer_budget string 64 signer 25 (or_intror eq_refl)
                ltac:(cbn; lia) ltac:(cbn; lia)) as (_ & _ & H).
    destruct (H eq_refl) as (n & Hs & _ & Hn & _).
    destruct (Hn ltac:(cbn; lia) ltac:(cbn; lia)) as [-> _].
    rewrite (surjective_pairing (Start 64 signer 25)), Hs. reflexivity.
  - destruct (Start_peer_budget string 64 signer 10 (or_intror eq_refl)
                ltac:(cbn; lia) ltac:(cbn; lia)) as (_ & H & _).
    apply H. discriminate.
  - destruct (Start_peer_budget string 32
                (mkGdachain 0%N manager true [] 0 [] [] 1 (-1) true)
                2147483647 (or_introl eq_refl) ltac:(cbn; lia)
                ltac:(cbn; lia)) as (_ & _ & H).
    destruct (H eq_refl) as (n & Hs & _ & _ & Hn).
    destruct (Hn ltac:(cbn; lia) ltac:(cbn; lia)) as [_ Hw].
    destruct (Hw ltac:(cbn; lia)) as [-> _].
    rewrite (surjective_pairing (Start 32 _ 2147483647)), Hs. reflexivity.
Defined.

End GdaServiceExamples.

Module LesBackendFacts.
Import Common Les LesBackend.

(** Every path through [New], by the answers it branches on. *)
Ltac New_paths w :=
  unfold LesBackend.New, Gda.CreateDB;
  destruct (Gda.openDatabase (ctx w)) eqn:?;
  [|destruct (Gda.genesisErr (ctx w)) eqn:?;
    destruct (newLightChain w) eqn:?;
    destruct (newProtocolManager w) eqn:?];
  cbn [fst snd map]; rewrite <- ?app_assoc; cbn [app].

(** X14: the light service is built whatever the sync mode, the
    version-check flag and the stored block chain version are, and
    whatever the block chain and the protocol manager of the full
    service would answer: [New] never asks. It returns either a
    service and no error or no service and an error, and it returns
    the service exactly when the database opens, the genesis block is
    set up with at most a compatibility error, and the light chain and
    the protocol manager are built without error. The first thing it
    does is to open the database named lightchaindata, and that is the
    only database it opens. *)
Theorem New_light_service_iff_all_steps_succeed
    (w : World) (config : Gda.Config) (done : list effect) :
  (forall mode skip ctx',
      Gda.openDatabase ctx' = Gda.openDatabase (ctx w) ->
      Gda.genesisErr ctx' = Gda.genesisErr (ctx w) ->
      New (mkWorld ctx' (newLightChain w) (newProtocolManager w))
        (Gda.mkConfig mode skip (Gda.NetworkId config)) done
      = ((match fst (fst (New w config done)) with
          | Some _ =>
              Some (mkLightgdachain
                      (Gda.mkConfig mode skip (Gda.NetworkId config))
                      (Gda.NetworkId config))
          | None => None
          end,
          snd (fst (New w config done))),
         snd (New w config done)))
  /\ (fst (New w config done)
      = (Some (mkLightgdachain config (Gda.NetworkId config)), None)
      \/ exists e, fst (New w config done) = (None, Some e))
  /\ (fst (New w config done)
      = (Some (mkLightgdachain config (Gda.NetworkId config)), None)
      <-> Gda.openDatabase (ctx w) = None
          /\ Gda.genesisErr (ctx w) <> Gda.OtherGenesisError
          /\ newLightChain w = None
          /\ newProtocolManager w = None)
  /\ (exists more,
        snd (New w config done)
        = (done ++ Shared (Gda.OpenDatabase "lightchaindata") :: more)%list
        /\ forall name,
             In (Shared (Gda.OpenDatabase name)) more -> False).
Proof.
  split; [|split; [|split]].
  - intros mode skip ctx' Ho Hg. unfold LesBackend.New, Gda.CreateDB.
    cbn [ctx newProtocolManager newLightChain Gda.NetworkId].
    rewrite Ho, Hg.
    destruct (Gda.openDatabase (ctx w)); [reflexivity|].
    destruct (Gda.genesisErr (ctx w)); [| |reflexivity];
      (destruct (newLightChain w); [reflexivity|]);
      (destruct (newProtocolManager w); reflexivity).
  - New_paths w;
      first [left; reflexivity | right; eexists; reflexivity].
  - New_paths w;
      (split; [intros [=] | intros (H1 & H2 & H3 & H4)];
       repeat split; auto; try congruence).
  - New_paths w; (eexists; split; [reflexivity|]);
      cbn [In]; intros name H;
      repeat (destruct H as [H | H]; try discriminate H); exact H.
Qed.

(** X15: the full service and the light service never share a
    database: whatever the configuration and the world, every database
    [gda.New] opens is named chaindata and every database [les.New]
    opens is named lightchaindata. A configuration in light sync mode
    is the one [gda.New] turns away before any effect, and [les.New]
    goes on with it as with any other. *)
Theorem New_full_and_light_databases_apart
    (LightSync : Z) (IsValid : Z -> bool) (BlockChainVersion : Z)
    (w : World) (config : Gda.Config) :
  (forall name,
      In (Gda.OpenDatabase name)
        (snd (Gda.New LightSync IsValid BlockChainVersion (ctx w) config []))
      -> name = "chaindata")
  /\ (forall name,
         In (Shared (Gda.OpenDatabase name)) (snd (New w config []))
         -> name = "lightchaindata")
  /\ (Gda.SyncMode config = LightSync ->
      Gda.New LightSync IsValid BlockChainVersion (ctx w) config []
      = ((None, Some Gda.ErrLightSync), [])
      /\ exists more,
           snd (New w config [])
           = Shared (Gda.OpenDatabase "lightchaindata") :: more).
Proof.
  split; [|split].
  - unfold Gda.New, Gda.CreateDB. intros name.
    destruct (Z.eqb (Gda.SyncMode config) LightSync); [intros []|].
    destruct (IsValid (Gda.SyncMode config)); cbn [negb]; [|intros []].
    destruct (Gda.openDatabase (ctx w));
      [|destruct (Gda.genesisErr (ctx w));
        destruct (Gda.SkipBcVersionCheck config); cbn [negb];
        destruct (Z.eqb (Gda.blockChainVersion (ctx w)) BlockChainVersion);
        destruct (Z.eqb (Gda.blockChainVersion (ctx w)) 0);
        cbn [negb andb];
        destruct (Gda.newBlockChain (ctx w));
        destruct (Gda.newProtocolManager (ctx w))];
      cbn [fst snd app In]; intros H;
      repeat (destruct H as [H | H]; try discriminate H);
      try contradiction; now injection H as <-.
  - intros name. New_paths w; cbn [In]; intros H;
      repeat (destruct H as [H | H]; try discriminate H);
      try contradiction; now injection H as <-.
  - intros E. split.
    + unfold Gda.New. rewrite E, Z.eqb_refl. reflexivity.
    + New_paths w; eexists; reflexivity.
Qed.

Section Start.
Variables lpv1 lpv2 : N.
Variable AdvertiseProtocolVersions : list N.

Local Abbreviation Start :=
  (LesBackend.Start lpv1 lpv2 AdvertiseProtocolVersions).

(** X16: [Start] of the light service never returns an error: it
    panics exactly when no protocol version is advertised or the first
    advertised version is neither lpv1 nor lpv2, after the bloom
    handlers and the net API are set up and before the server pool and
    the protocol manager are started. Otherwise it starts the server
    pool on the topic of the first advertised version alone, and then
    the protocol manager with the light peer count as it is. *)
Theorem Start_panics_iff_first_version_unsupported
    (s : Lightgdachain) (genesisHash : Hash) (LightPeers : Z) :
  (fst (Start s genesisHash LightPeers) = Panics
   <-> match AdvertiseProtocolVersions with
       | [] => True
       | v :: _ => v <> lpv1 /\ v <> lpv2
       end)
  /\ (fst (Start s genesisHash LightPeers) = Panics ->
      snd (Start s genesisHash LightPeers)
      = [StartBloomHandlers; NewPublicNetAPI (networkId s)])
  /\ (forall r, fst (Start s genesisHash LightPeers) = Returns r ->
      r = None
      /\ exists v rest name,
           AdvertiseProtocolVersions = v :: rest
           /\ (v = lpv1 /\ name = "LES"
               \/ v <> lpv1 /\ v = lpv2 /\ name = "LES2")
           /\ snd (Start s genesisHash LightPeers)
              = [StartBloomHandlers; NewPublicNetAPI (networkId s);
                 StartServerPool
                   (name ++ "@" ++ Bytes2Hex (take 8 (Bytes genesisHash)));
                 StartProtocolManager LightPeers]).
Proof.
  unfold LesBackend.Start, lesTopic.
  destruct AdvertiseProtocolVersions as [|v rest]; cbn [fst snd].
  { split; [split; auto|]. split; [reflexivity | discriminate]. }
  destruct (N.eqb_spec v lpv1) as [E1 | N1]; cbn [fst snd app].
  { split; [split; [discriminate | intros [H _]; contradiction]|].
    split; [discriminate|]. intros r [= <-]. split; [reflexivity|].
    exists v, rest, "LES". split; [reflexivity|].
    split; [left; now split | reflexivity]. }
  destruct (N.eqb_spec v lpv2) as [E2 | N2]; cbn [fst snd app].
  { split; [split; [discriminate | intros [_ H]; contradiction]|].
    split; [discriminate|]. intros r [= <-]. split; [reflexivity|].
    exists v, rest, "LES2". split; [reflexivity|].
    split; [right; now repeat split | reflexivity]. }
  split; [split; [intros _; now split | reflexivity]|].
  split; [reflexivity | discriminate].
Qed.

End Start.

End LesBackendFacts.

Module LesBackendExamples.
Import Common Les LesBackend LesBackendFacts Fixtures.

Lemma New_light_service_iff_all_steps_succeed_witness :
  fst (New (mkWorld healthy None None) (Gda.mkConfig LightSync false 1) [])
  = (Some (mkLightgdachain (Gda.mkConfig LightSync false 1) 1), None).
Proof.
  apply (proj1 (proj2 (proj2 (New_light_service_iff_all_steps_succeed
                                (mkWorld healthy None None)
                                (Gda.mkConfig LightSync false 1) [])))).
  repeat split; discriminate.
Defined.

Lemma New_full_and_light_databases_apart_witness :
  Gda.New LightSync IsValid 3 healthy (Gda.mkConfig LightSync false 1) []
  = ((None, Some Gda.ErrLightSync), []).
Proof.
  apply (proj2 (proj2 (New_full_and_light_databases_apart LightSync IsValid
                         3 (mkWorld healthy None None)
                         (Gda.mkConfig LightSync false 1)))).
  reflexivity.
Defined.

Lemma Start_panics_iff_first_version_unsupported_witness :
  fst (Start 1 2 [3; 2]%N (mkLightgdachain (Gda.mkConfig 2 false 1) 1)
         genesis 100) = Panics
  /\ Start 1 2 [2; 3]%N (mkLightgdachain (Gda.mkConfig 2 false 1) 1)
       genesis 100
     = (Returns None,
        [StartBloomHandlers; NewPublicNetAPI 1;
         StartServerPool "LES2@0001020304050607";
         StartProtocolManager 100]).
Proof.
  split.
  - apply (proj1 (Start_panics_iff_first_version_unsupported 1 2 [3; 2]%N
                    (mkLightgdachain (Gda.mkConfig 2 false 1) 1) genesis
                    100)).
    split; discriminate.
  - reflexivity.
Defined.

End LesBackendExamples.

Module ApiBackendFacts.
Import Common Slices SlicesFacts ApiBackend.

Lemma uint64_wraps (n : Z) :
  ((- 2 ^ 63 <= n < 0)%Z -> uint64 n = Z.to_N (2 ^ 64 + n))
  /\ ((0 <= n < 2 ^ 63)%Z -> uint64 n = Z.to_N n).
Proof.
  unfold uint64. split; intros Hn.
  - replace (n mod 2 ^ 64)%Z with (2 ^ 64 + n)%Z; [reflexivity|].
    apply (Z.mod_unique _ _ (-1)); lia.
  - rewrite Z.mod_small by lia. reflexivity.
Qed.

Section Backends.
Variables PendingBlockNumber LatestBlockNumber : Z.
Variables Header Block StateDB error : Type.
Variable BlockHeader : option Block -> outcome (option Header).
Variable Root : Header -> Hash.
Variable HeaderHash : Header -> Hash.
Variable NewState : Header -> option StateDB.

Local Abbreviation FullNode := (FullNode Header Block StateDB error).
Local Abbreviation HeaderByNumber :=
  (@HeaderByNumber PendingBlockNumber LatestBlockNumber Header Block StateDB
     error BlockHeader).
Local Abbreviation BlockByNumber :=
  (@BlockByNumber PendingBlockNumber LatestBlockNumber Header Block StateDB
     error).
Local Abbreviation StateAndHeaderByNumber :=
  (@StateAndHeaderByNumber PendingBlockNumber LatestBlockNumber Header Block
     StateDB error BlockHeader Root).
Local Abbreviation LightNode := (LightNode Header Block error).
Local Abbreviation LesHeaderByNumber :=
  (@LesHeaderByNumber PendingBlockNumber LatestBlockNumber Header Block
     error).
Local Abbreviation LesBlockByNumber :=
  (@LesBlockByNumber PendingBlockNumber LatestBlockNumber Header Block error
     HeaderHash).
Local Abbreviation LesStateAndHeaderByNumber :=
  (@LesStateAndHeaderByNumber PendingBlockNumber LatestBlockNumber Header
     Block StateDB error NewState).

(** X17: on the full service, for every block number but the pending
    one, [StateAndHeaderByNumber] follows [HeaderByNumber]: it panics
    when that panics, returns no state, no header and no error when
    that finds no header, and else returns the header found with
    whatever [StateAt] gives for its root, the header also when
    [StateAt] fails. A number that is neither pending nor latest is
    looked up as an unsigned 64-bit number, so a negative one asks for
    the block 2^64 places above it; a block that is not known is no
    error, for headers, blocks and states alike. *)
Theorem StateAndHeaderByNumber_follows_HeaderByNumber
    (b : FullNode) (blockNr : Z) :
  blockNr <> PendingBlockNumber ->
  match HeaderByNumber b blockNr with
  | Panics => StateAndHeaderByNumber b blockNr = Panics
  | Returns (None, _) =>
      StateAndHeaderByNumber b blockNr = Returns (None, None, None)
  | Returns (Some header, _) =>
      StateAndHeaderByNumber b blockNr
      = Returns (fst (StateAt _ _ _ _ b (Root header)), Some header,
                 snd (StateAt _ _ _ _ b (Root header)))
  end
  /\ (blockNr <> LatestBlockNumber ->
      HeaderByNumber b blockNr
      = Returns (GetHeaderByNumber _ _ _ _ b (uint64 blockNr), None)
      /\ BlockByNumber b blockNr
         = (GetBlockByNumber _ _ _ _ b (uint64 blockNr), None)
      /\ ((- 2 ^ 63 <= blockNr < 0)%Z ->
          uint64 blockNr = Z.to_N (2 ^ 64 + blockNr))
      /\ ((0 <= blockNr < 2 ^ 63)%Z -> uint64 blockNr = Z.to_N blockNr)).
Proof.
  intros Np. unfold ApiBackend.StateAndHeaderByNumber.
  destruct (Z.eqb_spec blockNr PendingBlockNumber) as [E | _];
    [contradiction|].
  split.
  - assert (forall r, HeaderByNumber b blockNr = Returns r -> snd r = None)
      as Herr.
    { unfold ApiBackend.HeaderByNumber. intros r.
      destruct (Z.eqb blockNr PendingBlockNumber);
        [destruct (BlockHeader _); [|discriminate]; now intros [= <-]|].
      destruct (Z.eqb blockNr LatestBlockNumber);
        [destruct (BlockHeader _); [|discriminate]; now intros [= <-]|].
      now intros [= <-]. }
    destruct (HeaderByNumber b blockNr) as [[[header|] err]|];
      [| |reflexivity].
    + pose proof (Herr _ eq_refl) as He. cbn [snd] in He. subst err.
      destruct (StateAt _ _ _ _ b (Root header)); reflexivity.
    + pose proof (Herr _ eq_refl) as He. cbn [snd] in He. subst err.
      reflexivity.
  - intros Nl. unfold ApiBackend.HeaderByNumber, ApiBackend.BlockByNumber.
    destruct (Z.eqb_spec blockNr PendingBlockNumber); [contradiction|].
    destruct (Z.eqb_spec blockNr LatestBlockNumber); [contradiction|].
    split; [reflexivity|]. split; [reflexivity|]. apply uint64_wraps.
Qed.

(** X18: on the light service the pending block is the latest block:
    headers, blocks and states asked for by either number are answered
    alike, from the current header. For every block number,
    [StateAndHeaderByNumber] returns a header only without an error
    and only the one [HeaderByNumber] gives, and neither it nor
    [BlockByNumber] returns anything but the error of [HeaderByNumber]
    when that gives no header or an error; a block returned is the one
    stored under the hash of that header. *)
Theorem Les_pending_is_latest (b : LightNode) (blockNr : Z) :
  (LesHeaderByNumber b PendingBlockNumber
   = (CurrentHeader _ _ _ b, None)
   /\ LesHeaderByNumber b LatestBlockNumber = (CurrentHeader _ _ _ b, None)
   /\ LesBlockByNumber b PendingBlockNumber
      = LesBlockByNumber b LatestBlockNumber
   /\ LesStateAndHeaderByNumber b PendingBlockNumber
      = LesStateAndHeaderByNumber b LatestBlockNumber)
  /\ (forall header,
        snd (fst (LesStateAndHeaderByNumber b blockNr)) = Some header ->
        LesHeaderByNumber b blockNr = (Some header, None)
        /\ LesStateAndHeaderByNumber b blockNr
           = (NewState header, Some header, None)
        /\ LesBlockByNumber b blockNr
           = GetBlockByHash _ _ _ b (HeaderHash header))
  /\ (snd (fst (LesStateAndHeaderByNumber b blockNr)) = None ->
      LesStateAndHeaderByNumber b blockNr
      = (None, None, snd (LesHeaderByNumber b blockNr))
      /\ LesBlockByNumber b blockNr
         = (None, snd (LesHeaderByNumber b blockNr))).
Proof.
  split; [|split].
  - unfold ApiBackend.LesBlockByNumber, ApiBackend.LesStateAndHeaderByNumber,
      ApiBackend.LesHeaderByNumber.
    rewrite !Z.eqb_refl, !orb_true_r. cbn [orb]. repeat split.
  - unfold ApiBackend.LesBlockByNumber, ApiBackend.LesStateAndHeaderByNumber.
    intros header.
    destruct (LesHeaderByNumber b blockNr) as [[h|] [e|]]; cbn [fst snd];
      try discriminate.
    intros [= ->]. repeat split.
  - unfold ApiBackend.LesBlockByNumber, ApiBackend.LesStateAndHeaderByNumber.
    destruct (LesHeaderByNumber b blockNr) as [[h|] [e|]]; cbn [fst snd];
      try discriminate; intros _; split; reflexivity.
Qed.

End Backends.

Section Logs.
Variables Bloom Log Address : Type.
Variable GetBlockNumber : Hash -> N.
Variable GetBlockReceipts
  : Hash -> N -> option (list (option (Types.Receipt Bloom Log Address))).

Local Abbreviation GetLogs :=
  (GetLogs Bloom Log Address GetBlockNumber GetBlockReceipts).
Local Abbreviation GetReceipts :=
  (GetReceipts Bloom Log Address GetBlockNumber GetBlockReceipts).

(** X19: [GetLogs] panics exactly when one of the receipt pointers
    that [GetReceipts] returns for the block hash is nil. Otherwise it
    returns, receipt by receipt and in their order, the logs of those
    receipts: as many log lists as receipts, and nil exactly when the
    receipts are nil. *)
Theorem GetLogs_of_GetReceipts (blockHash : Hash) :
  (GetLogs blockHash = Panics
   <-> exists receipts,
         GetReceipts blockHash = Some receipts /\ None ∈ receipts)
  /\ (GetLogs blockHash = Returns None <-> GetReceipts blockHash = None)
  /\ (forall receipts,
        GetReceipts blockHash = Some (map Some receipts) ->
        GetLogs blockHash = Returns (Some (map Types.Logs receipts)))
  /\ (forall receipts logs,
        GetReceipts blockHash = Some receipts ->
        GetLogs blockHash = Returns (Some logs) ->
        length logs = length receipts
        /\ forall i receipt,
             receipts !! i = Some (Some receipt) ->
             logs !! i = Some (Types.Logs receipt)).
Proof.
  unfold ApiBackend.GetLogs, ApiBackend.GetReceipts.
  destruct (GetBlockReceipts blockHash (GetBlockNumber blockHash))
    as [receipts|].
  2: { split; [split; [discriminate | intros (rs & H & _); discriminate H]|].
       split; [split; reflexivity|]. split; discriminate. }
  assert (forall rs : list (Types.Receipt Bloom Log Address),
             rangeAssignOrPanic (LogsOf Bloom Log Address) 0 (map Some rs)
               (make [] (length (map Some rs)))
             = Returns (map Types.Logs rs)) as Hall.
  { intros rs.
    apply (rangeAssignOrPanic_from (LogsOf Bloom Log Address) [] []).
    induction rs as [|r rs IH]; constructor; [reflexivity | exact IH]. }
  assert (None ∈ receipts \/ exists rs, receipts = map Some rs)
    as [Hnil | [rs ->]].
  { clear Hall. induction receipts as [|[r|] receipts IH].
    - right. now exists [].
    - destruct IH as [Hin | [rs ->]].
      + left. apply elem_of_cons; now right.
      + right. now exists (r :: rs).
    - left. apply elem_of_cons. now left. }
  - rewrite rangeAssignOrPanic_panics.
    2: { apply Exists_exists. exists None.
         split; [exact Hnil | reflexivity]. }
    split; [split; [intros _; now exists receipts | reflexivity]|].
    split; [split; discriminate|]. split.
    + intros rs [= ->]. exfalso.
      apply list_elem_of_fmap in Hnil as (r & Hr & _). discriminate Hr.
    + intros rs logs _ H. discriminate H.
  - assert (None ∉ map Some rs) as Hsome.
    { intros Hin. apply list_elem_of_fmap in Hin as (r & Hr & _).
      discriminate Hr. }
    rewrite Hall.
    split; [split; [discriminate | intros (rs' & [= <-] & Hin);
                                   contradiction]|].
    split; [split; discriminate|]. split.
    + intros rs' [= Hrs]. apply (inj (fmap Some)) in Hrs. now subst.
    + intros rs' logs [= <-] [= <-].
      split; [now rewrite !length_map|].
      intros i receipt Hi. rewrite list_lookup_fmap in Hi.
      rewrite list_lookup_fmap.
      destruct (rs !! i) as [r|]; [|discriminate Hi].
      cbn in Hi. injection Hi as <-. reflexivity.
Qed.

End Logs.

Section Pool.
Context {Address : Type} `{Countable Address}.
Variable Transaction : Type.

Lemma appendBatches_concat (visit : list (Address * list Transaction))
    (txs : list Transaction) :
  appendBatches Transaction visit txs = (txs ++ concat (map snd visit))%list.
Proof.
  revert txs. induction visit as [|[a batch] visit IH]; intros txs;
    cbn [appendBatches map concat snd].
  - now rewrite app_nil_r.
  - rewrite IH, <- app_assoc. reflexivity.
Qed.

Lemma elem_of_concat {A : Type} (x : A) (l : list (list A)) :
  x ∈ concat l <-> exists b, x ∈ b /\ b ∈ l.
Proof.
  rewrite list_elem_of_In, in_concat. split.
  - intros (b & H1 & H2). exists b. now rewrite !list_elem_of_In.
  - intros (b & H1 & H2). exists b. now rewrite <- !list_elem_of_In.
Qed.

Lemma concat_Permutation_snd
    (v v' : list (Address * list Transaction)) :
  v ≡ₚ v' -> concat (map snd v) ≡ₚ concat (map snd v').
Proof.
  induction 1 as [|x l l' _ IH|x y l|l l' l'' _ IH1 _ IH2];
    cbn [map concat].
  - reflexivity.
  - now rewrite IH.
  - rewrite !app_assoc. apply Permutation_app_tail, Permutation_app_comm.
  - now rewrite IH1.
Qed.

(** X20: [GetPoolTransactions] returns exactly the pending transactions
    of all accounts: a transaction is in the result if and only if it
    is in the batch of some account. The order of the accounts is the
    order the map is visited in, which is left open, so two runs on
    the same pool may differ, but only by a permutation; the batch of
    each account stays in one piece, in its own order. When the pool
    reports an error the result is nil with that error. *)
Theorem GetPoolTransactions_all_pending {error : Type}
    (pending : gmap Address (list Transaction))
    (visit visit' : list (Address * list Transaction)) :
  visits Transaction pending visit ->
  visits Transaction pending visit' ->
  snd (GetPoolTransactions Transaction pending (@None error) visit) = None
  /\ (forall tx,
        tx ∈ fst (GetPoolTransactions Transaction pending (@None error) visit)
        <-> exists a batch, pending !! a = Some batch /\ tx ∈ batch)
  /\ fst (GetPoolTransactions Transaction pending (@None error) visit)
     ≡ₚ fst (GetPoolTransactions Transaction pending (@None error) visit')
  /\ (forall a batch,
        pending !! a = Some batch ->
        exists before after,
          fst (GetPoolTransactions Transaction pending (@None error) visit)
          = (before ++ batch ++ after)%list)
  /\ (forall e : error,
        GetPoolTransactions Transaction pending (Some e) visit
        = ([], Some e)).
Proof.
  unfold visits, GetPoolTransactions. intros Hv Hv'. cbn [fst snd].
  rewrite !appendBatches_concat. cbn [app].
  split; [reflexivity|]. split; [|split; [|split; [|reflexivity]]].
  - intros tx. rewrite elem_of_concat. split.
    + intros (batch & Htx & Hb).
      apply list_elem_of_fmap in Hb as ([a batch'] & -> & Hin).
      rewrite Hv in Hin. apply elem_of_map_to_list in Hin.
      now exists a, batch'.
    + intros (a & batch & Ha & Htx). exists batch. split; [exact Htx|].
      apply list_elem_of_fmap. exists (a, batch). split; [reflexivity|].
      rewrite Hv. now apply elem_of_map_to_list.
  - apply concat_Permutation_snd. now rewrite Hv, Hv'.
  - intros a batch Ha.
    assert ((a, batch) ∈ visit) as Hin
      by (rewrite Hv; now apply elem_of_map_to_list).
    apply list_elem_of_split in Hin as (v1 & v2 & ->).
    exists (concat (map snd v1)), (concat (map snd v2)).
    rewrite map_app, concat_app. reflexivity.
Qed.

End Pool.

End ApiBackendFacts.

Module ApiBackendExamples.
Import Common ApiBackend ApiBackendFacts ApiSamples Fixtures.

(** Block number -7 is neither pending (-2) nor latest (-1): it is
    looked up far beyond the chain and found missing, without error. *)
Lemma StateAndHeaderByNumber_follows_HeaderByNumber_witness :
  StateAndHeaderByNumber (-2) (-1) N N string string header_of
    (fun _ => genesis) full (-7)
  = Returns (None, None, None)
  /\ uint64 (-7) = 18446744073709551609%N.
Proof.
  destruct (StateAndHeaderByNumber_follows_HeaderByNumber (-2) (-1) N N
              string string header_of (fun _ => genesis) full (-7)
              ltac:(discriminate)) as [H1 H2].
  destruct (H2 ltac:(discriminate)) as (Hh & _ & Hw & _).
  rewrite Hh in H1. split; [exact H1|].
  rewrite Hw by lia. reflexivity.
Defined.

Lemma Les_pending_is_latest_witness :
  LesStateAndHeaderByNumber (-2) (-1) N N string string
    (fun _ => Some "state") light 3
  = (Some "state", Some 3%N, None)
  /\ LesBlockByNumber (-2) (-1) N N string (fun _ => genesis) light (-2)
     = LesBlockByNumber (-2) (-1) N N string (fun _ => genesis) light (-1).
Proof.
  split.
  - apply (proj1 (proj2 (Les_pending_is_latest (-2) (-1) N N string string
                           (fun _ => genesis) (fun _ => Some "state")
                           light 3)) 3%N).
    reflexivity.
  - apply (proj1 (Les_pending_is_latest (-2) (-1) N N string string
                    (fun _ => genesis) (fun _ => Some "state") light 3)).
Defined.

Lemma GetLogs_of_GetReceipts_witness :
  GetLogs RLP.Bloom RLP.Log RLP.Address (fun _ => 1%N)
    (fun _ _ => Some [Some statusReceipt; Some rootReceipt]) genesis
  = Returns (Some [[transferLog; transferLog]; [transferLog]])
  /\ GetLogs RLP.Bloom RLP.Log RLP.Address (fun _ => 1%N)
       (fun _ _ => Some [Some statusReceipt; None]) genesis
     = Panics.
Proof.
  split.
  - apply (proj1 (proj2 (proj2 (GetLogs_of_GetReceipts RLP.Bloom RLP.Log
                                  RLP.Address (fun _ => 1%N)
                                  (fun _ _ => Some [Some statusReceipt;
                                                    Some rootReceipt])
                                  genesis)))
             [statusReceipt; rootReceipt]).
    reflexivity.
  - apply (proj1 (GetLogs_of_GetReceipts RLP.Bloom RLP.Log RLP.Address
                    (fun _ => 1%N)
                    (fun _ _ => Some [Some statusReceipt; None]) genesis)).
    exists [Some statusReceipt; None]. split; [reflexivity|].
    apply elem_of_cons. right. apply elem_of_cons. now left.
Defined.

Lemma GetPoolTransactions_all_pending_witness :
  fst (GetPoolTransactions N pool (@None string) (map_to_list pool))
  ≡ₚ fst (GetPoolTransactions N pool (@None string)
            (reverse (map_to_list pool)))
  /\ exists before after,
       fst (GetPoolTransactions N pool (@None string) (map_to_list pool))
       = (before ++ [10; 11]%N ++ after)%list.
Proof.
  assert (visits N pool (map_to_list pool)) as V
    by (unfold visits; reflexivity).
  assert (visits N pool (reverse (map_to_list pool))) as V'
    by (unfold visits; apply reverse_Permutation).
  destruct (@GetPoolTransactions_all_pending N _ _ N string pool _ _ V V')
    as (_ & _ & Hp & Hb & _).
  split; [exact Hp|]. apply (Hb 1%N). reflexivity.
Defined.

End ApiBackendExamples.

Module MobileFacts.
Import Common Slices Mobile.

Section Bootnodes.
Variable Node : Type.
Variable ParseNode : string -> option Node.

Local Abbreviation parseInto := (parseInto Node ParseNode).
Local Abbreviation FoundationBootnodes :=
  (FoundationBootnodes Node ParseNode).

Lemma parseInto_all (done : list (option Node)) (urls : list string) :
  Forall (fun url => is_Some (ParseNode url)) urls ->
  parseInto (length done) urls (done ++ make None (length urls))%list
  = Returns (done ++ map ParseNode urls)%list.
Proof.
  revert done; induction urls as [|url urls IH]; intros done Hall.
  - cbn. now rewrite app_nil_r.
  - apply Forall_cons in Hall as [[n Hn] Hall].
    cbn [Mobile.parseInto length make replicate map].
    unfold MustParseNode. rewrite Hn, length_app. cbn [length].
    destruct (Nat.ltb_spec (length done)
                (length done + S (length (replicate (length urls)
                                            (@None Node)))));
      [|lia].
    replace (<[length done := Some n]>
               (done ++ None :: replicate (length urls) None))%list
      with ((done ++ [Some n]) ++ make None (length urls))%list.
    + replace (S (length done)) with (length (done ++ [Some n]))
        by (rewrite length_app; cbn; lia).
      rewrite (IH _ Hall). now rewrite <- app_assoc.
    + rewrite <- app_assoc. cbn [app].
      rewrite (insert_app_r_alt done _ (length done)) by lia.
      now rewrite Nat.sub_diag.
Qed.

Lemma parseInto_some_fails (i : nat) (urls : list string)
    (nodes : list (option Node)) :
  Exists (fun url => ParseNode url = None) urls ->
  parseInto i urls nodes = Panics.
Proof.
  intros Hex. revert i nodes.
  induction Hex as [url urls Hn | url urls _ IH]; intros i nodes;
    cbn [Mobile.parseInto]; unfold MustParseNode.
  - now rewrite Hn.
  - destruct (ParseNode url); [|reflexivity].
    destruct (i <? length nodes)%nat; [apply IH | reflexivity].
Qed.

(** X21: [FoundationBootnodes] is all or nothing: it panics exactly
    when one of the bootnode URLs does not parse, however many parse
    before or after it, and else returns one node for every URL, in
    the order of the URLs and none of them nil. *)
Theorem FoundationBootnodes_all_or_nothing (urls : list string) :
  (FoundationBootnodes urls = Panics
   <-> exists url, url ∈ urls /\ ParseNode url = None)
  /\ (forall nodes,
        FoundationBootnodes urls = Returns nodes ->
        nodes = map ParseNode urls
        /\ length nodes = length urls
        /\ Forall (fun n => n <> None) nodes).
Proof.
  unfold Mobile.FoundationBootnodes.
  destruct (decide (Forall (fun url => is_Some (ParseNode url)) urls))
    as [Hall | Hex].
  - pose proof (parseInto_all [] urls Hall) as Hp. cbn [app length] in Hp.
    rewrite Hp. split.
    + split; [discriminate|]. intros (url & Hin & Hn).
      rewrite Forall_forall in Hall. destruct (Hall url Hin) as [n Hs].
      congruence.
    + intros nodes [= <-]. split; [reflexivity|].
      split; [apply length_map|].
      apply Forall_fmap. eapply Forall_impl; [exact Hall|].
      intros url [n Hs]. cbn. congruence.
  - apply not_Forall_Exists in Hex; [|intros url; apply _].
    assert (Exists (fun url => ParseNode url = None) urls) as Hex'.
    { eapply Exists_impl; [exact Hex|]. intros url Hn. cbn in Hn.
      destruct (ParseNode url); [|reflexivity].
      exfalso. apply Hn. now eexists. }
    rewrite (parseInto_some_fails _ _ _ Hex'). split.
    + split; [|reflexivity]. intros _.
      apply Exists_exists in Hex' as (url & Hin & Hn). now exists url.
    + discriminate.
Qed.

End Bootnodes.

Section Node.
Variable Node : Type.
Variable Genesis : Type.
Variable withTestnetConfig : Genesis -> Genesis.
Variable foundation : list (option Node).
Variable Size : list (option Node) -> Z.
Variable Join : string -> string -> string.
Variable nodeNew : NodeConf Node -> option string.
Variable Unmarshal : string -> result string Genesis.
Variable Register
  : list (service Genesis) -> service Genesis -> option string.
Variable LightSync : Z.
Variable TestnetGenesis : outcome string.

Local Abbreviation NodeConfig := (NodeConfig Node).
Local Abbreviation withDefaults := (withDefaults Node foundation Size).
Local Abbreviation parseGenesis :=
  (parseGenesis Node Genesis withTestnetConfig Unmarshal TestnetGenesis).
Local Abbreviation registerAll :=
  (registerAll Node Genesis Register LightSync).
Local Abbreviation NewNode :=
  (NewNode Node Genesis withTestnetConfig foundation Size Join nodeNew
     Unmarshal Register LightSync TestnetGenesis).

(** What [NewNode] went through when it returns a node. *)
Lemma NewNode_stack (datadir : string) (config : option NodeConfig)
    (stack : Stack Node Genesis) (err : option error)
    (config' : NodeConfig) :
  NewNode datadir config = Returns ((Some stack, err), config') ->
  exists nodes genesis,
    BoogdarapNodes Node (withDefaults config) = Some nodes
    /\ nodeConf Node Genesis stack
       = mkNodeConf Node datadir (Join datadir "keystore") true true nodes
           ":0" (MaxPeers Node (withDefaults config))
    /\ nodeNew (nodeConf Node Genesis stack) = None
    /\ parseGenesis (withDefaults config) = Returns (Ok (genesis, config'))
    /\ registerAll genesis config' = Ok (services Node Genesis stack)
    /\ err = None.
Proof.
  unfold Mobile.NewNode.
  destruct (BoogdarapNodes Node (withDefaults config)) as [nodes|];
    [|discriminate].
  destruct (nodeNew _) eqn:En; [discriminate|].
  destruct (parseGenesis (withDefaults config))
    as [[[genesis c]|e]|]; [|discriminate|discriminate].
  destruct (registerAll genesis c) as [registered|e] eqn:Er;
    [|discriminate].
  intros [= <- <- <-]. exists nodes, genesis. cbn [nodeConf services].
  repeat split; auto.
Qed.

Lemma withDefaults_fields (config : option NodeConfig) :
  let given :=
    match config with
    | Some c => c
    | None => NewNodeConfig Node foundation
    end in
  MaxPeers Node (withDefaults config)
  = (if Z.eqb (MaxPeers Node given) 0 then 25%Z else MaxPeers Node given)
  /\ BoogdarapNodes Node (withDefaults config)
     = Some (match BoogdarapNodes Node given with
             | Some nodes => if Z.eqb (Size nodes) 0 then foundation
                             else nodes
             | None => foundation
             end)
  /\ gdachainEnabled Node (withDefaults config) = gdachainEnabled Node given
  /\ gdachainNetworkID Node (withDefaults config)
     = gdachainNetworkID Node given
  /\ gdachainGenesis Node (withDefaults config) = gdachainGenesis Node given
  /\ gdachainDatabaseCache Node (withDefaults config)
     = gdachainDatabaseCache Node given
  /\ gdachainNegdaats Node (withDefaults config)
     = gdachainNegdaats Node given
  /\ WhisperEnabled Node (withDefaults config) = WhisperEnabled Node given.
Proof.
  cbn zeta. unfold Mobile.withDefaults.
  destruct config as [c|]; cbn [NewNodeConfig defaultNodeConfig MaxPeers
    BoogdarapNodes Z.eqb].
  - destruct (Z.eqb (MaxPeers Node c) 0) eqn:Em;
      cbn [setMaxPeers BoogdarapNodes MaxPeers];
      destruct (BoogdarapNodes Node c) as [nodes|] eqn:Eb;
      try destruct (Z.eqb (Size nodes) 0) eqn:Es; cbn;
      rewrite ?Eb, ?Em; repeat split; reflexivity.
  - destruct (Z.eqb (Size foundation) 0); cbn; repeat split.
Qed.

(** X22: a node that [NewNode] returns has a peer limit that is never
    zero: the limit of the configuration, and 25 when that is zero or
    no configuration is given, so that the zero of the configuration,
    which stands for static and trusted peers only, cannot be had. Its
    bootnodes are those of the configuration, and the foundation's when
    the configuration has none or an empty list; discovery v5 is on
    and the old discovery off, it listens on a port of the system's
    choice, and no error comes with it. The caller's configuration
    holds the values filled in. *)
Theorem NewNode_fills_defaults (datadir : string)
    (config : option NodeConfig) (stack : Stack Node Genesis)
    (err : option error) (config' : NodeConfig) :
  NewNode datadir config = Returns ((Some stack, err), config') ->
  let given :=
    match config with
    | Some c => c
    | None => NewNodeConfig Node foundation
    end in
  err = None
  /\ P2PMaxPeers Node (nodeConf Node Genesis stack)
     = (if Z.eqb (MaxPeers Node given) 0 then 25%Z else MaxPeers Node given)
  /\ P2PMaxPeers Node (nodeConf Node Genesis stack) <> 0%Z
  /\ MaxPeers Node config' = P2PMaxPeers Node (nodeConf Node Genesis stack)
  /\ BoogdarapNodesV5 Node (nodeConf Node Genesis stack)
     = match BoogdarapNodes Node given with
       | Some nodes => if Z.eqb (Size nodes) 0 then foundation else nodes
       | None => foundation
       end
  /\ BoogdarapNodes Node config'
     = Some (BoogdarapNodesV5 Node (nodeConf Node Genesis stack))
  /\ NoDiscovery Node (nodeConf Node Genesis stack) = true
  /\ DiscoveryV5 Node (nodeConf Node Genesis stack) = true
  /\ ListenAddr Node (nodeConf Node Genesis stack) = ":0"
  /\ DataDir Node (nodeConf Node Genesis stack) = datadir.
Proof.
  intros HN given.
  destruct (NewNode_stack _ _ _ _ _ HN)
    as (nodes & genesis & Hb & Hc & _ & Hg & _ & ->).
  destruct (withDefaults_fields config) as (Hm & Hbn & _).
  fold given in Hm, Hbn. rewrite Hc.
  cbn [P2PMaxPeers BoogdarapNodesV5 NoDiscovery DiscoveryV5 ListenAddr
       DataDir].
  rewrite Hb in Hbn. injection Hbn as Hbn.
  assert (MaxPeers Node config' = MaxPeers Node (withDefaults config)
          /\ BoogdarapNodes Node config'
             = BoogdarapNodes Node (withDefaults config)) as [Hm' Hb'].
  { revert Hg. unfold Mobile.parseGenesis.
    destruct (String.eqb _ ""); [now intros [= _ <-]|].
    destruct (Unmarshal _); [|discriminate].
    destruct TestnetGenesis; [|discriminate].
    destruct (String.eqb _ _); [|now intros [= _ <-]].
    destruct (Z.eqb _ 1); now intros [= _ <-]. }
  rewrite Hm', Hb', Hb, Hm, Hbn.
  repeat split; try reflexivity.
  destruct (Z.eqb_spec (MaxPeers Node given) 0); [discriminate | assumption].
Qed.

Lemma registerAll_services (genesis : option Genesis) (config : NodeConfig)
    (registered : list (service Genesis)) :
  registerAll genesis config = Ok registered ->
  registered
  = ((if gdachainEnabled Node config then
        LesService Genesis
          (mkGdaConf Genesis genesis LightSync
             (ApiBackend.uint64 (gdachainNetworkID Node config))
             (gdachainDatabaseCache Node config))
        :: (if String.eqb (gdachainNegdaats Node config) "" then []
            else [StatsService Genesis (gdachainNegdaats Node config)])
      else [])
     ++ (if WhisperEnabled Node config then [WhisperService Genesis]
         else []))%list.
Proof.
  unfold Mobile.registerAll.
  destruct (gdachainEnabled Node config).
  - destruct (Register [] _); [discriminate|].
    destruct (String.eqb (gdachainNegdaats Node config) ""); cbn [negb].
    + destruct (WhisperEnabled Node config).
      * destruct (Register _ _); [discriminate|]. now intros [= <-].
      * now intros [= <-].
    + destruct (Register _ (StatsService _ _)); [discriminate|].
      destruct (WhisperEnabled Node config).
      * destruct (Register _ _); [discriminate|]. now intros [= <-].
      * now intros [= <-].
  - destruct (WhisperEnabled Node config).
    + destruct (Register _ _); [discriminate|]. now intros [= <-].
    + now intros [= <-].
Qed.

(** X23: the services of a node that [NewNode] returns are, in this
    order, the light service when gdachain is enabled, the stats
    service when gdachain is enabled and a connection string is given,
    and whisper when it is enabled; a connection string without
    gdachain registers nothing. The light service is always configured
    for light sync, with the network id as an unsigned number and the
    database cache of the configuration: a configuration that
    [gda.New] turns away, without any effect, whatever else it
    holds. *)
Theorem NewNode_registers_light_service (datadir : string)
    (config : option NodeConfig) (stack : Stack Node Genesis)
    (err : option error) (config' : NodeConfig) :
  NewNode datadir config = Returns ((Some stack, err), config') ->
  (exists genesis,
      services Node Genesis stack
      = ((if gdachainEnabled Node config' then
            LesService Genesis
              (mkGdaConf Genesis genesis LightSync
                 (ApiBackend.uint64 (gdachainNetworkID Node config'))
                 (gdachainDatabaseCache Node config'))
            :: (if String.eqb (gdachainNegdaats Node config') "" then []
                else [StatsService Genesis (gdachainNegdaats Node config')])
          else [])
         ++ (if WhisperEnabled Node config' then [WhisperService Genesis]
             else []))%list)
  /\ (forall gdaConf,
        In (LesService Genesis gdaConf) (services Node Genesis stack) ->
        SyncMode Genesis gdaConf = LightSync
        /\ forall IsValid version w skip done,
             Gda.New LightSync IsValid version w
               (Gda.mkConfig (SyncMode Genesis gdaConf) skip
                  (NetworkId Genesis gdaConf)) done
             = ((None, Some Gda.ErrLightSync), done))
  /\ (forall url,
        In (StatsService Genesis url) (services Node Genesis stack) ->
        gdachainEnabled Node config' = true
        /\ url = gdachainNegdaats Node config' /\ url <> "").
Proof.
  intros HN.
  destruct (NewNode_stack _ _ _ _ _ HN)
    as (nodes & genesis & _ & _ & _ & _ & Hr & _).
  apply registerAll_services in Hr. rewrite Hr.
  split; [now exists genesis|]. split.
  - intros gdaConf Hin.
    assert (SyncMode Genesis gdaConf = LightSync) as Hs.
    { destruct (gdachainEnabled Node config');
        [destruct (String.eqb (gdachainNegdaats Node config') "")|];
        destruct (WhisperEnabled Node config'); cbn [app In] in Hin;
        repeat (destruct Hin as [Hin | Hin]; try discriminate Hin);
        try contradiction; now injection Hin as <-. }
    split; [exact Hs|]. intros IsValid version w skip done.
    unfold Gda.New. cbn [Gda.SyncMode]. rewrite Hs, Z.eqb_refl. reflexivity.
  - intros url Hin.
    destruct (gdachainEnabled Node config');
      [destruct (String.eqb_spec (gdachainNegdaats Node config') "")|];
      destruct (WhisperEnabled Node config'); cbn [app In] in Hin;
      repeat (destruct Hin as [Hin | Hin]; try discriminate Hin);
      try contradiction; injection Hin as <-; now repeat split.
Qed.

(** X24: [NewNode] reads the genesis whether or not gdachain is
    enabled: a genesis that is given but does not parse fails it with
    the invalid-genesis error once the stack is made, even for a node
    that runs no chain protocol. With no genesis given the services
    get a nil genesis and the network id is untouched. With the
    genesis of the test network, and only then, a network id of 1 is
    replaced by 3, in the configuration of the caller as well; every
    other id is kept, also on the test network. *)
Theorem NewNode_genesis_and_network_id (datadir : string)
    (config : option NodeConfig) :
  (forall nodes err,
      BoogdarapNodes Node (withDefaults config) = Some nodes ->
      nodeNew (mkNodeConf Node datadir (Join datadir "keystore") true true
                 nodes ":0" (MaxPeers Node (withDefaults config))) = None ->
      gdachainGenesis Node (withDefaults config) <> "" ->
      Unmarshal (gdachainGenesis Node (withDefaults config)) = Err err ->
      NewNode datadir config
      = Returns ((None, Some (ErrInvalidGenesis err)), withDefaults config))
  /\ (forall stack err config',
        NewNode datadir config = Returns ((Some stack, err), config') ->
        (gdachainGenesis Node (withDefaults config) = "" ->
         config' = withDefaults config
         /\ forall gdaConf,
              In (LesService Genesis gdaConf) (services Node Genesis stack)
              -> Genesis_ Genesis gdaConf = None)
        /\ (gdachainGenesis Node (withDefaults config) <> "" ->
            exists testnet,
              TestnetGenesis = Returns testnet
              /\ gdachainNetworkID Node config'
                 = (if String.eqb (gdachainGenesis Node (withDefaults config))
                         testnet
                       && Z.eqb (gdachainNetworkID Node
                                   (withDefaults config)) 1
                    then 3%Z
                    else gdachainNetworkID Node (withDefaults config)))
        /\ (forall gdaConf,
              In (LesService Genesis gdaConf) (services Node Genesis stack)
              -> NetworkId Genesis gdaConf
                 = ApiBackend.uint64 (gdachainNetworkID Node config'))).
Proof.
  split.
  - intros nodes err Hb Hn Hg Hu. unfold Mobile.NewNode.
    rewrite Hb, Hn. unfold Mobile.parseGenesis.
    destruct (String.eqb_spec (gdachainGenesis Node (withDefaults config))
                ""); [contradiction|].
    rewrite Hu. reflexivity.
  - intros stack err config' HN.
    destruct (NewNode_stack _ _ _ _ _ HN)
      as (nodes & genesis & _ & _ & _ & Hg & Hr & _).
    apply registerAll_services in Hr.
    assert (forall gdaConf,
               In (LesService Genesis gdaConf) (services Node Genesis stack)
               -> gdaConf
                  = mkGdaConf Genesis genesis LightSync
                      (ApiBackend.uint64 (gdachainNetworkID Node config'))
                      (gdachainDatabaseCache Node config')) as Hles.
    { intros gdaConf Hin. rewrite Hr in Hin.
      destruct (gdachainEnabled Node config');
        [destruct (String.eqb (gdachainNegdaats Node config') "")|];
        destruct (WhisperEnabled Node config'); cbn [app In] in Hin;
        repeat (destruct Hin as [Hin | Hin]; try discriminate Hin);
        try contradiction; now injection Hin as <-. }
    revert Hg. unfold Mobile.parseGenesis.
    destruct (String.eqb_spec (gdachainGenesis Node (withDefaults config))
                "") as [E | N].
    + intros [= <- <-].
      split; [intros _; split; [reflexivity|]|split; [contradiction|]].
      * intros gdaConf Hin. now rewrite (Hles _ Hin).
      * intros gdaConf Hin. now rewrite (Hles _ Hin).
    + destruct (Unmarshal _) as [g|]; [|discriminate].
      destruct TestnetGenesis as [testnet|]; [|discriminate].
      split; [contradiction|]. split.
      * intros _. exists testnet. split; [reflexivity|]. revert Hg.
        destruct (String.eqb _ testnet); cbn [andb];
          [|now intros [= _ <-]].
        destruct (Z.eqb _ 1); now intros [= _ <-].
      * intros gdaConf Hin. now rewrite (Hles _ Hin).
Qed.

End Node.

End MobileFacts.

Module MobileExamples.
Import Mobile MobileFacts MobileSamples.

Lemma FoundationBootnodes_all_or_nothing_witness :
  FoundationBootnodes string parse ["enode://a"; ""; "enode://c"] = Panics
  /\ FoundationBootnodes string parse ["enode://a"; "enode://c"]
     = Returns [Some "enode://a"; Some "enode://c"].
Proof.
  split; [|reflexivity].
  apply (proj1 (FoundationBootnodes_all_or_nothing string parse
                  ["enode://a"; ""; "enode://c"])).
  exists "". split; [|reflexivity].
  apply elem_of_cons. right. apply elem_of_cons. now left.
Defined.

(** What [NewNode] makes of the test network configuration. *)
Example newNode_testnet :
  newNode (Some testnetConfig)
  = Returns
      ((Some
          (mkStack string string
             (mkNodeConf string "/data" "/data/keystore" true true
                [Some "enode://a"] ":0" 25)
             [LesService string
                (mkGdaConf string (Some "testnet+testnet") 2 3 32);
              StatsService string "phone:secret@host:3000"]),
        None),
       mkNodeConfig string (Some [Some "enode://a"]) 25 true 3 "testnet" 32
         "phone:secret@host:3000" false).
Proof. reflexivity. Qed.

Lemma NewNode_fills_defaults_witness :
  exists stack config',
    newNode (Some testnetConfig) = Returns ((Some stack, None), config')
    /\ P2PMaxPeers string (nodeConf string string stack) = 25%Z
    /\ BoogdarapNodesV5 string (nodeConf string string stack)
       = [Some "enode://a"].
Proof.
  eexists _, _. split; [reflexivity|].
  destruct (NewNode_fills_defaults string string (fun g => g ++ "+testnet")
              [Some "enode://a"] size join (fun _ => None) unmarshal
              (fun _ _ => None) Fixtures.LightSync (Returns "testnet")
              "/data" (Some testnetConfig) _ None _ eq_refl)
    as (_ & Hm & _ & _ & Hb & _).
  split; [exact Hm | exact Hb].
Defined.

Lemma NewNode_registers_light_service_witness :
  exists stack config',
    newNode (Some testnetConfig) = Returns ((Some stack, None), config')
    /\ forall gdaConf,
         In (LesService string gdaConf) (services string string stack) ->
         SyncMode string gdaConf = Fixtures.LightSync.
Proof.
  eexists _, _. split; [reflexivity|]. intros gdaConf Hin.
  apply (proj1 (proj2 (NewNode_registers_light_service string string
                         (fun g => g ++ "+testnet") [Some "enode://a"] size
                         join (fun _ => None) unmarshal (fun _ _ => None)
                         Fixtures.LightSync (Returns "testnet") "/data"
                         (Some testnetConfig) _ None _ eq_refl)) gdaConf
           Hin).
Defined.

Lemma NewNode_genesis_and_network_id_witness :
  newNode (Some (mkNodeConfig string None 0 false 1 "bad" 16 "" false))
  = Returns
      ((None, Some (ErrInvalidGenesis "unexpected end of JSON input")),
       mkNodeConfig string (Some [Some "enode://a"]) 25 false 1 "bad" 16 ""
         false).
Proof.
  apply (proj1 (NewNode_genesis_and_network_id string string
                  (fun g => g ++ "+testnet") [Some "enode://a"] size join
                  (fun _ => None) unmarshal (fun _ _ => None)
                  Fixtures.LightSync (Returns "testnet") "/data"
                  (Some (mkNodeConfig string None 0 false 1 "bad" 16 ""
                           false)))
           [Some "enode://a"] "unexpected end of JSON input");
    [reflexivity | reflexivity | discriminate | reflexivity].
Defined.

End MobileExamples.

Module SessionFacts.
Import P2P Metrics Session MeteredFacts.

Section Gda.
Import GdaMetrics.
Context {S : Type} `{!MsgReadWriter S}.
Variable p : Protocol.

Local Abbreviation meteredSession :=
  (@session _ (GdaMetrics.metered_MsgReadWriter p)).
Local Abbreviation meteredPerform :=
  (@perform _ (GdaMetrics.metered_MsgReadWriter p)).

Lemma perform_metered (o : op) (inner : S) (v : Z) (sink : Sink) :
  exists marks,
    meteredPerform o (mkMetered inner v, sink)
    = (fst (perform o inner),
       (mkMetered (snd (perform o inner)) v, ((sink ++ marks)%list : Sink)))
    /\ length marks
       = (if metered (fst (perform o inner)) then 2 else 0)%nat
    /\ Forall (fun m => (0 <= snd m)%Z) marks.
Proof.
  destruct o as [|msg]; unfold perform;
    cbn [ReadMsg WriteMsg metered_MsgReadWriter].
  - rewrite meteredReadMsg_eq. cbn [MsgReadWriter_ version].
    destruct (ReadMsg inner) as [[msg [e|]] inner']; cbn [fst snd metered].
    + exists []. rewrite app_nil_r. now repeat split.
    + eexists [_; _]. unfold Mark. rewrite <- app_assoc. cbn [app].
      split; [reflexivity|]. split; [reflexivity|].
      repeat constructor; cbn [snd]; lia.
  - rewrite meteredWriteMsg_eq. cbn [MsgReadWriter_ version].
    destruct (WriteMsg msg inner) as [err inner']; cbn [fst snd metered].
    eexists [_; _]. unfold Mark. rewrite <- app_assoc. cbn [app].
    split; [reflexivity|]. split; [reflexivity|].
    repeat constructor; cbn [snd]; lia.
Qed.

Lemma session_metered (ops : list op) (inner : S) (v : Z) (sink : Sink) :
  exists marks,
    meteredSession ops (mkMetered inner v, sink)
    = (fst (session ops inner),
       (mkMetered (snd (session ops inner)) v, ((sink ++ marks)%list : Sink)))
    /\ length marks
       = (2 * length (filter (fun r => metered r = true)
                        (fst (session ops inner))))%nat
    /\ Forall (fun m => (0 <= snd m)%Z) marks.
Proof.
  revert inner sink. induction ops as [|o ops IH]; intros inner sink.
  - exists []. rewrite app_nil_r. now repeat split.
  - cbn [session].
    destruct (perform_metered o inner v sink) as (m1 & -> & Hl1 & Hp1).
    destruct (IH (snd (perform o inner)) (sink ++ m1)%list)
      as (m2 & -> & Hl2 & Hp2).
    destruct (perform o inner) as [r inner']. cbn [fst snd] in *.
    destruct (session ops inner') as [rs inner'']. cbn [fst snd] in *.
    exists (m1 ++ m2)%list. split; [now rewrite app_assoc|]. split.
    + rewrite length_app, Hl1, Hl2, filter_cons.
      destruct (decide (metered r = true)) as [E | E].
      * rewrite E. cbn [length]. lia.
      * destruct (metered r); [contradiction|]. lia.
    + now apply Forall_app.
Qed.

(** X25: a stream wrapped by [newMeteredMsgWriter] and set to a version
    by [Init] answers every run of reads and writes as the stream
    would on its own, reply for reply, and leaves the stream where the
    same run would leave it; the version stays as set. The sink only
    grows: it gains two marks, of amounts that are never negative, for
    every write, failed or not, and for every read without error, and
    none for a read that fails. With metrics disabled the stream comes
    back unwrapped. *)
Theorem metered_session_transparent
    (ops : list op) (inner : S) (v : Z) (sink : Sink) :
  newMeteredMsgWriter false inner = inl inner
  /\ exists rw,
       newMeteredMsgWriter true inner = inr rw
       /\ version rw = 0%Z
       /\ fst (meteredSession ops (Init v rw, sink))
          = fst (session ops inner)
       /\ MsgReadWriter_ (fst (snd (meteredSession ops (Init v rw, sink))))
          = snd (session ops inner)
       /\ version (fst (snd (meteredSession ops (Init v rw, sink)))) = v
       /\ exists marks,
            snd (snd (meteredSession ops (Init v rw, sink)))
            = (sink ++ marks)%list
            /\ length marks
               = (2 * length (filter (fun r => metered r = true)
                                (fst (session ops inner))))%nat
            /\ Forall (fun m => (0 <= snd m)%Z) marks.
Proof.
  split; [reflexivity|]. eexists. split; [reflexivity|].
  split; [reflexivity|]. unfold Init. cbn [MsgReadWriter_].
  destruct (session_metered ops inner v sink) as (marks & -> & Hl & Hp).
  cbn [fst snd MsgReadWriter_ version]. repeat split.
  now exists marks.
Qed.
End Gda.

Section Les.
Import LesMetrics.
Context {S : Type} `{!MsgReadWriter S}.

Local Abbreviation lesSession :=
  (@session _ (LesMetrics.metered_MsgReadWriter (S := S))).
Local Abbreviation lesPerform :=
  (@perform _ (LesMetrics.metered_MsgReadWriter (S := S))).

Ltac eqb_cases :=
  repeat match goal with
    | |- context [String.eqb ?a ?b] => destruct (String.eqb a b)
    end;
  lia.

Lemma les_perform (o : op) (inner : S) (v : Z) (sink : Sink) :
  exists marks,
    lesPerform o (mkMetered inner v, sink)
    = (fst (perform o inner),
       (mkMetered (snd (perform o inner)) v, ((sink ++ marks)%list : Sink)))
    /\ forall name,
         count name marks
         = ((if isRead (fst (perform o inner)) then
               (if String.eqb miscInPacketsMeter name then 1 else 0)
               + (if String.eqb miscInTrafficMeter name
                  then bytesRead [fst (perform o inner)] else 0)
             else 0)
            + (if isWrite o then
                 (if String.eqb miscOutPacketsMeter name then 1 else 0)
                 + (if String.eqb miscOutTrafficMeter name
                    then bytesWritten [o] else 0)
               else 0))%Z.
Proof.
  destruct o as [|msg]; unfold perform;
    cbn [ReadMsg WriteMsg metered_MsgReadWriter].
  - rewrite les_meteredReadMsg_eq. cbn [MsgReadWriter_ version].
    destruct (ReadMsg inner) as [[msg [e|]] inner'];
      cbn [fst snd isRead isWrite bytesRead bytesWritten].
    + exists []. rewrite app_nil_r. split; [reflexivity|].
      intros name. cbn [count]. eqb_cases.
    + eexists [_; _]. unfold Mark. rewrite <- app_assoc. cbn [app].
      split; [reflexivity|]. intros name. cbn [count]. eqb_cases.
  - rewrite les_meteredWriteMsg_eq. cbn [MsgReadWriter_ version].
    destruct (WriteMsg msg inner) as [err inner'];
      cbn [fst snd isRead isWrite bytesRead bytesWritten].
    eexists [_; _]. unfold Mark. rewrite <- app_assoc. cbn [app].
    split; [reflexivity|]. intros name. cbn [count]. eqb_cases.
Qed.

Lemma les_session (ops : list op) (inner : S) (v : Z) (sink : Sink) :
  exists marks,
    lesSession ops (mkMetered inner v, sink)
    = (fst (session ops inner),
       (mkMetered (snd (session ops inner)) v, ((sink ++ marks)%list : Sink)))
    /\ forall name,
         count name marks
         = ((if String.eqb miscInPacketsMeter name
             then Z.of_nat (length (filter (fun r => isRead r = true)
                                      (fst (session ops inner))))
             else 0)
            + (if String.eqb miscInTrafficMeter name
               then bytesRead (fst (session ops inner)) else 0)
            + (if String.eqb miscOutPacketsMeter name
               then Z.of_nat (length (filter (fun o => isWrite o = true)
                                        ops))
               else 0)
            + (if String.eqb miscOutTrafficMeter name
               then bytesWritten ops else 0))%Z.
Proof.
  revert inner sink. induction ops as [|o ops IH]; intros inner sink.
  - exists []. rewrite app_nil_r. split; [reflexivity|].
    intros name. cbn [session fst snd count bytesRead bytesWritten].
    rewrite !filter_nil. cbn [length Z.of_nat]. eqb_cases.
  - cbn [session].
    destruct (les_perform o inner v sink) as (m1 & -> & Hc1).
    destruct (IH (snd (perform o inner)) (sink ++ m1)%list)
      as (m2 & -> & Hc2).
    destruct (perform o inner) as [r inner']. cbn [fst snd] in *.
    destruct (session ops inner') as [rs inner'']. cbn [fst snd] in *.
    exists (m1 ++ m2)%list. split; [now rewrite app_assoc|].
    intros name. rewrite count_app, Hc1, Hc2, !filter_cons.
    assert (bytesRead (r :: rs)
            = ((if isRead r then bytesRead [r] else 0) + bytesRead rs)%Z)
      as -> by (destruct r as [m [e|]|e]; cbn [bytesRead isRead]; lia).
    assert (bytesWritten (o :: ops)
            = ((if isWrite o then bytesWritten [o] else 0)
               + bytesWritten ops)%Z)
      as -> by (destruct o; cbn [bytesWritten isWrite]; lia).
    destruct (decide (isRead r = true)) as [Er | Er];
      [rewrite Er | destruct (isRead r); [contradiction|]];
      (destruct (decide (isWrite o = true)) as [Ew | Ew];
       [rewrite Ew | destruct (isWrite o); [contradiction|]]);
      cbn [length]; eqb_cases.
Qed.

(** X26: over a run of reads and writes a stream metered by the light
    wrapper has counted, on its four misc meters and on no other: one
    inbound packet and the size of the message for every read without
    error; one outbound packet and the size of the message for every
    write, also for a write that the stream refused. The replies and
    the stream are those of the run on the stream alone. *)
Theorem les_session_totals
    (ops : list op) (inner : S) (v : Z) (sink : Sink) :
  let after := snd (snd (lesSession ops (mkMetered inner v, sink))) in
  let replies := fst (session ops inner) in
  fst (lesSession ops (mkMetered inner v, sink)) = replies
  /\ MsgReadWriter_ (fst (snd (lesSession ops (mkMetered inner v, sink))))
     = snd (session ops inner)
  /\ count miscInPacketsMeter after
     = (count miscInPacketsMeter sink
        + Z.of_nat (length (filter (fun r => isRead r = true) replies)))%Z
  /\ count miscInTrafficMeter after
     = (count miscInTrafficMeter sink + bytesRead replies)%Z
  /\ count miscOutPacketsMeter after
     = (count miscOutPacketsMeter sink
        + Z.of_nat (length (filter (fun o => isWrite o = true) ops)))%Z
  /\ count miscOutTrafficMeter after
     = (count miscOutTrafficMeter sink + bytesWritten ops)%Z
  /\ forall name,
       name <> miscInPacketsMeter -> name <> miscInTrafficMeter ->
       name <> miscOutPacketsMeter -> name <> miscOutTrafficMeter ->
       count name after = count name sink.
Proof.
  cbn zeta.
  destruct (les_session ops inner v sink) as (marks & -> & Hc).
  cbn [fst snd MsgReadWriter_].
  split; [reflexivity|]. split; [reflexivity|].
  rewrite !count_app, !Hc.
  split; [vm_compute String.eqb; cbv iota; lia|].
  split; [vm_compute String.eqb; cbv iota; lia|].
  split; [vm_compute String.eqb; cbv iota; lia|].
  split; [vm_compute String.eqb; cbv iota; lia|].
  intros name N1 N2 N3 N4. rewrite count_app, Hc.
  apply not_eq_sym, String.eqb_neq in N1, N2, N3, N4.
  rewrite N1, N2, N3, N4. lia.
Qed.
End Les.

End SessionFacts.
